(** * CCS collateral crawler: acquisition, classification, sanitizing, audit

    A shallow embedding of [src/ccs_crawler.py] and
    [src/validate_outputs.py].  File names are byte strings, the product
    directory is an association list from names to files in the order in
    which the code enumerates it, and the output root is a finite map from
    product codes to product directories.  Everything the browser layer
    returns is an explicit oracle argument. *)

From Stdlib Require Import ZArith Ascii String Lia.
From stdpp Require Import base option list gmap strings.

Set Warnings "-register-all".
Local Open Scope Z_scope.

(* ================================================================== *)
(** * Part I: definitions *)
(* ================================================================== *)

(** ** Python string operations (ASCII file names) *)

Module PyStr.

(** [str.lower] restricted to ASCII: only [A]..[Z] are changed. *)
Definition lower_ascii (c : ascii) : ascii :=
  let n := nat_of_ascii c in
  if (Nat.leb 65 n && Nat.leb n 90)%bool then ascii_of_nat (n + 32) else c.

Fixpoint lower (s : string) : string :=
  match s with
  | EmptyString => EmptyString
  | String c s' => String (lower_ascii c) (lower s')
  end.

(** Every character of [s] is below 128.  On such strings [lower] is
    [str.lower]; on other strings, read as UTF-8, [str.lower] may change
    more. *)
Fixpoint is_ascii (s : string) : bool :=
  match s with
  | EmptyString => true
  | String c s' => Nat.ltb (nat_of_ascii c) 128 && is_ascii s'
  end.

(** [s.startswith(p)] *)
Fixpoint startswith (s p : string) : bool :=
  match p, s with
  | EmptyString, _ => true
  | String _ _, EmptyString => false
  | String b p', String a s' => Ascii.eqb a b && startswith s' p'
  end.

(** [sub in s] *)
Fixpoint contains (s sub : string) : bool :=
  startswith s sub ||
  match s with
  | EmptyString => false
  | String _ s' => contains s' sub
  end.

(** [s.endswith(suf)] *)
Fixpoint endswith (s suf : string) : bool :=
  String.eqb s suf ||
  match s with
  | EmptyString => false
  | String _ s' => endswith s' suf
  end.

(** [s.split(sep)] for a one-character separator: never empty. *)
Fixpoint split (sep : ascii) (s : string) : list string :=
  match s with
  | EmptyString => [EmptyString]
  | String c s' =>
      if Ascii.eqb c sep then EmptyString :: split sep s'
      else match split sep s' with
           | [] => [String c EmptyString]
           | w :: ws => String c w :: ws
           end
  end.

(** [sep not in s] as a proposition, for the lemmas about [split]. *)
Fixpoint free_of (sep : ascii) (s : string) : Prop :=
  match s with
  | EmptyString => True
  | String c s' => Ascii.eqb c sep = false ∧ free_of sep s'
  end.

End PyStr.

(** ** [pathlib.PurePosixPath]: [name] and [suffix] *)

Module PyPath.
Import PyStr.

(** A path component survives parsing when it is neither empty nor [.]. *)
Definition keeps (c : string) : bool :=
  negb (String.eqb c "") && negb (String.eqb c ".").

Definition parts (p : string) : list string :=
  List.filter keeps (split "/" p).

(** [Path(p).name]: the last component, or the empty string. *)
Definition name (p : string) : string := List.last (parts p) "".

(** The text after the last dot of [s], when [s] has a dot. *)
Fixpoint after_last_dot (s : string) : option string :=
  match s with
  | EmptyString => None
  | String c s' =>
      match after_last_dot s' with
      | Some e => Some e
      | None => if Ascii.eqb c "." then Some s' else None
      end
  end.

(** [i = name.rfind('.')] and [0 < i < len(name) - 1] give [name[i:]];
    anything else gives the empty suffix (pathlib of Python 3.4-3.13). *)
Definition name_suffix (n : string) : string :=
  match after_last_dot n with
  | Some e =>
      if (Nat.ltb 0 (String.length e)
          && Nat.ltb (String.length e + 1) (String.length n))%bool
      then "." +:+ e else ""
  | None => ""
  end.

(** [Path(p).suffix] *)
Definition suffix (p : string) : string := name_suffix (name p).

(** [Path(n).stem] for a file name [n]: the name without its suffix. *)
Definition stem (n : string) : string :=
  String.substring 0 (String.length n - String.length (name_suffix n))%nat n.

(** [Path(n).with_suffix(new)] for a file name [n] *)
Definition with_suffix (n new : string) : string := stem n +:+ new.

End PyPath.

(** ** Files as the code observes them *)

(** [st_size] is what [stat()] reports, [head] the result of
    [open("rb").read(4)] ([None] when opening or reading raises) and
    [zip_members] what [zipfile]/[shutil.unpack_archive] see ([None] when
    the bytes are not a zip archive).  Members carry whole files, so that an
    extracted member can be classified and copied like any other file. *)
Inductive file : Type :=
  File (st_size : Z) (head : option string)
       (zip_members : option (list (string * file))).

Definition st_size (f : file) : Z := let 'File s _ _ := f in s.
Definition head (f : file) : option string := let 'File _ h _ := f in h.
Definition zip_members (f : file) : option (list (string * file)) :=
  let 'File _ _ z := f in z.

Definition PDF_MAGIC : string := "%PDF".

(** [is_pdf]: the first four bytes equal the magic; any exception is [False]. *)
Definition is_pdf (f : file) : bool :=
  match head f with
  | Some h => String.eqb h PDF_MAGIC
  | None => false
  end.

(** ** [validate_outputs.clean_zip] on archives that can be read *)

Module Sanitizer.
Import PyStr.

Section CleanZip.
Context {D : Type}.

(** An archive on disk: [None] when [zipfile.ZipFile] raises
    [BadZipFile], otherwise the entries in directory order, each with what
    [zf.read] returns for it. *)
Definition archive : Type := option (list (string * D)).

Definition target_exts (mode : string) : list string :=
  if String.eqb mode "dxf" then [".dxf"] else [".stp"; ".step"].

(** [Path(m).suffix.lower() in target_exts] *)
Definition is_target (mode m : string) : bool :=
  bool_decide (lower (PyPath.suffix m) ∈ target_exts mode).

(** [zf.read(m)]: [NameToInfo] keeps the last entry of each name. *)
Fixpoint zf_read (entries : list (string * D)) (m : string) : option D :=
  match entries with
  | [] => None
  | (n, d) :: rest =>
      match zf_read rest m with
      | Some d' => Some d'
      | None => if String.eqb n m then Some d else None
      end
  end.

(** The entries written to the temporary archive: one per target
    member, named by its base name. *)
Definition rebuild (entries : list (string * D))
    (target_members : list string) : list (string * D) :=
  omap (λ m, pair (PyPath.name m) <$> zf_read entries m) target_members.

(** Result [((changed, kept), archive')]; [archive'] is the archive
    found at [zip_path] afterwards. *)
Definition clean_zip (a : archive) (mode : string)
    : (bool * list string) * archive :=
  match a with
  | None => ((false, []), a)
  | Some entries =>
      let members := entries.*1 in
      let target_members := filter (λ m, is_target mode m) members in
      if bool_decide (target_members = []) then ((false, []), a)
      else if bool_decide (list_to_set target_members
                           ≠@{gset string} list_to_set members)
      then let out := rebuild entries target_members in
           ((true, out.*1), Some out)
      else ((false, PyPath.name <$> target_members), a)
  end.

(** An entry under its base name: what the rebuilt archive holds for an
    entry whose name is unique. *)
Definition flatten_entry (e : string * D) : string * D :=
  (PyPath.name e.1, e.2).

End CleanZip.

Global Arguments archive : clear implicits.

End Sanitizer.

(** ** [clean_zip] on archives with members that cannot be read

    [Sanitizer.clean_zip] is [clean_zip] on an archive all of whose
    members [zf.read] returns, seen through its result and the archive it
    leaves.  Here a member may make [zf.read] raise, and the temporary
    archive [zip_path.with_suffix(".tmp.zip")] is part of what a call
    leaves. *)

Module Rewrite.
Import PyStr.

(** What [zf.read(m)] raises for a member it cannot read: [BadZipFile]
    (a bad header or check sum), or anything else ([zlib.error],
    [RuntimeError] for an encrypted member, [NotImplementedError],
    [OSError]). *)
Inductive read_error : Type := BadZipFile | OtherError.

Inductive member (D : Type) : Type :=
  | Readable (data : D)
  | Unreadable (e : read_error).
Global Arguments Readable {D} data.
Global Arguments Unreadable {D} e.

(** How a call ends: [return changed, kept], or an exception that leaves
    [clean_zip]. *)
Inductive verdict : Type :=
  | Returns (changed : bool) (kept : list string)
  | Escapes.

(** The file at [zip_path.with_suffix(".tmp.zip")] after the call: not
    touched; created, or truncated, and left with the entries written
    before [zf.read] raised; or created and renamed to [zip_path]. *)
Inductive scratch (D : Type) : Type :=
  | Untouched
  | LeftBehind (entries : list (string * D))
  | Renamed.
Global Arguments Untouched {D}.
Global Arguments LeftBehind {D} entries.
Global Arguments Renamed {D}.

Record result (D : Type) : Type := Ending {
  ended : verdict;
  zip_after : option (list (string * member D));
  tmp_after : scratch D;
}.
Global Arguments Ending {D} ended zip_after tmp_after.
Global Arguments ended {D} r.
Global Arguments zip_after {D} r.
Global Arguments tmp_after {D} r.

Section CleanZip.
Context {D : Type}.

(** The loop over [target_members]: the entries written to the temporary
    archive, whose names are the names appended to [kept], and the
    exception that ended the loop, if one did.  A name that is not in the
    archive makes [zf.read] raise [KeyError]. *)
Fixpoint copy_members (entries : list (string * member D))
    (target_members : list string)
    : list (string * D) * option read_error :=
  match target_members with
  | [] => ([], None)
  | m :: rest =>
      match Sanitizer.zf_read entries m with
      | Some (Readable data) =>
          let '(out, e) := copy_members entries rest in
          ((PyPath.name m, data) :: out, e)
      | Some (Unreadable e) => ([], Some e)
      | None => ([], Some OtherError)
      end
  end.

(** An entry of the rebuilt archive, as the next call finds it. *)
Definition written (e : string * D) : string * member D :=
  (e.1, Readable e.2).


(** [a] is [None] when [zipfile.ZipFile(zip_path)] raises [BadZipFile]. *)
Definition clean_zip (a : option (list (string * member D)))
    (mode : string) : result D :=
  match a with
  | None => Ending (Returns false []) a Untouched
  | Some entries =>
      let members := entries.*1 in
      let target_members :=
        filter (λ m, Sanitizer.is_target mode m) members in
      if bool_decide (target_members = [])
      then Ending (Returns false []) a Untouched
      else if bool_decide (list_to_set target_members
                           ≠@{gset string} list_to_set members)
      then match copy_members entries target_members with
           | (out, None) =>
               Ending (Returns true out.*1) (Some (written <$> out)) Renamed
           | (out, Some BadZipFile) =>
               Ending (Returns false out.*1) a (LeftBehind out)
           | (out, Some OtherError) => Ending Escapes a (LeftBehind out)
           end
      else Ending (Returns false (PyPath.name <$> target_members)) a
             Untouched
  end.

End CleanZip.

End Rewrite.

(** ** Product directories *)

(** The regular files at the top of [<root>/<code>/], in the order in which
    the code enumerates them, and the content of [Images/] when that
    sub-directory exists.  A directory holds one file per name. *)
Record product_dir : Type := ProductDir {
  files : list (string * file);
  images : option (list (string * file));
}.

Module Dir.

Fixpoint lookup (n : string) (l : list (string * file)) : option file :=
  match l with
  | [] => None
  | (m, f) :: rest => if String.eqb m n then Some f else lookup n rest
  end.

(** Creating or overwriting the file called [n]. *)
Fixpoint write (n : string) (f : file) (l : list (string * file))
    : list (string * file) :=
  match l with
  | [] => [(n, f)]
  | (m, g) :: rest =>
      if String.eqb m n then (n, f) :: rest else (m, g) :: write n f rest
  end.

(** [Path.unlink(missing_ok=True)] *)
Definition unlink (n : string) (l : list (string * file))
    : list (string * file) :=
  filter (λ e, e.1 ≠ n) l.

Definition put_file (n : string) (f : file) (d : product_dir) : product_dir :=
  ProductDir (write n f (files d)) (images d).

End Dir.

Record ProductContext : Type := {
  code : string;
  series_name : string;
  series_url : string;
  product_url : string;
}.

(** Exceptions that leave a function of the model. *)
Inductive exn : Type :=
  | OSError        (* a copy whose source cannot be opened *)
  | ReadError      (* [shutil.unpack_archive] on something that is no archive *)
  | DriverError.   (* anything the browser layer raises, timeouts included *)

Inductive outcome (A : Type) : Type :=
  | Returned (a : A)
  | Raised (e : exn).
Global Arguments Returned {A} a.
Global Arguments Raised {A} e.

(** ** [ccs_crawler]: classification and promotion *)

Module Crawler.
Import PyStr.

Definition DOWNLOAD_KEYWORDS : list (string * string * string) :=
  [ ("manual", "_Manual", ".pdf");
    ("catalog", "_Catalog", ".pdf");
    ("dimension", "_Dimension", ".pdf");
    ("dimension drawing", "_Dimension", ".pdf");
    ("dxf", "_DXF", ".zip");
    ("step", "_STEP", ".zip");
    ("datasheet", "_Datasheet", ".pdf");
    ("data sheet", "_Datasheet", ".pdf") ].

Definition _looks_like_dimension (name_lower : string)
    (context : ProductContext) : bool :=
  let stem := List.hd "" (split "." name_lower) in
  if contains stem "dimension" || contains stem "drawing" then true
  else if endswith stem "_e" && startswith stem (lower (code context))
  then true
  else false.

(** [next((entry for entry in DOWNLOAD_KEYWORDS if entry[0] in name_lower),
    None)] *)
Definition keyword_entry (name_lower : string)
    : option (string * string * string) :=
  List.find (λ entry, contains name_lower entry.1.1) DOWNLOAD_KEYWORDS.

(** The value of [suffix_entry] when [distribute_file] reaches
    [if not suffix_entry: return]. *)
Definition suffix_entry (file_path : string) (context : ProductContext)
    : option (string * string * string) :=
  let name_lower := lower (PyPath.name file_path) in
  match keyword_entry name_lower with
  | Some entry => Some entry
  | None =>
      if startswith name_lower "c_" then Some ("catalog", "_Catalog", ".pdf")
      else if startswith name_lower "d_"
      then Some ("dimension", "_Dimension", ".pdf")
      else if startswith name_lower "m_"
              && negb (contains name_lower "datasheet")
      then Some ("manual", "_Manual", ".pdf")
      else if contains name_lower "datasheet"
              || contains name_lower "data-sheet"
      then Some ("datasheet", "_Datasheet", ".pdf")
      else if _looks_like_dimension name_lower context
      then Some ("dimension", "_Dimension", ".pdf")
      else if contains name_lower (lower (code context))
              && String.eqb (lower (PyPath.suffix file_path)) ".pdf"
      then Some ("datasheet", "_Datasheet", ".pdf")
      else if bool_decide (lower (PyPath.suffix file_path)
                           ∈ [".stp"; ".step"])
      then Some ("step", "_STEP", ".zip")
      else None
  end.

(** The local file header signature every non-empty zip starts with. *)
Definition ZIP_MAGIC : string :=
  String "P" (String "K" (String (ascii_of_nat 3)
                            (String (ascii_of_nat 4) EmptyString))).

(** [shutil.copy(src, dst)] into the product directory: the source has to
    open. *)
Definition copy (f : file) (target : string) (d : product_dir)
    : outcome unit * product_dir :=
  match head f with
  | None => (Raised OSError, d)
  | Some _ => (Returned (), Dir.put_file target f d)
  end.

Section Promotion.
(** The byte size of the archive [shutil.make_archive] writes for given
    members; the deflate encoder is not modelled. *)
Variable zip_size : list (string * file) → Z.

(** The archive [make_archive] builds from a directory that holds the
    single file [member]. *)
Definition make_archive (member : string) (f : file) : file :=
  File (zip_size [(member, f)]) (Some ZIP_MAGIC) (Some [(member, f)]).

Definition distribute_file (file_path : string) (f : file)
    (context : ProductContext) (d : product_dir)
    : outcome unit * product_dir :=
  match suffix_entry file_path context with
  | None => (Returned (), d)
  | Some (_, suffix, target_ext) =>
      if String.eqb target_ext ".pdf" && negb (is_pdf f)
      then (Returned (), d)
      else if String.eqb target_ext ".zip" then
        if bool_decide (lower (PyPath.suffix file_path)
                        ∈ [".zip"; ".gz"; ".rar"])
        then copy f (code context +:+ suffix +:+ ".zip") d
        else
          match head f with
          | None => (Raised OSError, d)
          | Some _ =>
              (Returned (),
               Dir.put_file (code context +:+ suffix +:+ ".zip")
                 (make_archive (PyPath.name file_path) f) d)
          end
      else copy f (code context +:+ suffix +:+ target_ext) d
  end.

(** Promoting a list of raw files in order; the first exception ends
    the loop. *)
Fixpoint distribute_all (raw : list (string * file))
    (context : ProductContext) (d : product_dir)
    : outcome unit * product_dir :=
  match raw with
  | [] => (Returned (), d)
  | (file_path, f) :: rest =>
      match distribute_file file_path f context d with
      | (Returned _, d') => distribute_all rest context d'
      | (Raised e, d') => (Raised e, d')
      end
  end.

(** The regular files of the temporary tree after
    [shutil.unpack_archive]: members whose name starts with [/] or
    contains [..] are skipped, directory entries (names ending in [/])
    create no file and a later member of the same name overwrites an
    earlier one. *)
Definition unpack_archive (members : list (string * file))
    : list (string * file) :=
  foldl (λ tree e, Dir.write e.1 e.2 tree) []
    (filter (λ e, negb (startswith e.1 "/") && negb (contains e.1 "..")
                  && negb (endswith e.1 "/")) members).

(** [unpack_archive] picks the format by the file name and raises
    [ReadError] for a name that does not end in [.zip] and for bytes that
    are no zip archive. *)
Definition process_zip (zip_path : string) (f : file)
    (context : ProductContext) (d : product_dir)
    : outcome unit * product_dir :=
  if negb (endswith zip_path ".zip") then (Raised ReadError, d)
  else
    match zip_members f with
    | None => (Raised ReadError, d)
    | Some members => distribute_all (unpack_archive members) context d
    end.

Fixpoint transform_downloads (context : ProductContext)
    (downloads : list (string * file)) (d : product_dir)
    : outcome unit * product_dir :=
  match downloads with
  | [] => (Returned (), d)
  | (download, f) :: rest =>
      let step :=
        if String.eqb (lower (PyPath.suffix download)) ".zip"
        then process_zip download f context d
        else distribute_file download f context d in
      match step with
      | (Returned _, d') => transform_downloads context rest d'
      | (Raised e, d') => (Raised e, d')
      end
  end.

End Promotion.

(** *** The completeness check *)

Definition required : list string :=
  ["_Catalog.pdf"; "_Dimension.pdf"; "_DXF.zip"; "_STEP.zip"; "_Manual.pdf"].

(** [matching_files]: the directory's files whose name ends with the
    suffix, each with the file its name denotes. *)
Definition matching_files (suffix : string) (d : product_dir)
    : list (string * file) :=
  filter (λ e, endswith e.1 suffix) (files d).

(** One round of the loop over [required]: [true] stands for falling
    through to the next suffix, [false] for [return False]. *)
Definition suffix_ok (product_code suffix : string) (d : product_dir) : bool :=
  match matching_files suffix d with
  | [] => String.eqb suffix "_Manual.pdf" || String.eqb suffix "_STEP.zip"
  | (name, f) :: _ =>
      if st_size f <? 1000 then false
      else if endswith suffix ".pdf" && negb (is_pdf f) then false
      else if negb (contains name product_code) then false
      else true
  end.

(** The image test that ends [_required_files_present]. *)
Definition image_present (d : product_dir) : bool :=
  match images d with
  | None => false
  | Some imgs => existsb (λ e, 1000 <? st_size e.2) imgs
  end.

Definition _required_files_present (product_code : string)
    (d : product_dir) : bool :=
  forallb (λ suffix, suffix_ok product_code suffix d) required
  && image_present d.

(** *** The acquisition loop *)

(** Calls into the browser layer, in the order they are made. *)
Inductive event : Type :=
  | Get (url : string)
  | ClearDownloadCart
  | FindProductRow (product_code : string)
  | DownloadProductImage
  | DownloadProductManual
  | ClearDownloadDir
  | CollectRequiredDocuments.

(** What the site answers during one attempt: whether the product row is
    found before and after the image and manual requests, the image file
    with its extension and the manual, each [None] when nothing is
    written, and the downloads [collect_required_documents] returns or
    the exception it raises. *)
Record attempt : Type := {
  row_found : bool;
  image : option (string * file);
  manual : option file;
  row_found_again : bool;
  documents : outcome (list (string * file));
}.

(** The product directories under the output root, by name, and the
    calls made.  [output_root w !! c] is the directory [output_root / c]
    for a code [c] that names a directory directly under the root; the
    empty code and [.], for which that path is the root itself, [..] and
    codes with a separator are outside this reading. *)
Record world : Type := World {
  output_root : gmap string product_dir;
  driver_log : list event;
}.

Definition log (es : list event) (w : world) : world :=
  World (output_root w) (driver_log w ++ es).

Definition on_dest (product_code : string)
    (g : product_dir → product_dir) (w : world) : world :=
  World (alter g product_code (output_root w)) (driver_log w).

(** [ensure_dir(dest_dir)] followed by [ensure_dir(dest_dir / "Images")] *)
Definition ensure_dirs (product_code : string) (w : world) : world :=
  let d := default (ProductDir [] None) (output_root w !! product_code) in
  let d' := ProductDir (files d) (Some (default [] (images d))) in
  World (<[product_code := d']> (output_root w)) (driver_log w).

Definition cleanup_dest_dir (product_code : string) (w : world) : world :=
  World (delete product_code (output_root w)) (driver_log w).

(** The write of [download_product_image]; a failure is suppressed. *)
Definition download_product_image (context : ProductContext)
    (a : attempt) (w : world) : world :=
  let w := log [DownloadProductImage] w in
  match image a with
  | None => w
  | Some (image_ext, f) =>
      on_dest (code context)
        (λ d, ProductDir (files d)
                (Dir.write (code context +:+ image_ext) f <$> images d)) w
  end.

Definition download_product_manual (overwrite : bool)
    (context : ProductContext) (a : attempt) (w : world) : world :=
  let manual_path := code context +:+ "_Manual.pdf" in
  let present :=
    match output_root w !! code context with
    | Some d => bool_decide (is_Some (Dir.lookup manual_path (files d)))
    | None => false
    end in
  if present && negb overwrite then w
  else
    let w := log [DownloadProductManual] w in
    match manual a with
    | None => w
    | Some f => on_dest (code context) (Dir.put_file manual_path f) w
    end.

Definition required_files_present_at (product_code : string) (w : world)
    : bool :=
  match output_root w !! product_code with
  | Some d => _required_files_present product_code d
  | None => false
  end.

(** How one round of [for attempt in range(2)] ends. *)
Inductive flow : Type :=
  | Next
  | Break
  | Return (b : bool)
  | Raise (e : exn).

Section Acquisition.
Variable zip_size : list (string * file) → Z.
Variable overwrite : bool.

Definition attempt_body (context : ProductContext) (a : attempt)
    (w : world) : flow * world :=
  let w := log [Get (series_url context); ClearDownloadCart;
                Get (series_url context);
                FindProductRow (code context)] w in
  if negb (row_found a)
  then (Return false, cleanup_dest_dir (code context) w)
  else
    let w := download_product_image context a w in
    let w := download_product_manual overwrite context a w in
    let w := log [Get (series_url context);
                  FindProductRow (code context)] w in
    if negb (row_found_again a)
    then (Return false, cleanup_dest_dir (code context) w)
    else
      let w := log [ClearDownloadDir; CollectRequiredDocuments] w in
      match documents a with
      | Raised e => (Raise e, w)
      | Returned downloads =>
          match output_root w !! code context with
          | None => (Raise OSError, w)   (* [dest_dir] was made before the loop *)
          | Some d =>
              let '(r, d') :=
                transform_downloads zip_size context downloads d in
              let w := on_dest (code context) (λ _, d') w in
              match r with
              | Raised e => (Raise e, w)
              | Returned _ =>
                  if required_files_present_at (code context) w
                  then (Break, w)
                  else (Next, w)
              end
          end
      end.

(** The rounds still to run, the site's answers per round. *)
Fixpoint attempts (context : ProductContext) (site : list attempt)
    (w : world) : flow * world :=
  match site with
  | [] => (Next, w)
  | a :: later =>
      match attempt_body context a w with
      | (Next, w') => attempts context later w'
      | stop => stop
      end
  end.

(** [site] holds the answers for the first and the second attempt. *)
Definition process_product (context : ProductContext)
    (site : attempt * attempt) (w : world) : outcome bool * world :=
  if bool_decide (is_Some (output_root w !! code context))
     && negb overwrite
  then (Returned false, w)
  else
    let w := ensure_dirs (code context) w in
    match attempts context [site.1; site.2] w with
    | (Return b, w') => (Returned b, w')
    | (Raise e, w') => (Raised e, w')
    | (_, w') =>
        let w' :=
          if required_files_present_at (code context) w'
          then on_dest (code context)
                 (Dir.put_file ".complete" (File 2 (Some "ok") None)) w'
          else w' in
        (Returned true, w')
    end.

End Acquisition.

End Crawler.

(** ** [validate_outputs]: deduplication and the image check *)

Module Auditor.
Import PyStr.

Definition IMAGE_EXTS : list string :=
  [".jpg"; ".jpeg"; ".png"; ".gif"; ".webp"].

Definition REQUIRED : list (string * bool) :=
  [ ("_Catalog.pdf", true); ("_Dimension.pdf", true); ("_DXF.zip", true);
    ("_STEP.zip", true); ("_Manual.pdf", false); ("_Datasheet.pdf", false) ].

Definition OPTIONAL : list (string * bool) :=
  [ ("_Manual.pdf", false); ("_STEP.zip", false); ("_Datasheet.pdf", false) ].

(** [buckets.setdefault(suffix, []).append(p)] on an insertion-ordered
    dictionary. *)
Fixpoint bucket_append (suffix p : string)
    (buckets : list (string * list string)) : list (string * list string) :=
  match buckets with
  | [] => [(suffix, [p])]
  | (s, ps) :: rest =>
      if String.eqb s suffix then (s, ps ++ [p]) :: rest
      else (s, ps) :: bucket_append suffix p rest
  end.

(** The suffix a file name is filed under: the first one it ends with. *)
Definition bucket_of (p : string) : option string :=
  List.find (λ suffix, endswith p suffix) (REQUIRED.*1 ++ OPTIONAL.*1).

(** One round of the loop of [collect_by_suffix]. *)
Definition file_away (buckets : list (string * list string)) (p : string)
    : list (string * list string) :=
  match bucket_of p with
  | Some suffix => bucket_append suffix p buckets
  | None => buckets
  end.

(** [files] are the names of the regular files of the product directory. *)
Definition collect_by_suffix (files : list string)
    : list (string * list string) :=
  foldl file_away [] files.

(** [p.stat().st_size if p.exists() else -1] *)
Definition size_key (dir : list (string * file)) (p : string) : Z :=
  match Dir.lookup p dir with
  | Some f => st_size f
  | None => -1
  end.

(** [max(paths, key=...)] scanning from [best]: a later element replaces
    the current one only when its key is strictly larger. *)
Fixpoint max_by (key : string → Z) (best : string) (paths : list string)
    : string :=
  match paths with
  | [] => best
  | p :: rest => max_by key (if key best <? key p then p else best) rest
  end.

(** Result [(removed, dir')]. *)
Fixpoint remove_duplicates (buckets : list (string * list string))
    (dir : list (string * file))
    : list (string * list string) * list (string * file) :=
  match buckets with
  | [] => ([], dir)
  | (suffix, paths) :: rest =>
      match paths with
      | first :: (_ :: _) as others =>
          let keep := max_by (size_key dir) first others in
          let to_remove := filter (λ p, p ≠ keep) paths in
          let dir1 := foldl (λ dir p, Dir.unlink p dir) dir to_remove in
          let '(removed, dir2) := remove_duplicates rest dir1 in
          ((suffix, to_remove) :: removed, dir2)
      | _ => remove_duplicates rest dir
      end
  end.

(** The deduplication pass of [validate_product_dir]. *)
Definition dedup_pass (d : product_dir)
    : list (string * list string) * product_dir :=
  let buckets := collect_by_suffix (files d).*1 in
  let '(removed, dir') := remove_duplicates buckets (files d) in
  (removed, ProductDir dir' (images d)).

(** [images_ok] at the end of [validate_product_dir]. *)
Definition images_ok (d : product_dir) : bool :=
  match images d with
  | None => false
  | Some imgs =>
      existsb (λ e, bool_decide (lower (PyPath.suffix e.1) ∈ IMAGE_EXTS)
                    && (0 <? st_size e.2)) imgs
  end.

End Auditor.


(** ** The classification rules in the words of the specification *)

Module Spec.
Import PyStr.

Inductive category : Type :=
  Catalog | Dimension | Datasheet | Manual | DXF | STEP.

(** The suffix token and the container format of a category. *)
Definition slot (c : category) : string * string :=
  match c with
  | Catalog => ("_Catalog", ".pdf")
  | Dimension => ("_Dimension", ".pdf")
  | Datasheet => ("_Datasheet", ".pdf")
  | Manual => ("_Manual", ".pdf")
  | DXF => ("_DXF", ".zip")
  | STEP => ("_STEP", ".zip")
  end.

(** What a rule looks at: the lower-cased file name, the lower-cased
    extension and the lower-cased product code. *)
Record subject : Type := {
  name_lower : string;
  ext_lower : string;
  code_lower : string;
}.

Definition keyword_table : list (string * category) :=
  [ ("manual", Manual); ("catalog", Catalog); ("dimension", Dimension);
    ("dimension drawing", Dimension); ("dxf", DXF); ("step", STEP);
    ("datasheet", Datasheet); ("data sheet", Datasheet) ].

(** The stem of rule (4) in the words of the specification, "the
    filename stem (before extension)": the name without its suffix. *)
Definition stem_before_extension (n : string) : string := PyPath.stem n.

(** The stem [_looks_like_dimension] takes: the text before the first
    dot of the name. *)
Definition stem (n : string) : string := List.hd "" (split "." n).

(** Rules (1) to (6) in priority order, for a given reading of "stem";
    (7) is the absence of a match. *)
Definition rules_with (stem : string → string)
    : list ((subject → bool) * category) :=
  ((λ kc : string * category,
      ((λ x, contains (name_lower x) kc.1), kc.2)) <$> keyword_table)
  ++ [ ((λ x, startswith (name_lower x) "c_"), Catalog);
       ((λ x, startswith (name_lower x) "d_"), Dimension);
       ((λ x, startswith (name_lower x) "m_"
              && negb (contains (name_lower x) "datasheet")), Manual);
       ((λ x, contains (name_lower x) "datasheet"
              || contains (name_lower x) "data-sheet"), Datasheet);
       ((λ x, contains (stem (name_lower x)) "dimension"
              || contains (stem (name_lower x)) "drawing"
              || (endswith (stem (name_lower x)) "_e"
                  && startswith (stem (name_lower x)) (code_lower x))),
        Dimension);
       ((λ x, contains (name_lower x) (code_lower x)
              && String.eqb (ext_lower x) ".pdf"), Datasheet);
       ((λ x, String.eqb (ext_lower x) ".stp"
              || String.eqb (ext_lower x) ".step"), STEP) ].

(** First match wins. *)
Definition classify_with (stem : string → string)
    (file_path product_code : string) : option category :=
  let x := {| name_lower := lower (PyPath.name file_path);
              ext_lower := lower (PyPath.suffix file_path);
              code_lower := lower product_code |} in
  snd <$> List.find (λ rule, rule.1 x) (rules_with stem).

(** The classification as the specification words it. *)
Definition classify_as_specified : string → string → option category :=
  classify_with stem_before_extension.

(** The classification with rule (4) over the text before the first
    dot. *)
Definition classify : string → string → option category :=
  classify_with stem.

(** The four canonical PDF file names of a product. *)
Definition pdf_slots (product_code : string) : list string :=
  [ product_code +:+ "_Catalog.pdf"; product_code +:+ "_Dimension.pdf";
    product_code +:+ "_Manual.pdf"; product_code +:+ "_Datasheet.pdf" ].

End Spec.

(** ** The completeness rule in the words of the specification *)

(** The three categories whose absence fails the check. *)
Definition mandatory : list string :=
  ["_Catalog.pdf"; "_Dimension.pdf"; "_DXF.zip"].

(** The format check in the words of the specification: the PDF signature
    for a PDF category, a non-empty archive for a zip category. *)
Definition format_check_as_specified (suffix : string) (f : file) : bool :=
  if PyStr.endswith suffix ".pdf" then is_pdf f
  else match zip_members f with
       | Some (_ :: _) => true
       | _ => false
       end.

(** The format check the code makes: nothing is asked of a zip. *)
Definition format_check (suffix : string) (f : file) : bool :=
  if PyStr.endswith suffix ".pdf" then is_pdf f else true.

(** ** Concrete products used by the examples *)

Definition xyz : ProductContext :=
  {| code := "XYZ";
     series_name := "Bar lights";
     series_url := "https://www.ccs-grp.com/products/series/1";
     product_url := "https://www.ccs-grp.com/products/model/1" |}.

(** A stand-in for the size of a freshly built archive: a fixed overhead
    per member on top of the stored bytes. *)
Definition stored_size (members : list (string * file)) : Z :=
  22 + foldr (λ e acc, 76 + st_size e.2 + acc) 0 members.

Definition step_file : file := File 4096 (Some "ISO-") None.

Definition empty_dir : product_dir := ProductDir [] (Some []).

(** Scenario C of the specification: two catalogs of 500 and 3000 bytes
    next to a single dimension drawing. *)
Definition scenario_c : product_dir :=
  {| files :=
       [ ("X_Catalog.pdf", File 500 (Some "%PDF") None);
         ("X_Dimension.pdf", File 1536 (Some "%PDF") None);
         ("old_X_Catalog.pdf", File 3000 (Some "%PDF") None) ];
     images := Some [] |}.

(** An attempt in which the site offers the image and a batch archive that
    holds nothing but the catalog. *)
Definition catalog_only : Crawler.attempt :=
  {| Crawler.row_found := true;
     Crawler.image := Some (".png", File 5120 (Some "?PNG") None);
     Crawler.manual := None;
     Crawler.row_found_again := true;
     Crawler.documents :=
       Returned
         [ ("download.zip",
            File 9000 (Some Crawler.ZIP_MAGIC)
              (Some [("XYZ_catalog.pdf", File 2048 (Some "%PDF") None)])) ] |}.

Definition fresh_world : Crawler.world := Crawler.World ∅ [].

(** Scenario A of the specification, with a nested member added: a DXF
    archive holding [foo.dxf], [docs/readme.txt] and [cad/Bar.DXF]. *)
Definition scenario_archive : Sanitizer.archive string :=
  Some [("foo.dxf", "dxf-1"); ("docs/readme.txt", "text"); ("cad/Bar.DXF", "dxf-2")].


(** A product directory whose DXF file is an HTML error page of 1200 bytes
    saved under the canonical name. *)
Definition html_as_dxf_dir : product_dir :=
  {| files :=
       [ ("XYZ_Catalog.pdf", File 2048 (Some "%PDF") None);
         ("XYZ_Dimension.pdf", File 1536 (Some "%PDF") None);
         ("XYZ_DXF.zip", File 1200 (Some "<htm") None) ];
     images := Some [("XYZ.png", File 5120 (Some "?PNG") None)] |}.

(** A small picture and a large file that is no picture. *)
Definition small_png_dir : product_dir :=
  {| files := []; images := Some [("XYZ.png", File 500 (Some "?PNG") None)] |}.

Definition large_bmp_dir : product_dir :=
  {| files := []; images := Some [("XYZ.bmp", File 5000 (Some "BM..") None)] |}.

(** ** The layout of a product directory *)

(** The six file names [distribute_file] can write for a product. *)
Definition canonical_names (product_code : string) : list string :=
  [ product_code +:+ "_Catalog.pdf"; product_code +:+ "_Dimension.pdf";
    product_code +:+ "_Datasheet.pdf"; product_code +:+ "_Manual.pdf";
    product_code +:+ "_DXF.zip"; product_code +:+ "_STEP.zip" ].

(** The content of [<root>/<code>/.complete], when there is one. *)
Definition marker_at (product_code : string) (w : Crawler.world)
    : option file :=
  Crawler.output_root w !! product_code
    ≫= λ d, Dir.lookup ".complete" (files d).

(** The last character of a string. *)
Fixpoint last_char (s : string) : option ascii :=
  match s with
  | EmptyString => None
  | String c EmptyString => Some c
  | String _ s' => last_char s'
  end.

(** The three things [distribute_file] keeps: [Images/], every file whose
    name is not canonical, and the one-file-per-name shape of the
    directory. *)
Definition kept_by (product_code : string) (d d' : product_dir) : Prop :=
  images d' = images d
  ∧ (∀ n, n ∉ canonical_names product_code →
          Dir.lookup n (files d') = Dir.lookup n (files d))
  ∧ (NoDup (files d).*1 → NoDup (files d').*1).

(** ** [validate_outputs.validate_product_dir] *)

Module Audit.
Import PyStr.

(** The entries of [result["issues"]].  Each constructor stands for one
    message: ["Missing required {suffix}"], ["Invalid PDF: {name}"],
    ["{kind} zip missing ...: {name}"], ["Corrupt {kind} zip: {name}"] and
    ["Missing or invalid product image in Images/"]. *)
Inductive issue : Type :=
  | MissingRequired (suffix : string)
  | InvalidPDF (name : string)
  | ZipMissingCad (kind name : string)
  | CorruptZip (kind name : string)
  | MissingImage.

(** The entries of [result["fixed"]]: ["Removed duplicates: ..."] with the
    suffixes joined, ["Deleted invalid PDF: {name}"] and
    ["Cleaned {kind} zip: kept {kept}"]. *)
Inductive repair : Type :=
  | RemovedDuplicates (suffixes : list string)
  | DeletedInvalidPDF (name : string)
  | CleanedZip (kind : string) (kept : list string).

(** The [result] dictionary together with the top-level files of the
    product directory as the pass goes along. *)
Record state : Type := State {
  dir : list (string * file);
  status : string;
  issues : list issue;
  fixed : list repair;
}.

Definition warn (i : issue) (s : state) : state :=
  State (dir s) "warn" (issues s ++ [i]) (fixed s).

Definition PDF_SUFFIXES : list string :=
  ["_Catalog.pdf"; "_Dimension.pdf"; "_Manual.pdf"; "_Datasheet.pdf"].

(** [prod_dir.glob(f"*{suffix}")] with the file each path denotes. *)
Definition glob (suffix : string) (l : list (string * file))
    : list (string * file) :=
  filter (λ e, endswith e.1 suffix) l.

(** [# Remove duplicates] *)
Definition dedup_step (s : state) : state :=
  let buckets := Auditor.collect_by_suffix (dir s).*1 in
  let '(dup_removed, dir') := Auditor.remove_duplicates buckets (dir s) in
  State dir' (status s) (issues s)
    (match dup_removed with
     | [] => fixed s
     | _ => fixed s ++ [RemovedDuplicates dup_removed.*1]
     end).

(** [# Required checks], one round *)
Definition required_step (s : state) (entry : string * bool) : state :=
  let present := existsb (λ e, endswith e.1 entry.1) (glob entry.1 (dir s)) in
  if entry.2 && negb present then warn (MissingRequired entry.1) s else s.

(** [# PDF validity], the body of the inner loop *)
Definition pdf_step (s : state) (pdf : string * file) : state :=
  if (st_size pdf.2 =? 0) || negb (is_pdf pdf.2)
  then State (Dir.unlink pdf.1 (dir s)) "warn"
         (issues s ++ [InvalidPDF pdf.1])
         (fixed s ++ [DeletedInvalidPDF pdf.1])
  else s.

Definition pdf_suffix_step (s : state) (pdf_suffix : string) : state :=
  foldl pdf_step s (glob pdf_suffix (dir s)).

Section Zips.
(** The byte size of the archive [clean_zip] writes for given entries. *)
Variable zip_size : list (string * file) → Z.

(** [# DXF zip cleanup] and [# STEP zip cleanup], the body of the loop:
    [kind] is the word of the messages, [mode] the argument of
    [clean_zip].  The members of an archive of the directory are files,
    so [zf.read] returns for each and [clean_zip] is
    [Sanitizer.clean_zip].  A rewrite goes through the temporary archive
    [z.with_suffix(".tmp.zip")], which is created in the directory and
    renamed to [z]: a file of that name that was there is gone.  The test
    made on the reopened archive, [Path(n).suffix.lower()] against the
    extensions of the kind, is [is_target]. *)
Definition zip_step (kind mode : string) (s : state) (z : string * file)
    : state :=
  let '((changed, kept), a) := Sanitizer.clean_zip (zip_members z.2) mode in
  let s :=
    if changed
    then State (Dir.unlink (PyPath.with_suffix z.1 ".tmp.zip")
                  (Dir.write z.1
                     (File (zip_size (default [] a)) (Some Crawler.ZIP_MAGIC)
                        a)
                     (dir s)))
           (status s) (issues s) (fixed s ++ [CleanedZip kind kept])
    else s in
  match a with
  | None => warn (CorruptZip kind z.1) s
  | Some entries =>
      if existsb (λ n, Sanitizer.is_target mode n) entries.*1 then s
      else warn (ZipMissingCad kind z.1) s
  end.

Definition zips_step (kind mode suffix : string) (s : state) : state :=
  foldl (zip_step kind mode) s (glob suffix (dir s)).

(** [# Images folder] *)
Definition images_step (d : product_dir) (s : state) : state :=
  if Auditor.images_ok d then s else warn MissingImage s.

(** The final [result] with the files the pass leaves. *)
Definition validate_product_dir (d : product_dir) : state :=
  let s := State (files d) "ok" [] [] in
  let s := dedup_step s in
  let s := foldl required_step s Auditor.REQUIRED in
  let s := foldl pdf_suffix_step s PDF_SUFFIXES in
  let s := zips_step "DXF" "dxf" "_DXF.zip" s in
  let s := zips_step "STEP" "step" "_STEP.zip" s in
  images_step d s.

End Zips.

(** The six suffixes of the table. *)
Definition SUFFIXES : list string :=
  ["_Catalog.pdf"; "_Dimension.pdf"; "_DXF.zip"; "_STEP.zip";
   "_Manual.pdf"; "_Datasheet.pdf"].

End Audit.

(** Relations between the state before and after a step of the pass. *)

(** Files whose name ends with none of the six suffixes, nor with
    [.tmp.zip], keep their content. *)
Definition only_suffixed (l l' : list (string * file)) : Prop :=
  ∀ n, Forall (λ suffix, PyStr.endswith n suffix = false) Audit.SUFFIXES →
       PyStr.endswith n ".tmp.zip" = false →
       Dir.lookup n l' = Dir.lookup n l.

(** Every entry is an old one or a rewritten archive. *)
Definition old_or_zip (l l' : list (string * file)) : Prop :=
  ∀ e, e ∈ l' → e ∈ l ∨ last_char e.1 = Some "p"%char.

(** [status] is ["ok"] with no issue or ["warn"] with some. *)
Definition coherent (s : Audit.state) : Prop :=
  (Audit.status s = "ok" ∧ Audit.issues s = [])
  ∨ (Audit.status s = "warn" ∧ Audit.issues s ≠ []).

Definition evolves (s s' : Audit.state) : Prop :=
  only_suffixed (Audit.dir s) (Audit.dir s')
  ∧ old_or_zip (Audit.dir s) (Audit.dir s')
  ∧ (∃ extra, Audit.issues s' = Audit.issues s ++ extra)
  ∧ (coherent s → coherent s').

(** A PDF the pass accepts. *)
Definition sound_pdf (f : file) : Prop := is_pdf f = true ∧ st_size f ≠ 0.

(** The issues a step adds all satisfy [P]. *)
Definition adds_only (P : Audit.issue → Prop) (s s' : Audit.state) : Prop :=
  ∃ extra, Audit.issues s' = Audit.issues s ++ extra ∧ Forall P extra.

Definition not_missing (i : Audit.issue) : Prop :=
  ∀ suffix, i ≠ Audit.MissingRequired suffix.

(** The suffixes whose absence the audit reports. *)
Definition audit_required : list string :=
  ["_Catalog.pdf"; "_Dimension.pdf"; "_DXF.zip"; "_STEP.zip"].

(** ** [ccs_crawler.sanitize_filename] and the whitespace of [str] *)

Module Names.

(** [str.isspace] and [\s] on ASCII: tab to carriage return, the four
    separators [\x1c]..[\x1f] and the space. *)
Definition is_space (c : ascii) : bool :=
  let n := nat_of_ascii c in
  (Nat.leb 9 n && Nat.leb n 13) || (Nat.leb 28 n && Nat.leb n 32).

Fixpoint lstrip (s : string) : string :=
  match s with
  | EmptyString => EmptyString
  | String c s' => if is_space c then lstrip s' else s
  end.

Fixpoint rstrip (s : string) : string :=
  match s with
  | EmptyString => EmptyString
  | String c s' =>
      match rstrip s' with
      | EmptyString => if is_space c then EmptyString else String c EmptyString
      | r => String c r
      end
  end.

(** [s.strip()] *)
Definition strip (s : string) : string := rstrip (lstrip s).

(** [s.replace(old, new)] for one-character [old] and [new]. *)
Fixpoint replace (old new : ascii) (s : string) : string :=
  match s with
  | EmptyString => EmptyString
  | String c s' =>
      String (if Ascii.eqb c old then new else c) (replace old new s')
  end.

(** [re.sub(r"\s+", " ", s)]; [in_run] tells that the run of whitespace
    being read has already been replaced. *)
Fixpoint collapse (in_run : bool) (s : string) : string :=
  match s with
  | EmptyString => EmptyString
  | String c s' =>
      if is_space c
      then if in_run then collapse true s'
           else String " " (collapse true s')
      else String c (collapse false s')
  end.

Definition sanitize_filename (name : string) : string :=
  strip (collapse false
           (replace ":" "-" (replace "\" "-" (replace "/" "-" name)))).

(** Every character of [s] satisfies [P]. *)
Fixpoint all_chars (P : ascii → bool) (s : string) : bool :=
  match s with
  | EmptyString => true
  | String c s' => P c && all_chars P s'
  end.

(** The characters [sanitize_filename] replaces. *)
Definition is_separator (c : ascii) : bool :=
  Ascii.eqb c "/" || Ascii.eqb c "\" || Ascii.eqb c ":".

(** Whitespace occurs in [s] only as single spaces; [after_space] tells
    that the character before [s] is a space. *)
Fixpoint single_spaced (after_space : bool) (s : string) : bool :=
  match s with
  | EmptyString => true
  | String c s' =>
      if is_space c
      then Ascii.eqb c " " && negb after_space && single_spaced true s'
      else single_spaced false s'
  end.

End Names.

(** A product code that names a directory directly under the output
    root.  [output_root / code] is the root itself for the empty code and
    for [.], the parent of the root for [..], and a directory further down
    for a code with a separator. *)
Definition child_name (c : string) : Prop :=
  (c ∉ [""; "."; ".."])
  ∧ Names.all_chars (λ x, negb (Names.is_separator x)) c = true.

(** ** [sorted] *)

Section Sorted.
Context {A : Type} (le : A → A → bool).

(** [x] goes before the first element it is not greater than, so that
    equal elements keep the order they come in. *)
Fixpoint insert_sorted (x : A) (l : list A) : list A :=
  match l with
  | [] => [x]
  | y :: l' => if le x y then x :: y :: l' else y :: insert_sorted x l'
  end.

(** [sorted(l, key=...)], a stable sort. *)
Definition sorted (l : list A) : list A := foldr insert_sorted [] l.

End Sorted.

(** ** [CCSCrawler.find_product_row] and [wait_for_download] *)

Module Driver.
Import PyStr.

(** A table row is what its label element shows, [None] when the row has
    no such element.  The result is the position of the row returned. *)
Fixpoint find_product_row (rows : list (option string))
    (product_code : string) : option nat :=
  match rows with
  | [] => None
  | row :: rest =>
      match row with
      | Some text =>
          if contains (Names.strip text) product_code then Some 0%nat
          else S <$> find_product_row rest product_code
      | None => S <$> find_product_row rest product_code
      end
  end.

(** An entry of the scratch directory. *)
Record entry : Type := {
  entry_name : string;
  is_file : bool;
  st_mtime : Z;
}.

(** One round of the polling loop: whether [time.time() - start < timeout]
    held, what [glob("*.crdownload")] listed and what [glob("*")] listed
    after it. *)
Record poll : Type := {
  in_time : bool;
  at_first_glob : list entry;
  at_second_glob : list entry;
}.

Inductive waited : Type :=
  | Downloaded (path : string)
  | DownloadTimeout
  | Polling.      (* the rounds given are used up; the loop goes on *)

Definition cr_downloads (p : poll) : list entry :=
  filter (λ e, endswith (entry_name e) ".crdownload") (at_first_glob p).

Definition new_files (existing : list string) (p : poll) : list entry :=
  filter (λ e, is_file e && bool_decide (entry_name e ∉ existing))
    (at_second_glob p).

Fixpoint wait_for_download (existing : list string) (polls : list poll)
    : waited :=
  match polls with
  | [] => Polling
  | p :: later =>
      if negb (in_time p) then DownloadTimeout
      else if negb (bool_decide (cr_downloads p = []))
      then wait_for_download existing later
      else
        match sorted (λ a b, st_mtime a <=? st_mtime b)
                (new_files existing p) with
        | [] => wait_for_download existing later
        | f :: files => Downloaded (entry_name (List.last files f))
        end
  end.

(** A round that neither returns nor times out. *)
Definition idle (existing : list string) (p : poll) : Prop :=
  in_time p = true ∧ (cr_downloads p ≠ [] ∨ new_files existing p = []).

End Driver.

(** ** [CCSCrawler.crawl] *)

Module Run.

(** A series page as [collect_products_from_series] reads it: the text of
    the heading and, for every row of the product table, the text and the
    [href] of its link, [None] for a row without link. *)
Record series_page : Type := {
  heading : string;
  rows : list (option (string * option string));
}.

Definition collect_products_from_series (series_url : string)
    (page : series_page) : list ProductContext :=
  omap (λ row : option (string * option string),
          row ≫= λ link,
            Some {| code := Names.sanitize_filename (Names.strip link.1);
                    series_name := Names.strip (heading page);
                    series_url := series_url;
                    product_url :=
                      match link.2 with
                      | Some href =>
                          if String.eqb href "" then series_url else href
                      | None => series_url
                      end |})
       (rows page).

(** [collect_series_urls]: the overrides when there are some, otherwise
    the non-empty [href]s of the index page. *)
Definition collect_series_urls (overrides : list string)
    (index : outcome (list (option string))) : outcome (list string) :=
  match overrides with
  | _ :: _ => Returned overrides
  | [] =>
      match index with
      | Returned anchors =>
          Returned (omap (λ href : option string,
                            href ≫= λ h,
                              if String.eqb h "" then None else Some h)
                         anchors)
      | Raised e => Raised e
      end
  end.

(** What [crawl] has done so far.  [calls] and [history] are not
    variables of the code: they count and list the calls of
    [process_product] made, each with the product it was made for and
    the way it ended, oldest first. *)
Record progress : Type := Progress {
  world : Crawler.world;
  processed_products : list ProductContext;
  processed_count : Z;
  calls : nat;
  history : list (ProductContext * outcome bool);
}.

(** The call returned [True]. *)
Definition succeeded (o : outcome bool) : bool :=
  match o with
  | Returned true => true
  | _ => false
  end.

(** The call returned. *)
Definition returned (o : outcome bool) : bool :=
  match o with
  | Returned _ => true
  | Raised _ => false
  end.

(** [series_overrides] of [crawl], or the exception
    [read_series_from_file] raises: [series_url] is [args.series_url]
    and [series_file] what [read_series_from_file] gives for
    [args.series_file], [None] when that argument is empty. *)
Definition series_overrides (series_url : list string)
    (series_file : option (outcome (list string)))
    : outcome (list string) :=
  match series_file with
  | Some (Raised e) => Raised e
  | Some (Returned urls) => Returned (series_url ++ urls)
  | None => Returned series_url
  end.

(** [series_urls] of [crawl], or the exception that keeps [crawl] from
    having them; [index] is the list of anchors of the series index. *)
Definition listing (series_url : list string)
    (series_file : option (outcome (list string)))
    (index : outcome (list (option string))) : outcome (list string) :=
  match series_overrides series_url series_file with
  | Raised e => Raised e
  | Returned overrides => collect_series_urls overrides index
  end.

Section Crawl.
Variable zip_size : list (string * file) → Z.
(** [args.overwrite], [args.max_products] and the product filters. *)
Variable overwrite : bool.
Variable max_products : Z.
Variable filters : list string.
(** The site: the page a series URL shows, or the exception loading it
    raises, and the answers to the n-th call of [process_product]. *)
Variable site_series : string → outcome series_page.
Variable site_product : nat → ProductContext → Crawler.attempt * Crawler.attempt.

(** The body of [try: ... except Exception: continue] once
    [process_product] has ended with [r]: a product is recorded when the
    call returned and counted when it returned [True]. *)
Definition record_result (product : ProductContext) (p : progress)
    (r : outcome bool * Crawler.world) : progress :=
  match r.1 with
  | Returned b =>
      Progress r.2 (processed_products p ++ [product])
        (if b then processed_count p + 1 else processed_count p)
        (S (calls p)) (history p ++ [(product, r.1)])
  | Raised _ =>
      Progress r.2 (processed_products p) (processed_count p) (S (calls p))
        (history p ++ [(product, r.1)])
  end.

(** The loop over the products of one series; [true] when [return] was
    reached. *)
Fixpoint products_loop (products : list ProductContext) (p : progress)
    : bool * progress :=
  match products with
  | [] => (false, p)
  | product :: rest =>
      if negb (max_products =? 0) && (max_products <=? processed_count p)
      then (true, p)
      else
        products_loop rest
          (record_result product p
             (Crawler.process_product zip_size overwrite product
                (site_product (calls p) product) (world p)))
  end.

Definition selected (product : ProductContext) : bool :=
  bool_decide (code product ∈ filters)
  || bool_decide (product_url product ∈ filters).

(** [if filters: products = [p for p in products if ...]] *)
Definition select (products : list ProductContext) : list ProductContext :=
  match filters with
  | [] => products
  | _ => List.filter selected products
  end.

(** The products [crawl] goes through for a series URL: none when the
    page does not load. *)
Definition series_products (series_url : string) : list ProductContext :=
  match site_series series_url with
  | Returned page => select (collect_products_from_series series_url page)
  | Raised _ => []
  end.

(** [driver.get(series_url)] at the head of
    [collect_products_from_series]. *)
Definition opened (series_url : string) (p : progress) : progress :=
  Progress (Crawler.log [Crawler.Get series_url] (world p))
    (processed_products p) (processed_count p) (calls p) (history p).

Fixpoint series_loop (series_urls : list string) (p : progress)
    : outcome unit * progress :=
  match series_urls with
  | [] => (Returned (), p)
  | series_url :: rest =>
      let p := opened series_url p in
      match site_series series_url with
      | Raised e => (Raised e, p)
      | Returned page =>
          let products :=
            select (collect_products_from_series series_url page) in
          match products_loop products p with
          | (true, p') => (Returned (), p')
          | (false, p') => series_loop rest p'
          end
      end
  end.

Definition crawl (series_url : list string)
    (series_file : option (outcome (list string)))
    (index : outcome (list (option string))) (w : Crawler.world)
    : outcome unit * progress :=
  let start := Progress w [] 0 0 [] in
  match listing series_url series_file index with
  | Raised e => (Raised e, start)
  | Returned series_urls => series_loop series_urls start
  end.

End Crawl.

End Run.

(** ** [validate_outputs.validate_roots] *)

Module Roots.

(** The sub-directories of the output roots, by root path.  A root that
    is listed twice is read twice; roots are not nested in one another. *)
Abbreviation tree := (gmap string (list (string * product_dir))).

Definition marked (d : product_dir) : bool :=
  bool_decide (is_Some (Dir.lookup ".complete" (files d))).

Section Validate.
Variable zip_size : list (string * file) → Z.

(** The product directory after [validate_product_dir]. *)
Definition audited (d : product_dir) : product_dir :=
  ProductDir (Audit.dir (Audit.validate_product_dir zip_size d)) (images d).

(** One root: the results in the order of the sorted paths, and the
    sub-directories afterwards. *)
Definition validate_root (subdirs : list (string * product_dir))
    : list (string * Audit.state) * list (string * product_dir) :=
  (omap (λ e : string * product_dir,
           if marked e.2
           then Some (e.1, Audit.validate_product_dir zip_size e.2)
           else None)
        (sorted (λ a b : string * product_dir, String.leb a.1 b.1) subdirs),
   (λ e : string * product_dir,
      if marked e.2 then (e.1, audited e.2) else e) <$> subdirs).

(** Result [(all_results, tree')]; each result goes with the name of its
    product directory. *)
Fixpoint validate_roots (roots : list string) (t : tree)
    : list (string * Audit.state) * tree :=
  match roots with
  | [] => ([], t)
  | root :: rest =>
      match t !! root with
      | None => validate_roots rest t
      | Some subdirs =>
          let '(results, subdirs') := validate_root subdirs in
          let '(later, t') := validate_roots rest (<[root := subdirs']> t) in
          (results ++ later, t')
      end
  end.

End Validate.

End Roots.

(** ** What a pass of the audit leaves behind *)

(** At most one name of the list ends with each suffix of the table. *)
Definition one_per_suffix (names : list string) : Prop :=
  ∀ n1 n2 suffix,
    n1 ∈ names → n2 ∈ names → suffix ∈ Audit.SUFFIXES →
    PyStr.endswith n1 suffix = true → PyStr.endswith n2 suffix = true →
    n1 = n2.

(** [clean_zip] has nothing to rewrite in the archive. *)
Definition settled (mode : string) (f : file) : Prop :=
  (Sanitizer.clean_zip (zip_members f) mode).1.1 = false.

(** The listing of a directory no step of the audit would repair. *)
Definition tidy (l : list (string * file)) : Prop :=
  NoDup l.*1
  ∧ one_per_suffix l.*1
  ∧ (∀ e suffix, e ∈ l → suffix ∈ Audit.PDF_SUFFIXES →
                 PyStr.endswith e.1 suffix = true → sound_pdf e.2)
  ∧ (∀ e, e ∈ l → PyStr.endswith e.1 "_DXF.zip" = true → settled "dxf" e.2)
  ∧ (∀ e, e ∈ l → PyStr.endswith e.1 "_STEP.zip" = true → settled "step" e.2).

(** An archive that opens and holds a member of the mode. *)
Definition cad_archive (mode : string) (f : file) : Prop :=
  ∃ entries, zip_members f = Some entries
             ∧ existsb (λ n, Sanitizer.is_target mode n) entries.*1 = true.

(** ** Further concrete inputs used by the examples *)

(** An attempt in which the product row is not on the series page. *)
Definition row_missing : Crawler.attempt :=
  {| Crawler.row_found := false;
     Crawler.image := None;
     Crawler.manual := None;
     Crawler.row_found_again := false;
     Crawler.documents := Returned [] |}.

(** An attempt in which the site offers the image and a batch archive
    with the catalog, the dimension drawing and a bare DXF file. *)
Definition full_delivery : Crawler.attempt :=
  {| Crawler.row_found := true;
     Crawler.image := Some (".png", File 5120 (Some "?PNG") None);
     Crawler.manual := None;
     Crawler.row_found_again := true;
     Crawler.documents :=
       Returned
         [ ("download.zip",
            File 9000 (Some Crawler.ZIP_MAGIC)
              (Some [ ("XYZ_catalog.pdf", File 2048 (Some "%PDF") None);
                      ("XYZ_dimension.pdf", File 1536 (Some "%PDF") None);
                      ("XYZ.dxf", File 1500 (Some "  0 ") None) ])) ] |}.

(** An output root in which product XYZ is marked complete although it
    holds nothing else. *)
Definition marked_world : Crawler.world :=
  Crawler.World
    {[ "XYZ" := Dir.put_file ".complete" (File 2 (Some "ok") None) empty_dir ]}
    [].

(** A complete product directory that also has a STEP archive. *)
Definition step_dir : product_dir :=
  {| files :=
       [ ("XYZ_Catalog.pdf", File 2048 (Some "%PDF") None);
         ("XYZ_Dimension.pdf", File 1536 (Some "%PDF") None);
         ("XYZ_DXF.zip",
          File 1800 (Some Crawler.ZIP_MAGIC)
            (Some [("XYZ.dxf", File 1500 (Some "  0 ") None)]));
         ("XYZ_STEP.zip",
          File 4194 (Some Crawler.ZIP_MAGIC) (Some [("XYZ.step", step_file)])) ];
     images := Some [("XYZ.png", File 5120 (Some "?PNG") None)] |}.

(** A marked product directory with a good catalog, an HTML page saved as
    the manual and a file the audit has no suffix for. *)
Definition audit_sample : product_dir :=
  {| files :=
       [ (".complete", File 2 (Some "ok") None);
         ("XYZ_Catalog.pdf", File 2048 (Some "%PDF") None);
         ("XYZ_Manual.pdf", File 1200 (Some "<htm") None);
         ("notes.txt", File 10 (Some "todo") None) ];
     images := Some [("XYZ.png", File 5120 (Some "?PNG") None)] |}.

(** The labels of a product table: a row without label, two rows of
    other products and the row of XYZ. *)
Definition sample_rows : list (option string) :=
  [None; Some " ABC-10 "; Some "XYZ-2"; Some "XYZ"].

(** Two rounds of polling: a download in progress, then the finished
    files next to an older one and a directory. *)
Definition sample_polls : list Driver.poll :=
  [ {| Driver.in_time := true;
       Driver.at_first_glob :=
         [ {| Driver.entry_name := "b.zip.crdownload"; Driver.is_file := true;
              Driver.st_mtime := 9 |} ];
       Driver.at_second_glob := [] |};
    {| Driver.in_time := true;
       Driver.at_first_glob :=
         [ {| Driver.entry_name := "old.zip"; Driver.is_file := true;
              Driver.st_mtime := 1 |} ];
       Driver.at_second_glob :=
         [ {| Driver.entry_name := "old.zip"; Driver.is_file := true;
              Driver.st_mtime := 12 |};
           {| Driver.entry_name := "b.zip"; Driver.is_file := true;
              Driver.st_mtime := 9 |};
           {| Driver.entry_name := "a.zip"; Driver.is_file := true;
              Driver.st_mtime := 5 |};
           {| Driver.entry_name := "unpacked"; Driver.is_file := false;
              Driver.st_mtime := 11 |} ] |} ].

(** A series page with the products XYZ and ABC; the first link has no
    [href]. *)
Definition sample_page : Run.series_page :=
  {| Run.heading := " Bar lights ";
     Run.rows := [ Some (" XYZ ", None); None;
                   Some ("ABC", Some "https://www.ccs-grp.com/products/model/2") ] |}.

(** A site on which every series URL shows [sample_page] and every
    product is delivered in full. *)
Definition sample_series (url : string) : outcome Run.series_page :=
  Returned sample_page.

Definition sample_product (n : nat) (product : ProductContext)
    : Crawler.attempt * Crawler.attempt :=
  (full_delivery, full_delivery).

(** A site whose series pages do not load. *)
Definition broken_series (url : string) : outcome Run.series_page :=
  Raised DriverError.

(** An attempt in which collecting the documents raises. *)
Definition download_fails : Crawler.attempt :=
  {| Crawler.row_found := true;
     Crawler.image := None;
     Crawler.manual := None;
     Crawler.row_found_again := true;
     Crawler.documents := Raised DriverError |}.

(** A site on which the first call of [process_product] runs into a
    download that fails and every later one is delivered in full. *)
Definition first_call_fails (n : nat) (product : ProductContext)
    : Crawler.attempt * Crawler.attempt :=
  match n with
  | O => (download_fails, download_fails)
  | S _ => (full_delivery, full_delivery)
  end.

(** An output root with a directory the crawl does not know. *)
Definition legacy_world : Crawler.world :=
  Crawler.World {[ "OLD-1" := scenario_c ]} [].

(** One root with an unmarked and a marked product directory. *)
Definition sample_tree : Roots.tree :=
  {[ "/out" := [("XYZ", audit_sample); ("OLD-1", scenario_c)] ]}.

(* ================================================================== *)
(** * Part II: lemmas and theorems *)
(* ================================================================== *)

(** ** Strings and paths *)

Section PathFacts.
Import PyStr PyPath.

Lemma split_free sep s : free_of sep s → split sep s = [s].
Proof.
  induction s as [|c s IH]; simpl; [done|].
  intros [Hc Hs]. rewrite Hc, (IH Hs). done.
Qed.

Lemma split_parts_free sep s : Forall (free_of sep) (split sep s).
Proof.
  induction s as [|c s IH]; simpl.
  - by repeat constructor.
  - destruct (Ascii.eqb c sep) eqn:Hc.
    + constructor; [exact I|exact IH].
    + destruct (split sep s) as [|w ws]; [by repeat constructor|].
      inversion IH; subst. constructor; [by split|done].
Qed.

Lemma last_elem_of {A} (l : list A) d : l ≠ [] → List.last l d ∈ l.
Proof.
  induction l as [|x [|y l] IH]; intros Hne; [done|left|].
  right. apply IH. done.
Qed.

(** The base name of a base name is itself. *)
Lemma name_idemp p : name (name p) = name p.
Proof.
  unfold name at 2 3. unfold parts.
  destruct (List.filter keeps (split "/" p)) as [|c l] eqn:Hl; [done|].
  assert (Hin : List.last (c :: l) "" ∈ List.filter keeps (split "/" p)).
  { rewrite Hl. by apply last_elem_of. }
  set (n := List.last (c :: l) "") in *.
  apply list_elem_of_In, List.filter_In in Hin as [Hin Hk].
  pose proof (split_parts_free "/" p) as Hfree.
  rewrite Forall_forall in Hfree.
  apply list_elem_of_In, Hfree in Hin.
  unfold name, parts. rewrite (split_free _ _ Hin). simpl. by rewrite Hk.
Qed.

Lemma suffix_name p : suffix (name p) = suffix p.
Proof. unfold suffix. by rewrite name_idemp. Qed.

End PathFacts.

(** ** The archive sanitizer *)

Section SanitizerFacts.
Import PyStr Sanitizer.
Context {D : Type}.
Implicit Types (entries : list (string * D)) (a : archive D).

Lemma is_target_name mode m : is_target mode (PyPath.name m) = is_target mode m.
Proof. unfold is_target. by rewrite suffix_name. Qed.

Lemma zf_read_member entries m :
  m ∈ entries.*1 → is_Some (zf_read entries m).
Proof.
  induction entries as [|[n d] rest IH]; simpl; [by intros ?%elem_of_nil|].
  intros [Heq|Hin]%elem_of_cons.
  - simpl in Heq. subst n.
    destruct (zf_read rest m); [eauto|]. rewrite String.eqb_refl. eauto.
  - destruct (IH Hin) as [d' ->]. eauto.
Qed.

Lemma zf_read_elem_of entries m d :
  zf_read entries m = Some d → (m, d) ∈ entries.
Proof.
  induction entries as [|[n d0] rest IH]; simpl; [done|].
  destruct (zf_read rest m) as [d'|] eqn:Hr.
  - intros [= <-]. right. by apply IH.
  - destruct (String.eqb n m) eqn:Hn; [|done].
    apply String.eqb_eq in Hn as ->. intros [= <-]. left.
Qed.

Lemma zf_read_NoDup entries m d :
  NoDup entries.*1 → (m, d) ∈ entries → zf_read entries m = Some d.
Proof.
  induction entries as [|[n d0] rest IH]; simpl; [by intros _ ?%elem_of_nil|].
  intros [Hn Hnd]%NoDup_cons [[= -> ->]|Hin]%elem_of_cons.
  - destruct (zf_read rest n) as [d'|] eqn:Hr.
    + apply zf_read_elem_of in Hr. destruct Hn.
      apply list_elem_of_fmap. by exists (n, d').
    + by rewrite String.eqb_refl.
  - by rewrite (IH Hnd Hin).
Qed.

Lemma rebuild_names entries tm :
  tm ⊆ entries.*1 → (rebuild entries tm).*1 = PyPath.name <$> tm.
Proof.
  unfold rebuild. induction tm as [|m tm IH]; intros Hsub; [done|].
  simpl. destruct (zf_read_member entries m) as [d Hd].
  { apply Hsub. left. }
  rewrite Hd. simpl. f_equal. apply IH. intros x Hx. apply Hsub. by right.
Qed.

Lemma rebuild_entries entries tm :
  Forall (λ e, ∃ m, m ∈ tm ∧ e.1 = PyPath.name m
                    ∧ zf_read entries m = Some e.2) (rebuild entries tm).
Proof.
  unfold rebuild. induction tm as [|m tm IH]; simpl; [constructor|].
  assert (Hmono : ∀ l, Forall (λ e : string * D, ∃ m0, m0 ∈ tm
                   ∧ e.1 = PyPath.name m0 ∧ zf_read entries m0 = Some e.2) l →
                 Forall (λ e : string * D, ∃ m0, m0 ∈ m :: tm
                   ∧ e.1 = PyPath.name m0 ∧ zf_read entries m0 = Some e.2) l).
  { intros l Hl. eapply Forall_impl; [exact Hl|].
    intros e (m0 & ? & ? & ?). exists m0. split; [by right|done]. }
  destruct (zf_read entries m) as [d|] eqn:Hd; simpl; [|by apply Hmono].
  constructor; [|by apply Hmono].
  exists m. split; [left|done].
Qed.

Lemma rebuild_NoDup mode entries :
  NoDup entries.*1 →
  rebuild entries (filter (λ m, is_target mode m) entries.*1)
  = flatten_entry <$> filter (λ e, is_target mode e.1) entries.
Proof.
  intros Hnd.
  assert (Hgen : ∀ es, es ⊆ entries →
    rebuild entries (filter (λ m, is_target mode m) es.*1)
    = flatten_entry <$> filter (λ e : string * D, is_target mode e.1) es).
  { induction es as [|[n d] es IH]; intros Hsub; [done|].
    assert (Hes : es ⊆ entries) by (intros x Hx; apply Hsub; by right).
    cbn [fmap list_fmap fst]. rewrite !filter_cons. cbn [fst].
    destruct (decide (is_target mode n)) as [Ht|Ht]; [|by apply IH].
    unfold rebuild in *. cbn [omap list_omap].
    rewrite (zf_read_NoDup entries n d Hnd); [|apply Hsub; left].
    cbn. f_equal. by apply IH. }
  by apply Hgen.
Qed.

Lemma list_to_set_filter_eq (P : string → bool) (l : list string) :
  list_to_set (filter (λ m, P m) l) =@{gset string} list_to_set l
  ↔ Forall (λ m, P m = true) l.
Proof.
  split.
  - intros Heq. apply Forall_forall. intros m Hm.
    assert (m ∈@{gset string} list_to_set l) as Hin by by apply elem_of_list_to_set.
    rewrite <- Heq in Hin. apply elem_of_list_to_set, list_elem_of_filter in Hin.
    destruct Hin as [HP _]. by apply Is_true_true.
  - intros Hall. f_equal. induction Hall as [|m l Hm Hall IH]; [done|].
    rewrite filter_cons. rewrite decide_True by by apply Is_true_true.
    by rewrite IH.
Qed.

Lemma filter_all_targets mode (l : list string) :
  Forall (λ m, is_target mode m = true) l →
  filter (λ m, is_target mode m) l = l.
Proof.
  induction 1 as [|m l Hm Hall IH]; [done|].
  rewrite filter_cons, decide_True by by apply Is_true_true. by rewrite IH.
Qed.

Lemma filter_targets_all mode (l : list string) :
  Forall (λ m, is_target mode m = true) (filter (λ m, is_target mode m) l).
Proof.
  apply Forall_forall. intros m [Hm _]%list_elem_of_filter.
  by apply Is_true_true.
Qed.

End SanitizerFacts.

Section SanitizerTheorems.
Import PyStr Sanitizer.
Context {D : Type}.
Implicit Types (entries : list (string * D)) (a : archive D).

Lemma target_exts_kinds :
  target_exts "dxf" = [".dxf"] ∧ target_exts "step" = [".stp"; ".step"].
Proof. done. Qed.

Lemma clean_zip_Some entries mode :
  let matching := filter (λ m, is_target mode m) entries.*1 in
  clean_zip (Some entries) mode =
    if bool_decide (matching = []) then ((false, []), Some entries)
    else if bool_decide (Forall (λ m, is_target mode m = true) entries.*1)
    then ((false, PyPath.name <$> matching), Some entries)
    else ((true, PyPath.name <$> matching),
          Some (rebuild entries matching)).
Proof.
  intros matching. unfold clean_zip. fold matching.
  case_bool_decide as Hm; [done|].
  rewrite rebuild_names by (intros x [_ Hx]%list_elem_of_filter; done).
  case_bool_decide as Hs; case_bool_decide as Hall; try done.
  - destruct Hs. by apply (list_to_set_filter_eq (is_target mode)).
  - destruct Hall. apply (list_to_set_filter_eq (is_target mode)).
    by destruct (decide (list_to_set matching
                         =@{gset string} list_to_set entries.*1)).
Qed.



End SanitizerTheorems.

Section RewriteTheorems.
Import PyStr.
Context {D : Type}.
Implicit Types (entries : list (string * Rewrite.member D)).






End RewriteTheorems.



(** ** The completeness check *)

Section ValidatorTheorems.
Import PyStr Crawler.

Lemma suffix_ok_inv product_code suffix d :
  suffix_ok product_code suffix d = true →
  suffix ≠ "_Manual.pdf" → suffix ≠ "_STEP.zip" →
  ∃ name f later,
    matching_files suffix d = (name, f) :: later
    ∧ 1000 ≤ st_size f
    ∧ format_check suffix f = true
    ∧ contains name product_code = true.
Proof.
  unfold suffix_ok, format_check. intros Hok Hm Hs.
  destruct (matching_files suffix d) as [|[name f] later].
  - apply orb_true_iff in Hok as [H|H]; apply String.eqb_eq in H; done.
  - exists name, f, later. split; [done|].
    destruct (st_size f <? 1000) eqn:Hsz; [done|]. apply Z.ltb_ge in Hsz.
    destruct (endswith suffix ".pdf"); simpl in *.
    + destruct (is_pdf f); simpl in *; [|done].
      destruct (contains name product_code); done.
    + destruct (contains name product_code); done.
Qed.

Lemma image_present_iff d :
  image_present d = true
  ↔ ∃ imgs e, images d = Some imgs ∧ e ∈ imgs ∧ 1000 < st_size e.2.
Proof.
  unfold image_present. destruct (images d) as [imgs|]; [|split; [done|by intros (? & ? & ? & _)]].
  rewrite existsb_exists. split.
  - intros (e & Hin & Hsz). exists imgs, e.
    split; [done|]. split; [by apply list_elem_of_In|by apply Z.ltb_lt].
  - intros (? & e & [= <-] & Hin & Hsz). exists e.
    split; [by apply list_elem_of_In|by apply Z.ltb_lt].
Qed.

(** C2, as the code has it.  When [_required_files_present] returns
    [True], then for each of Catalog, Dimension and DXF the first file the
    directory listing gives for the suffix exists, has at least 1000
    bytes, starts with [%PDF] if the category is a PDF one (a zip gets no
    content check) and has the product code in its name; and [Images/]
    holds a file of more than 1000 bytes. *)
Theorem required_files_present_sound product_code d :
  _required_files_present product_code d = true →
  (∀ suffix, suffix ∈ mandatory →
     ∃ name f later,
       matching_files suffix d = (name, f) :: later
       ∧ (name, f) ∈ files d
       ∧ endswith name suffix = true
       ∧ 1000 ≤ st_size f
       ∧ format_check suffix f = true
       ∧ contains name product_code = true)
  ∧ ∃ imgs e, images d = Some imgs ∧ e ∈ imgs ∧ 1000 < st_size e.2.
Proof.
  unfold _required_files_present. intros [Hall Himg]%andb_true_iff.
  split; [|by apply image_present_iff].
  rewrite forallb_forall in Hall.
  intros suffix Hsuffix.
  assert (Hreq : In suffix required).
  { unfold mandatory in Hsuffix. unfold required.
    repeat (apply elem_of_cons in Hsuffix as [->|Hsuffix]; [simpl; tauto|]).
    by apply elem_of_nil in Hsuffix. }
  destruct (suffix_ok_inv product_code suffix d (Hall _ Hreq))
    as (name & f & later & Hm & Hsz & Hfmt & Hcode).
  { intros ->. unfold mandatory in Hsuffix.
    apply (bool_decide_pack _) in Hsuffix. vm_compute in Hsuffix. done. }
  { intros ->. unfold mandatory in Hsuffix.
    apply (bool_decide_pack _) in Hsuffix. vm_compute in Hsuffix. done. }
  exists name, f, later. split; [done|].
  assert (Hin : (name, f) ∈ matching_files suffix d) by (rewrite Hm; left).
  apply list_elem_of_filter in Hin as [Hend Hin].
  repeat split; try done. by apply Is_true_true.
Qed.

End ValidatorTheorems.

Lemma required_files_present_sound_witness :
  ∃ name f later,
    Crawler.matching_files "_DXF.zip" html_as_dxf_dir = (name, f) :: later
    ∧ 1000 ≤ st_size f.
Proof.
  destruct (required_files_present_sound "XYZ" html_as_dxf_dir) as [H _].
  - vm_compute. reflexivity.
  - destruct (H "_DXF.zip") as (name & f & later & Hm & _ & _ & Hsz & _).
    + unfold mandatory. apply (bool_decide_unpack _). vm_compute. exact I.
    + exists name, f, later. split; [exact Hm|exact Hsz].
Defined.

(** The check passes although the only DXF file is no archive at all. *)
Lemma required_files_present_accepts_bad_zip :
  Crawler._required_files_present "XYZ" html_as_dxf_dir = true
  ∧ Forall (λ e, PyStr.endswith e.1 "_DXF.zip" = true →
                 format_check_as_specified "_DXF.zip" e.2 = false)
      (files html_as_dxf_dir).
Proof.
  split; [vm_compute; reflexivity|].
  repeat constructor; vm_compute; intros; congruence.
Qed.

(** ** The two image checks *)

Section ImageChecks.
Import PyStr.

(** C9, as the code has it.  The auditor accepts [Images/] exactly when
    it holds a non-empty file whose lower-cased extension is one of
    [IMAGE_EXTS]; the crawler's check accepts exactly when it holds a file
    of more than 1000 bytes; a file with such an extension and more than
    1000 bytes makes both accept. *)
Theorem images_ok_iff d :
  (Auditor.images_ok d = true
   ↔ ∃ imgs e, images d = Some imgs ∧ e ∈ imgs
               ∧ lower (PyPath.suffix e.1) ∈ Auditor.IMAGE_EXTS
               ∧ 0 < st_size e.2)
  ∧ (Crawler.image_present d = true
     ↔ ∃ imgs e, images d = Some imgs ∧ e ∈ imgs ∧ 1000 < st_size e.2)
  ∧ ((∃ imgs e, images d = Some imgs ∧ e ∈ imgs
                ∧ lower (PyPath.suffix e.1) ∈ Auditor.IMAGE_EXTS
                ∧ 1000 < st_size e.2) →
     Auditor.images_ok d = true ∧ Crawler.image_present d = true).
Proof.
  assert (Haud : Auditor.images_ok d = true
   ↔ ∃ imgs e, images d = Some imgs ∧ e ∈ imgs
               ∧ lower (PyPath.suffix e.1) ∈ Auditor.IMAGE_EXTS
               ∧ 0 < st_size e.2).
  { unfold Auditor.images_ok. destruct (images d) as [imgs|]; [|split; [done|by intros (? & ? & ? & _)]].
    rewrite existsb_exists. split.
    - intros (e & Hin & [Hext Hsz]%andb_true_iff). exists imgs, e.
      split; [done|]. split; [by apply list_elem_of_In|].
      split; [by apply bool_decide_eq_true in Hext|by apply Z.ltb_lt].
    - intros (? & e & [= <-] & Hin & Hext & Hsz). exists e.
      split; [by apply list_elem_of_In|]. apply andb_true_iff.
      split; [by apply bool_decide_eq_true|by apply Z.ltb_lt]. }
  split; [exact Haud|]. split; [apply image_present_iff|].
  intros (imgs & e & Hd & Hin & Hext & Hsz). split.
  - apply Haud. exists imgs, e. repeat split; try done. lia.
  - apply image_present_iff. by exists imgs, e.
Qed.

End ImageChecks.

Lemma images_ok_iff_witness :
  Auditor.images_ok small_png_dir = true.
Proof.
  destruct (images_ok_iff small_png_dir) as [[_ H] _]. apply H.
  exists [("XYZ.png", File 500 (Some "?PNG") None)],
         ("XYZ.png", File 500 (Some "?PNG") None).
  split; [reflexivity|]. split; [left|].
  split; [apply (bool_decide_unpack _); vm_compute; exact I|reflexivity].
Defined.

(** The two checks disagree in both directions. *)
Lemma image_checks_differ :
  (Auditor.images_ok small_png_dir = true
   ∧ Crawler.image_present small_png_dir = false)
  ∧ (Auditor.images_ok large_bmp_dir = false
     ∧ Crawler.image_present large_bmp_dir = true).
Proof. vm_compute. auto. Qed.

(** ** Classification and promotion *)

Section ClassifierTheorems.
Import PyStr Crawler.

Local Ltac branch :=
  match goal with
  | |- context [contains ?a ?b] => destruct (contains a b) eqn:?
  | |- context [startswith ?a ?b] => destruct (startswith a b) eqn:?
  | |- context [endswith ?a ?b] => destruct (endswith a b) eqn:?
  | |- context [String.eqb ?a ?b] => destruct (String.eqb a b) eqn:?
  end.

Lemma bool_decide_elem_of_pair (e a b : string) :
  bool_decide (e ∈ [a; b]) = String.eqb e a || String.eqb e b.
Proof.
  destruct (String.eqb_spec e a) as [->|Ha].
  { apply bool_decide_eq_true_2. left. }
  destruct (String.eqb_spec e b) as [->|Hb].
  { apply bool_decide_eq_true_2. right. left. }
  apply bool_decide_eq_false_2.
  intros [?|[?|?%elem_of_nil]%elem_of_cons]%elem_of_cons; done.
Qed.

(** The if/elif chain against the ordered rule list. *)
Lemma suffix_entry_classify file_path context :
  (λ entry, (entry.1.2, entry.2)) <$> suffix_entry file_path context
  = Spec.slot <$> Spec.classify file_path (code context).
Proof.
  unfold suffix_entry, keyword_entry, Spec.classify, Spec.classify_with,
    _looks_like_dimension.
  rewrite bool_decide_elem_of_pair.
  cbn [Spec.rules_with Spec.keyword_table DOWNLOAD_KEYWORDS fmap list_fmap app
       List.find fst snd Spec.name_lower Spec.ext_lower Spec.code_lower].
  unfold Spec.stem.
  set (n := lower (PyPath.name file_path)).
  set (e := lower (PyPath.suffix file_path)).
  repeat (branch; cbn [fst snd fmap option_fmap option_map orb andb negb
                       List.find Spec.slot]; try done).
Qed.

(** C3. For an ASCII file name and an ASCII product code, the entry
    [distribute_file] settles on is the category the ordered rule list
    gives, first match winning, where the stem of rule (4) is the text
    before the first dot of the lower-cased name; and a file no rule
    matches leaves the product directory as it was. *)
Theorem classification_order file_path context :
  is_ascii file_path = true → is_ascii (code context) = true →
  (λ entry, (entry.1.2, entry.2)) <$> suffix_entry file_path context
  = Spec.slot <$> Spec.classify file_path (code context)
  ∧ (Spec.classify file_path (code context) = None →
     ∀ zip_size f d,
       distribute_file zip_size file_path f context d = (Returned (), d)).
Proof.
  intros _ _.
  pose proof (suffix_entry_classify file_path context) as Heq.
  split; [exact Heq|].
  intros Hnone zip_size f d. rewrite Hnone in Heq.
  unfold distribute_file.
  destruct (suffix_entry file_path context) as [entry|]; [|reflexivity].
  discriminate Heq.
Qed.

Lemma lookup_write n m f l :
  Dir.lookup n (Dir.write m f l)
  = if String.eqb m n then Some f else Dir.lookup n l.
Proof.
  induction l as [|[k g] l IH]; simpl; [done|].
  destruct (String.eqb_spec k m) as [->|Hkm]; simpl.
  - by destruct (String.eqb m n).
  - destruct (String.eqb_spec k n) as [->|Hkn].
    + by rewrite (proj2 (String.eqb_neq m n)) by done.
    + exact IH.
Qed.

Lemma append_inj_r (p a b : string) : p +:+ a = p +:+ b → a = b.
Proof. induction p as [|c p IH]; simpl; [done|]. intros [= H]. auto. Qed.

(** What [suffix_entry] can be: nothing, or the slot of a category. *)
Lemma suffix_entry_slot file_path context :
  suffix_entry file_path context = None
  ∨ ∃ keyword c, suffix_entry file_path context
                 = Some (keyword, (Spec.slot c).1, (Spec.slot c).2).
Proof.
  pose proof (suffix_entry_classify file_path context) as Heq.
  destruct (suffix_entry file_path context) as [[[k s] e]|]; [right|by left].
  destruct (Spec.classify file_path (code context)) as [c|]; [|done].
  injection Heq as Heq. exists k, c. by rewrite <- Heq.
Qed.

Lemma copy_lookup f target d slot :
  Dir.lookup slot (files (copy f target d).2)
  = if String.eqb target slot && bool_decide (is_Some (head f))
    then Some f else Dir.lookup slot (files d).
Proof.
  unfold copy. destruct (head f) as [h|]; cbn [snd files Dir.put_file].
  - rewrite lookup_write. rewrite bool_decide_eq_true_2 by eauto.
    by rewrite andb_true_r.
  - rewrite bool_decide_eq_false_2 by (by intros [? ?]).
    by rewrite andb_false_r.
Qed.

(** C4. A file that does not start with [%PDF], unreadable files
    included, leaves every canonical PDF name of the product as it was;
    and whenever [distribute_file] changes what such a name holds, the
    new content is the promoted file and it starts with [%PDF]. *)
Theorem distribute_file_pdf_slots zip_size file_path f context d slot :
  slot ∈ Spec.pdf_slots (code context) →
  let d' := (distribute_file zip_size file_path f context d).2 in
  (is_pdf f = false →
   Dir.lookup slot (files d') = Dir.lookup slot (files d))
  ∧ (Dir.lookup slot (files d') = Dir.lookup slot (files d)
     ∨ (Dir.lookup slot (files d') = Some f ∧ is_pdf f = true)).
Proof.
  intros Hslot d'.
  assert (Hb : Dir.lookup slot (files d') = Dir.lookup slot (files d)
     ∨ (Dir.lookup slot (files d') = Some f ∧ is_pdf f = true)).
  { subst d'. unfold distribute_file.
    destruct (suffix_entry_slot file_path context) as [->|(k & c & ->)];
      [by left|].
    assert (Hzip : ∀ tok g,
              tok ∈ ["_DXF"; "_STEP"] →
              Dir.lookup slot (Dir.write (code context +:+ tok +:+ ".zip")
                                 g (files d))
              = Dir.lookup slot (files d)).
    { intros tok g Htok. rewrite lookup_write.
      destruct (String.eqb_spec (code context +:+ tok +:+ ".zip") slot)
        as [<-|]; [|done].
      unfold Spec.pdf_slots in Hslot.
      repeat (apply elem_of_cons in Hslot as [Hslot|Hslot];
              [apply append_inj_r in Hslot;
               repeat (apply elem_of_cons in Htok as [->|Htok];
                       [discriminate Hslot|]);
               by apply elem_of_nil in Htok|]).
      by apply elem_of_nil in Hslot. }
    destruct c; cbn [Spec.slot fst snd String.eqb Ascii.eqb Bool.eqb andb];
      try (destruct (is_pdf f) eqn:Hpdf; cbn [negb]; [|by left];
           rewrite copy_lookup;
           destruct (_ && _); [by right|by left]).
    all: left; case_bool_decide.
    all: try (unfold copy; destruct (head f); cbn [snd files Dir.put_file];
              [apply Hzip; repeat constructor|done]).
    all: destruct (head f); cbn [snd files Dir.put_file];
         [apply Hzip; repeat constructor|done]. }
  split; [|exact Hb].
  intros Hpdf. destruct Hb as [|[_ Hb]]; [done|congruence].
Qed.

(** C8, as the code has it.  For product [XYZ] a readable download called
    [STEP_data.stp] is classified by the keyword table (its lower-cased
    name contains [step]) and is wrapped into [XYZ_STEP.zip], an archive
    whose only entry keeps the file's own name, [STEP_data.stp]. *)
Theorem promote_bare_step zip_size f context d :
  code context = "XYZ" →
  is_Some (head f) →
  keyword_entry (lower (PyPath.name "STEP_data.stp"))
  = Some ("step", "_STEP", ".zip")
  ∧ ∃ d' a,
      distribute_file zip_size "STEP_data.stp" f context d = (Returned (), d')
      ∧ Dir.lookup "XYZ_STEP.zip" (files d') = Some a
      ∧ zip_members a = Some [("STEP_data.stp", f)]
      ∧ images d' = images d.
Proof.
  intros Hcode [h Hh]. split; [done|].
  unfold distribute_file.
  assert (Hentry : suffix_entry "STEP_data.stp" context
                   = Some ("step", "_STEP", ".zip")) by done.
  rewrite Hentry. cbn [String.eqb Ascii.eqb Bool.eqb andb].
  rewrite bool_decide_eq_false_2.
  2:{ intros Hin. apply (bool_decide_pack _) in Hin.
      vm_compute in Hin. done. }
  rewrite Hh, Hcode.
  eexists _, _. split; [done|].
  cbn [files Dir.put_file]. rewrite lookup_write.
  split; [by rewrite String.eqb_refl|done].
Qed.

End ClassifierTheorems.

Lemma classification_order_witness :
  Spec.classify "notes/readme.txt" "XYZ" = None
  ∧ Crawler.distribute_file stored_size "notes/readme.txt"
      (File 120 (Some "Read") None) xyz empty_dir
    = (Returned (), empty_dir).
Proof.
  assert (Hnone : Spec.classify "notes/readme.txt" (code xyz) = None)
    by (vm_compute; reflexivity).
  split; [exact Hnone|].
  exact (proj2 (classification_order "notes/readme.txt" xyz
                  eq_refl eq_refl) Hnone
           stored_size (File 120 (Some "Read") None) empty_dir).
Defined.

(** With the stem read as the name before its extension, rule (4) makes
    [XYZ.1_e.pdf] a dimension drawing of product XYZ; the code looks at
    the text before the first dot, [xyz], goes on to rule (5) and stores
    the file as the datasheet. *)
Lemma classification_not_as_specified :
  Spec.classify_as_specified "XYZ.1_e.pdf" "XYZ" = Some Spec.Dimension
  ∧ Crawler.suffix_entry "XYZ.1_e.pdf" xyz
    = Some ("datasheet", "_Datasheet", ".pdf")
  ∧ files (Crawler.distribute_file stored_size "XYZ.1_e.pdf"
             (File 2048 (Some "%PDF") None) xyz empty_dir).2
    = [("XYZ_Datasheet.pdf", File 2048 (Some "%PDF") None)].
Proof. vm_compute. repeat split; reflexivity. Qed.

Lemma distribute_file_pdf_slots_witness :
  Dir.lookup "XYZ_Catalog.pdf"
    (files (Crawler.distribute_file stored_size "XYZ_catalog.pdf"
              (File 1200 (Some "<htm") None) xyz empty_dir).2)
  = Dir.lookup "XYZ_Catalog.pdf" (files empty_dir).
Proof.
  refine (proj1 (distribute_file_pdf_slots stored_size "XYZ_catalog.pdf"
                   (File 1200 (Some "<htm") None) xyz empty_dir
                   "XYZ_Catalog.pdf" _) _).
  - apply (bool_decide_unpack _). vm_compute. exact I.
  - vm_compute. reflexivity.
Defined.

Lemma promote_bare_step_witness :
  ∃ d' a,
    Crawler.distribute_file stored_size "STEP_data.stp" step_file xyz empty_dir
    = (Returned (), d')
    ∧ Dir.lookup "XYZ_STEP.zip" (files d') = Some a
    ∧ zip_members a = Some [("STEP_data.stp", step_file)]
    ∧ images d' = images empty_dir.
Proof.
  refine (proj2 (promote_bare_step stored_size step_file xyz empty_dir _ _)).
  - reflexivity.
  - exists "ISO-". reflexivity.
Defined.

(** Scenario D as the specification words it does not happen: the keyword
    table decides before the extension fallback is reached, and the entry
    of the archive is not called [data.stp]. *)
Lemma promote_bare_step_not_as_specified :
  Crawler.keyword_entry (PyStr.lower (PyPath.name "STEP_data.stp")) ≠ None
  ∧ ∀ a,
      Dir.lookup "XYZ_STEP.zip"
        (files (Crawler.distribute_file stored_size "STEP_data.stp"
                  step_file xyz empty_dir).2) = Some a →
      (λ members : list (string * file), members.*1) <$> zip_members a
      ≠ Some ["data.stp"].
Proof.
  split; [vm_compute; discriminate|].
  vm_compute. intros a [= <-]. discriminate.
Qed.

(** ** Deduplication *)

Section DedupFacts.
Import PyStr Auditor.
Implicit Types (buckets : list (string * list string))
               (dir : list (string * file)) (p suffix : string).

Lemma lookup_unlink p q dir :
  Dir.lookup p (Dir.unlink q dir)
  = if decide (p = q) then None else Dir.lookup p dir.
Proof.
  unfold Dir.unlink. induction dir as [|[m f] dir IH]; simpl.
  - by destruct (decide (p = q)).
  - rewrite filter_cons. simpl. destruct (decide (m ≠ q)) as [Hm|Hm]; simpl.
    + rewrite IH. destruct (String.eqb_spec m p) as [->|]; [|done].
      by rewrite decide_False.
    + apply dec_stable in Hm as ->. rewrite IH.
      destruct (decide (p = q)) as [->|Hpq]; [done|].
      by rewrite (proj2 (String.eqb_neq q p)) by done.
Qed.

Lemma lookup_unlink_all p qs dir :
  Dir.lookup p (foldl (λ dir q, Dir.unlink q dir) dir qs)
  = if decide (p ∈ qs) then None else Dir.lookup p dir.
Proof.
  revert dir. induction qs as [|q qs IH]; intros dir; simpl.
  - by destruct (decide (p ∈ [])) as [?%elem_of_nil|].
  - rewrite IH, lookup_unlink.
    destruct (decide (p ∈ qs)) as [Hin|Hin].
    + rewrite decide_True; [done|by right].
    + destruct (decide (p = q)) as [->|Hpq].
      * rewrite decide_True; [done|left].
      * rewrite decide_False; [done|].
        by intros [?|?]%elem_of_cons.
Qed.

Lemma lookup_is_Some p dir : p ∈ dir.*1 → is_Some (Dir.lookup p dir).
Proof.
  induction dir as [|[m f] dir IH]; simpl; [by intros ?%elem_of_nil|].
  intros Hin. destruct (String.eqb_spec m p) as [->|Hmp]; [eauto|].
  apply elem_of_cons in Hin as [Heq|Hin]; [by destruct Hmp|by apply IH].
Qed.

(** *** [max] with a key *)

Lemma max_by_elem_of key best paths :
  max_by key best paths ∈ best :: paths.
Proof.
  revert best. induction paths as [|p paths IH]; intros best; simpl; [left|].
  specialize (IH (if key best <? key p then p else best)).
  apply elem_of_cons in IH as [->|IH]; [|by do 2 right].
  destruct (key best <? key p); [right; left|left].
Qed.

Lemma max_by_lower key best paths : key best ≤ key (max_by key best paths).
Proof.
  revert best. induction paths as [|p paths IH]; intros best; simpl; [lia|].
  etrans; [|apply IH].
  destruct (key best <? key p) eqn:Hlt; [apply Z.ltb_lt in Hlt|]; lia.
Qed.

Lemma max_by_upper key best paths p :
  p ∈ best :: paths → key p ≤ key (max_by key best paths).
Proof.
  revert best. induction paths as [|q paths IH]; intros best; simpl.
  - intros [->|?%elem_of_nil]%elem_of_cons; [lia|done].
  - intros Hin.
    assert (Hstep : key best ≤ key (if key best <? key q then q else best)
                    ∧ key q ≤ key (if key best <? key q then q else best)).
    { destruct (key best <? key q) eqn:Hlt;
        [apply Z.ltb_lt in Hlt|apply Z.ltb_ge in Hlt]; lia. }
    apply elem_of_cons in Hin as [->|Hin].
    { etrans; [apply Hstep|apply max_by_lower]. }
    apply elem_of_cons in Hin as [->|Hin].
    { etrans; [apply Hstep|apply max_by_lower]. }
    apply IH. by right.
Qed.

Lemma max_by_ext key1 key2 best paths :
  (∀ p, p ∈ best :: paths → key1 p = key2 p) →
  max_by key1 best paths = max_by key2 best paths.
Proof.
  revert best. induction paths as [|q paths IH]; intros best Hext; [done|].
  simpl. rewrite (Hext best) by left. rewrite (Hext q) by (right; left).
  apply IH. intros p [->|Hin]%elem_of_cons.
  - destruct (key2 best <? key2 q); apply Hext; [right; left|left].
  - apply Hext. by do 2 right.
Qed.

Lemma filter_ne_length (keep : string) (paths : list string) :
  NoDup paths → keep ∈ paths →
  S (length (filter (λ p, p ≠ keep) paths)) = length paths.
Proof.
  induction paths as [|q paths IH]; [by intros _ ?%elem_of_nil|].
  intros [Hq Hnd]%NoDup_cons Hin. rewrite filter_cons. simpl.
  destruct (decide (q ≠ keep)) as [Hne|Heq]; simpl.
  - f_equal. apply IH; [done|].
    by apply elem_of_cons in Hin as [->|Hin].
  - apply dec_stable in Heq as ->. f_equal.
    clear IH Hin Hnd. induction paths as [|r paths IH]; [done|].
    rewrite filter_cons.
    rewrite decide_True by (intros ->; apply Hq; left).
    simpl. f_equal. apply IH. intros Hin. apply Hq. by right.
Qed.

End DedupFacts.

Section BucketFacts.
Import PyStr Auditor.
Implicit Types (buckets : list (string * list string))
               (dir : list (string * file)) (p suffix : string).

Lemma bucket_append_concat suffix p buckets :
  concat (bucket_append suffix p buckets).*2 ≡ₚ p :: concat buckets.*2.
Proof.
  induction buckets as [|[s ps] buckets IH]; csimpl; [done|].
  destruct (String.eqb s suffix); csimpl.
  - rewrite <- (assoc_L (++)). csimpl. by rewrite <- Permutation_middle.
  - rewrite IH. by rewrite <- Permutation_middle.
Qed.

Lemma bucket_append_keys suffix p buckets :
  (bucket_append suffix p buckets).*1
  = if decide (suffix ∈ buckets.*1) then buckets.*1
    else buckets.*1 ++ [suffix].
Proof.
  induction buckets as [|[s ps] buckets IH]; csimpl.
  - by destruct (decide (suffix ∈ [])) as [?%elem_of_nil|].
  - destruct (String.eqb_spec s suffix) as [->|Hne]; csimpl.
    + rewrite decide_True; [done|left].
    + rewrite IH. destruct (decide (suffix ∈ buckets.*1)) as [Hin|Hin].
      * rewrite decide_True; [done|by right].
      * rewrite decide_False; [done|].
        intros [?|?]%elem_of_cons; [by destruct Hne|done].
Qed.

Lemma file_away_keys_NoDup buckets p :
  NoDup buckets.*1 → NoDup (file_away buckets p).*1.
Proof.
  intros Hnd. unfold file_away. destruct (bucket_of p) as [s|]; [|done].
  rewrite bucket_append_keys. destruct (decide (s ∈ buckets.*1)); [done|].
  apply NoDup_app. split; [done|]. split; [|apply NoDup_singleton].
  intros x Hx ->%list_elem_of_singleton. done.
Qed.

Lemma collect_keys_NoDup names buckets :
  NoDup buckets.*1 → NoDup (foldl file_away buckets names).*1.
Proof.
  revert buckets. induction names as [|p names IH]; intros buckets Hnd;
    [done|].
  csimpl. apply IH. by apply file_away_keys_NoDup.
Qed.

Lemma collect_concat names buckets :
  concat (foldl file_away buckets names).*2
  ≡ₚ filter (λ p, is_Some (bucket_of p)) names ++ concat buckets.*2.
Proof.
  revert buckets. induction names as [|p names IH]; intros buckets; [done|].
  csimpl. rewrite IH. rewrite filter_cons. unfold file_away.
  destruct (bucket_of p) as [s|] eqn:Hb.
  - rewrite decide_True by eauto. rewrite bucket_append_concat.
    by rewrite <- Permutation_middle.
  - by rewrite decide_False by (by intros [? ?]).
Qed.

Lemma collect_by_suffix_NoDup names :
  NoDup names →
  NoDup (collect_by_suffix names).*1
  ∧ NoDup (concat (collect_by_suffix names).*2)
  ∧ ∀ p, p ∈ concat (collect_by_suffix names).*2 → p ∈ names.
Proof.
  intros Hnd. unfold collect_by_suffix.
  split; [apply collect_keys_NoDup; constructor|].
  pose proof (collect_concat names []) as Hperm. csimpl in Hperm.
  rewrite app_nil_r in Hperm. split.
  - rewrite Hperm. by apply NoDup_filter.
  - intros p Hp. rewrite Hperm in Hp.
    by apply list_elem_of_filter in Hp as [_ Hp].
Qed.

(** Every file of a bucket ends with the bucket's suffix. *)
Lemma bucket_append_suffix suffix p buckets :
  endswith p suffix = true →
  Forall (λ b, Forall (λ q, endswith q b.1 = true) b.2) buckets →
  Forall (λ b, Forall (λ q, endswith q b.1 = true) b.2)
    (bucket_append suffix p buckets).
Proof.
  intros Hp. induction 1 as [|[s ps] buckets Hb Hall IH]; csimpl.
  - by repeat constructor.
  - destruct (String.eqb_spec s suffix) as [->|Hne].
    + constructor; [|done]. csimpl in *. apply Forall_app.
      split; [done|by repeat constructor].
    + by constructor.
Qed.

Lemma collect_by_suffix_suffix names :
  Forall (λ b, Forall (λ q, endswith q b.1 = true) b.2)
    (collect_by_suffix names).
Proof.
  unfold collect_by_suffix.
  assert (Hgen : ∀ buckets,
    Forall (λ b, Forall (λ q, endswith q b.1 = true) b.2) buckets →
    Forall (λ b, Forall (λ q, endswith q b.1 = true) b.2)
      (foldl file_away buckets names)).
  { induction names as [|p names IH]; intros buckets Hb; [done|].
    csimpl. apply IH. unfold file_away.
    destruct (bucket_of p) as [s|] eqn:Hs; [|done].
    apply bucket_append_suffix; [|done].
    unfold bucket_of in Hs. by apply List.find_some in Hs as [_ Hs]. }
  apply Hgen. constructor.
Qed.

Lemma elem_of_concat (p : string) (ls : list (list string)) :
  p ∈ concat ls ↔ ∃ l, p ∈ l ∧ l ∈ ls.
Proof.
  rewrite list_elem_of_In, in_concat. split.
  - intros (l & Hl & Hp). exists l. by rewrite !list_elem_of_In.
  - intros (l & Hp & Hl). exists l. by rewrite <- !list_elem_of_In.
Qed.

(** *** [remove_duplicates] *)

Lemma remove_duplicates_frame buckets dir p :
  p ∉ concat buckets.*2 →
  Dir.lookup p (remove_duplicates buckets dir).2 = Dir.lookup p dir.
Proof.
  revert dir. induction buckets as [|[s ps] buckets IH]; intros dir Hp;
    [done|].
  csimpl in Hp. apply not_elem_of_app in Hp as [Hps Hrest].
  destruct ps as [|first [|second more]]; cbn [remove_duplicates];
    try by apply IH.
  set (keep := max_by _ _ _).
  set (to_remove := filter _ _).
  destruct (remove_duplicates buckets _) as [removed dir2] eqn:Hrd.
  csimpl. change dir2 with (removed, dir2).2. rewrite <- Hrd.
  rewrite IH by done. rewrite lookup_unlink_all.
  rewrite decide_False; [done|].
  intros Hin. apply Hps. subst to_remove.
  by apply list_elem_of_filter in Hin as [_ Hin].
Qed.

Lemma remove_duplicates_reported buckets dir suffix to_remove :
  (suffix, to_remove) ∈ (remove_duplicates buckets dir).1 →
  ∃ paths, (suffix, paths) ∈ buckets ∧ (2 ≤ length paths)%nat.
Proof.
  revert dir. induction buckets as [|[s ps] buckets IH]; intros dir;
    [by intros ?%elem_of_nil|].
  assert (Hlater : ∀ dir',
    (suffix, to_remove) ∈ (remove_duplicates buckets dir').1 →
    ∃ paths, (suffix, paths) ∈ (s, ps) :: buckets ∧ (2 ≤ length paths)%nat).
  { intros dir' (paths & Hin & Hlen)%IH. exists paths. split; [by right|done]. }
  destruct ps as [|first [|second more]]; cbn [remove_duplicates];
    try by apply Hlater.
  set (dir1 := foldl _ _ _).
  destruct (remove_duplicates buckets dir1) as [removed dir2] eqn:Hrd.
  cbn [fst]. intros [Heq|Hin]%elem_of_cons.
  - injection Heq as -> _.
    exists (first :: second :: more). split; [left|simpl; lia].
  - apply (Hlater dir1). by rewrite Hrd.
Qed.

(** What the pass does to one bucket, read off the directory it started
    from. *)
Lemma remove_duplicates_bucket buckets dir suffix paths :
  NoDup (concat buckets.*2) →
  (suffix, paths) ∈ buckets →
  match paths with
  | first :: (_ :: _) as others =>
      let keep := max_by (size_key dir) first others in
      (∀ p, p ∈ paths →
         Dir.lookup p (remove_duplicates buckets dir).2
         = if decide (p = keep) then Dir.lookup p dir else None)
      ∧ (suffix, filter (λ p, p ≠ keep) paths)
        ∈ (remove_duplicates buckets dir).1
  | _ =>
      ∀ p, p ∈ paths →
        Dir.lookup p (remove_duplicates buckets dir).2 = Dir.lookup p dir
  end.
Proof.
  revert dir. induction buckets as [|[s ps] buckets IH]; intros dir Hnd Hin;
    [by apply elem_of_nil in Hin|].
  csimpl in Hnd. apply NoDup_app in Hnd as (Hps & Hdisj & Hrest).
  apply elem_of_cons in Hin as [[= <- <-]|Hin].
  - (* the bucket at the head of the dictionary *)
    destruct paths as [|first [|second more]].
    + by intros p ?%elem_of_nil.
    + intros p Hp. csimpl. apply remove_duplicates_frame. by apply Hdisj.
    + cbn [remove_duplicates].
      set (keep := max_by _ _ _).
      set (to_remove := filter _ _).
      destruct (remove_duplicates buckets _) as [removed dir2] eqn:Hrd.
      cbn [fst snd]. split; [|left].
      intros p Hp. change dir2 with (removed, dir2).2. rewrite <- Hrd.
      rewrite remove_duplicates_frame by by apply Hdisj.
      rewrite lookup_unlink_all. subst to_remove.
      destruct (decide (p = keep)) as [->|Hne].
      * rewrite decide_False; [done|].
        by intros [? _]%list_elem_of_filter.
      * rewrite decide_True; [done|]. by apply list_elem_of_filter.
  - (* a later bucket: the head bucket touches none of its files *)
    assert (Hfar : ∀ p, p ∈ paths → p ∉ ps).
    { intros p Hp Hps'. apply (Hdisj p Hps').
      apply elem_of_concat. exists paths. split; [done|].
      apply list_elem_of_fmap. by exists (suffix, paths). }
    destruct ps as [|first0 [|second0 more0]]; cbn [remove_duplicates];
      try by apply IH.
    set (keep0 := max_by _ _ _).
    set (to_remove := filter _ _).
    set (dir1 := foldl _ dir to_remove).
    destruct (remove_duplicates buckets dir1) as [removed dir2] eqn:Hrd.
    cbn [fst snd].
    assert (Hsame : ∀ p, p ∈ paths → Dir.lookup p dir1 = Dir.lookup p dir).
    { intros p Hp. subst dir1. rewrite lookup_unlink_all.
      rewrite decide_False; [done|]. subst to_remove.
      intros [_ Hp']%list_elem_of_filter. by apply (Hfar p). }
    specialize (IH dir1 Hrest Hin). rewrite Hrd in IH. cbn [fst snd] in IH.
    destruct paths as [|first [|second more]].
    + by intros p ?%elem_of_nil.
    + intros p Hp. by rewrite IH, Hsame.
    + cbv zeta in IH.
      assert (Hkeep : max_by (size_key dir1) first (second :: more)
                      = max_by (size_key dir) first (second :: more)).
      { apply max_by_ext. intros p Hp. unfold size_key. by rewrite Hsame. }
      rewrite Hkeep in IH. destruct IH as [IHl IHr]. split.
      * intros p Hp. rewrite IHl by done. by rewrite Hsame.
      * by right.
Qed.

End BucketFacts.

Section DedupTheorems.
Import PyStr Auditor.

Lemma dedup_pass_unfold d :
  (dedup_pass d).1
  = (remove_duplicates (collect_by_suffix (files d).*1) (files d)).1
  ∧ files (dedup_pass d).2
    = (remove_duplicates (collect_by_suffix (files d).*1) (files d)).2.
Proof.
  unfold dedup_pass.
  by destruct (remove_duplicates (collect_by_suffix (files d).*1) (files d)).
Qed.

(** C7. In a product directory (one file per name), every bucket of
    [collect_by_suffix] holds files of the directory that end with the
    bucket's suffix.  For a bucket of two or more files the pass leaves
    exactly one of them, whose size is the largest of the bucket, deletes
    all the others and reports them under the suffix; a bucket of at most
    one file keeps its file and is not reported. *)
Theorem dedup_keeps_largest d suffix paths :
  NoDup (files d).*1 →
  (suffix, paths) ∈ collect_by_suffix (files d).*1 →
  let removed := (dedup_pass d).1 in
  let d' := (dedup_pass d).2 in
  Forall (λ p, endswith p suffix = true
               ∧ is_Some (Dir.lookup p (files d))) paths
  ∧ ((2 ≤ length paths)%nat →
     ∃ keep f to_remove,
       keep ∈ paths
       ∧ Dir.lookup keep (files d) = Some f
       ∧ (∀ p g, p ∈ paths → Dir.lookup p (files d) = Some g →
                 st_size g ≤ st_size f)
       ∧ (∀ p, p ∈ paths →
            Dir.lookup p (files d')
            = if decide (p = keep) then Some f else None)
       ∧ (suffix, to_remove) ∈ removed
       ∧ to_remove = filter (λ p, p ≠ keep) paths
       ∧ S (length to_remove) = length paths)
  ∧ ((length paths ≤ 1)%nat →
     (∀ p, p ∈ paths → Dir.lookup p (files d') = Dir.lookup p (files d))
     ∧ suffix ∉ removed.*1).
Proof.
  intros Hnames Hin removed d'.
  destruct (dedup_pass_unfold d) as [Hremoved Hfiles].
  subst removed d'. rewrite Hremoved, Hfiles. clear Hremoved Hfiles.
  destruct (collect_by_suffix_NoDup _ Hnames) as (Hkeys & Hall & Hsub).
  set (buckets := collect_by_suffix (files d).*1) in *.
  assert (Hmem : ∀ p, p ∈ paths → p ∈ concat buckets.*2).
  { intros p Hp. apply elem_of_concat. exists paths. split; [done|].
    apply list_elem_of_fmap. by exists (suffix, paths). }
  assert (Hpaths : NoDup paths).
  { clear -Hall Hin. induction buckets as [|[s ps] buckets IH];
      [by apply elem_of_nil in Hin|].
    csimpl in Hall. apply NoDup_app in Hall as (Hps & _ & Hrest).
    apply elem_of_cons in Hin as [[= -> ->]|Hin]; [done|by apply IH]. }
  assert (Hfile : ∀ p, p ∈ paths → is_Some (Dir.lookup p (files d))).
  { intros p Hp. apply lookup_is_Some, Hsub, Hmem, Hp. }
  pose proof (remove_duplicates_bucket buckets (files d) suffix paths
                Hall Hin) as Hbucket.
  split; [|split].
  - apply Forall_forall. intros p Hp. split; [|by apply Hfile].
    pose proof (collect_by_suffix_suffix (files d).*1) as Hsuf.
    rewrite Forall_forall in Hsuf. specialize (Hsuf _ Hin).
    rewrite Forall_forall in Hsuf. by apply Hsuf.
  - intros Hlen. destruct paths as [|first [|second more]];
      [simpl in Hlen; lia|simpl in Hlen; lia|].
    cbv zeta in Hbucket. destruct Hbucket as [Hlookup Hreported].
    set (keep := max_by (size_key (files d)) first (second :: more)) in *.
    assert (Hkeep : keep ∈ first :: second :: more)
      by apply max_by_elem_of.
    destruct (Hfile keep Hkeep) as [f Hf].
    exists keep, f, (filter (λ p, p ≠ keep) (first :: second :: more)).
    split; [done|]. split; [done|]. split; [|split; [|split; [done|split]]].
    + intros p g Hp Hg.
      pose proof (max_by_upper (size_key (files d)) first (second :: more)
                    p Hp) as Hle.
      fold keep in Hle. unfold size_key in Hle. by rewrite Hg, Hf in Hle.
    + intros p Hp. rewrite Hlookup by done.
      destruct (decide (p = keep)) as [->|]; done.
    + done.
    + by apply filter_ne_length.
  - intros Hlen.
    assert (Hkept : ∀ p, p ∈ paths →
              Dir.lookup p (remove_duplicates buckets (files d)).2
              = Dir.lookup p (files d)).
    { destruct paths as [|first [|second more]]; [done|done|].
      simpl in Hlen. lia. }
    split; [done|].
    intros ((s & to_remove) & Hs & Hrep)%list_elem_of_fmap.
    simpl in Hs. subst s.
    apply remove_duplicates_reported in Hrep as (paths' & Hin' & Hlen').
    assert (paths' = paths); [|subst; lia].
    clear -Hkeys Hin Hin'. induction buckets as [|[s ps] buckets IH];
      [by apply elem_of_nil in Hin|].
    csimpl in Hkeys. apply NoDup_cons in Hkeys as [Hs Hkeys].
    apply elem_of_cons in Hin as [Heq|Hin];
      apply elem_of_cons in Hin' as [Heq'|Hin'].
    + congruence.
    + injection Heq as -> ->. destruct Hs.
      apply list_elem_of_fmap. by exists (s, paths').
    + injection Heq' as -> ->. destruct Hs.
      apply list_elem_of_fmap. by exists (s, paths).
    + by apply IH.
Qed.

End DedupTheorems.

Lemma dedup_keeps_largest_witness :
  ∃ keep f,
    Dir.lookup keep (files (Auditor.dedup_pass scenario_c).2) = Some f
    ∧ 3000 ≤ st_size f
    ∧ ("_Catalog.pdf", ["X_Catalog.pdf"]) ∈ (Auditor.dedup_pass scenario_c).1.
Proof.
  destruct (dedup_keeps_largest scenario_c "_Catalog.pdf"
              ["X_Catalog.pdf"; "old_X_Catalog.pdf"]) as (_ & Hmany & _).
  - apply (bool_decide_unpack _). vm_compute. exact I.
  - vm_compute. left.
  - destruct Hmany as (keep & f & to_remove & Hkeep & Hf & Hmax & Hleft
                       & Hrep & Hrem & _).
    + simpl. lia.
    + exists keep, f. split; [|split].
      * rewrite (Hleft keep Hkeep). by rewrite decide_True.
      * apply (Hmax "old_X_Catalog.pdf" (File 3000 (Some "%PDF") None)).
        -- right. left.
        -- reflexivity.
      * assert (Hwhich : keep = "old_X_Catalog.pdf").
        { apply elem_of_cons in Hkeep as [->|Hkeep].
          - vm_compute in Hf. injection Hf as <-.
            specialize (Hmax "old_X_Catalog.pdf"
                          (File 3000 (Some "%PDF") None)).
            cbn in Hmax. assert (3000 ≤ 500); [|lia].
            apply Hmax; [right; left|reflexivity].
          - apply elem_of_cons in Hkeep as [->|Hkeep]; [done|].
            by apply elem_of_nil in Hkeep. }
        subst keep. rewrite Hrem in Hrep. exact Hrep.
Defined.

(** ** The acquisition loop *)

Section AcquisitionTheorems.
Import Crawler.
Variable zip_size : list (string * file) → Z.

Lemma attempt_body_Next overwrite context a w w' :
  attempt_body zip_size overwrite context a w = (Next, w') →
  is_Some (output_root w' !! code context)
  ∧ required_files_present_at (code context) w' = false.
Proof.
  unfold attempt_body.
  destruct (row_found a); cbn [negb]; [|done].
  destruct (row_found_again a); cbn [negb]; [|done].
  destruct (documents a) as [downloads|e]; [|done].
  match goal with
  | |- context [output_root ?w0 !! code context] =>
      destruct (output_root w0 !! code context) as [d|] eqn:Hd; [|done];
      set (w1 := w0) in *
  end.
  destruct (transform_downloads zip_size context downloads d) as [r d'].
  destruct r as [[]|e]; [|done].
  destruct (required_files_present_at (code context)
              (on_dest (code context) (λ _, d') w1)) eqn:Hcheck; [done|].
  intros [= <-]. split; [|done].
  unfold on_dest. cbn [output_root]. rewrite lookup_alter_eq, Hd. by eexists.
Qed.

(** C1, what the code does.  When the directory is not skipped and both
    attempts run to the completeness check and fail it, [process_product]
    returns [True] and the product directory is still there, failing the
    check: the statements [cleanup_dest_dir] and [return False] that
    follow [return True] are never reached. *)
Theorem process_product_exhausted overwrite context site w w' :
  bool_decide (is_Some (output_root w !! code context)) && negb overwrite
  = false →
  attempts zip_size overwrite context [site.1; site.2]
    (ensure_dirs (code context) w) = (Next, w') →
  process_product zip_size overwrite context site w = (Returned true, w')
  ∧ is_Some (output_root w' !! code context)
  ∧ required_files_present_at (code context) w' = false.
Proof.
  intros Hskip Hrun. unfold process_product. rewrite Hskip, Hrun.
  cbn [attempts] in Hrun.
  destruct (attempt_body zip_size overwrite context site.1
              (ensure_dirs (code context) w)) as [[| |b|e] w1]; try done.
  destruct (attempt_body zip_size overwrite context site.2 w1)
    as [[| |b|e] w2] eqn:Hsecond; try done.
  injection Hrun as <-.
  destruct (attempt_body_Next _ _ _ _ _ Hsecond) as [Hdir Hcheck].
  by rewrite Hcheck.
Qed.

(** C10. With the overwrite flag unset, a product whose directory exists
    is skipped: the result is [False], the output root is the one found
    and no call to the browser layer is made. *)
Theorem process_product_skips_existing context site w :
  is_Some (output_root w !! code context) →
  process_product zip_size false context site w = (Returned false, w).
Proof.
  intros Hdir. unfold process_product.
  by rewrite bool_decide_eq_true_2.
Qed.

End AcquisitionTheorems.

Lemma process_product_exhausted_witness :
  ∃ w',
    Crawler.process_product stored_size false xyz (catalog_only, catalog_only)
      fresh_world = (Returned true, w')
    ∧ Crawler.output_root w' !! "XYZ"
      = Some {| files := [("XYZ_Catalog.pdf", File 2048 (Some "%PDF") None)];
                images := Some [("XYZ.png", File 5120 (Some "?PNG") None)] |}.
Proof.
  destruct (Crawler.attempts stored_size false xyz [catalog_only; catalog_only]
              (Crawler.ensure_dirs "XYZ" fresh_world)) as [fl w'] eqn:Hrun.
  assert (Hfl : fl = Crawler.Next).
  { apply (f_equal fst) in Hrun. vm_compute in Hrun. congruence. }
  subst fl.
  destruct (process_product_exhausted stored_size false xyz
              (catalog_only, catalog_only) fresh_world w') as (Hret & _ & _).
  - vm_compute. reflexivity.
  - exact Hrun.
  - exists w'. split; [exact Hret|].
    apply (f_equal snd) in Hrun. cbn [snd] in Hrun. subst w'.
    vm_compute. reflexivity.
Defined.

Lemma process_product_skips_existing_witness :
  Crawler.process_product stored_size false xyz (catalog_only, catalog_only)
    (Crawler.World {[ "XYZ" := scenario_c ]} [])
  = (Returned false, Crawler.World {[ "XYZ" := scenario_c ]} []).
Proof.
  apply process_product_skips_existing.
  exists scenario_c. vm_compute. reflexivity.
Defined.

(** ** Scenarios A and B of the specification *)

Definition scenario_a : product_dir :=
  {| files :=
       [ ("ABC-100_Catalog.pdf", File 2048 (Some "%PDF") None);
         ("ABC-100_Dimension.pdf", File 1536 (Some "%PDF") None);
         ("ABC-100_DXF.zip",
          File 1800 (Some Crawler.ZIP_MAGIC)
            (Some [ ("foo.dxf", File 1500 (Some "  0 ") None);
                    ("readme.txt", File 80 (Some "Read") None) ])) ];
     images := Some [("ABC-100.png", File 5120 (Some "?PNG") None)] |}.

Example scenario_a_complete :
  Crawler._required_files_present "ABC-100" scenario_a = true.
Proof. vm_compute. reflexivity. Qed.

Example scenario_a_sanitized :
  (Sanitizer.clean_zip
     (Some [ ("foo.dxf", File 1500 (Some "  0 ") None);
             ("readme.txt", File 80 (Some "Read") None) ]) "dxf").1
  = (true, ["foo.dxf"]).
Proof. vm_compute. reflexivity. Qed.

Example scenario_b_incomplete :
  Crawler._required_files_present "ABC-100"
    (ProductDir (take 2 (files scenario_a)) (images scenario_a)) = false.
Proof. vm_compute. reflexivity. Qed.

(** ** A remark on the manual

    [download_product_manual] writes what the session fetch returns
    straight to [<code>_Manual.pdf]; it does not go through
    [distribute_file], so no signature is looked at on that path.  The
    completeness check looks at the signature afterwards. *)

Example download_product_manual_unchecked :
  let a := {| Crawler.row_found := true;
              Crawler.image := None;
              Crawler.manual := Some (File 1200 (Some "<htm") None);
              Crawler.row_found_again := true;
              Crawler.documents := Returned [] |} in
  let w := Crawler.download_product_manual false xyz a
             (Crawler.World {[ "XYZ" := empty_dir ]} []) in
  (λ d, Dir.lookup "XYZ_Manual.pdf" (files d)) <$> Crawler.output_root w !! "XYZ"
  = Some (Some (File 1200 (Some "<htm") None))
  ∧ Crawler.required_files_present_at "XYZ" w = false.
Proof. vm_compute. split; reflexivity. Qed.

(* ================================================================== *)
(** * Part III: further properties of the code *)
(* ================================================================== *)

(** ** What promotion writes *)

Section PromotionFacts.
Import PyStr Crawler.
Variable zip_size : list (string * file) → Z.

Lemma write_names n f l :
  (Dir.write n f l).*1 = if decide (n ∈ l.*1) then l.*1 else l.*1 ++ [n].
Proof.
  induction l as [|[m g] l IH]; csimpl.
  - by destruct (decide (n ∈ [])) as [?%elem_of_nil|].
  - destruct (String.eqb_spec m n) as [->|Hne]; csimpl.
    + rewrite decide_True; [done|left].
    + rewrite IH. destruct (decide (n ∈ l.*1)) as [Hin|Hin].
      * rewrite decide_True; [done|by right].
      * rewrite decide_False; [done|].
        intros [?|?]%elem_of_cons; [by destruct Hne|done].
Qed.

Lemma write_NoDup n f l : NoDup l.*1 → NoDup (Dir.write n f l).*1.
Proof.
  intros Hnd. rewrite write_names. destruct (decide (n ∈ l.*1)); [done|].
  apply NoDup_app. split; [done|]. split; [|apply NoDup_singleton].
  by intros x Hx ->%list_elem_of_singleton.
Qed.

Lemma write_absent n f l :
  Dir.lookup n l = None → Dir.write n f l = l ++ [(n, f)].
Proof.
  induction l as [|[m g] l IH]; simpl; [done|].
  destruct (String.eqb m n); [done|]. intros H. by rewrite IH.
Qed.

Lemma last_char_app s t : t ≠ "" → last_char (s +:+ t) = last_char t.
Proof.
  intros Ht. induction s as [|c s IH]; [done|].
  simpl. rewrite IH. destruct (s +:+ t) eqn:Hst; [|done].
  destruct s; [by destruct t|done].
Qed.

Lemma marker_not_canonical product_code :
  ".complete" ∉ canonical_names product_code.
Proof.
  unfold canonical_names. intros Hin.
  repeat (apply elem_of_cons in Hin as [Hin|Hin];
          [apply (f_equal last_char) in Hin;
           rewrite last_char_app in Hin by done; discriminate Hin|]).
  by apply elem_of_nil in Hin.
Qed.

(** The name a classified file is written under is a canonical one. *)
Lemma target_canonical product_code c :
  product_code +:+ (Spec.slot c).1 +:+ (Spec.slot c).2
    ∈ canonical_names product_code
  ∧ ((Spec.slot c).2 = ".zip" →
     product_code +:+ (Spec.slot c).1 +:+ ".zip"
       ∈ canonical_names product_code).
Proof.
  unfold canonical_names.
  destruct c; cbn [Spec.slot fst snd String.append];
    (split; [|intros Hz; try discriminate Hz]);
    repeat first [apply list_elem_of_here | apply list_elem_of_further].
Qed.

Lemma kept_by_refl product_code d : kept_by product_code d d.
Proof. by repeat split. Qed.

Lemma kept_by_trans product_code d1 d2 d3 :
  kept_by product_code d1 d2 → kept_by product_code d2 d3 →
  kept_by product_code d1 d3.
Proof.
  intros (Hi1 & Hf1 & Hn1) (Hi2 & Hf2 & Hn2). split; [congruence|].
  split; [|auto]. intros n Hn. by rewrite Hf2, Hf1.
Qed.

Lemma kept_by_put product_code n f d :
  n ∈ canonical_names product_code →
  kept_by product_code d (Dir.put_file n f d).
Proof.
  intros Hn. split; [done|]. split.
  - intros m Hm. cbn [Dir.put_file files]. rewrite lookup_write.
    destruct (String.eqb_spec n m) as [->|]; done.
  - apply write_NoDup.
Qed.

Lemma distribute_file_kept file_path f context d :
  kept_by (code context) d (distribute_file zip_size file_path f context d).2.
Proof.
  unfold distribute_file.
  destruct (suffix_entry_slot file_path context) as [->|(k & c & ->)];
    [apply kept_by_refl|].
  destruct (target_canonical (code context) c) as [Hpdf Hzip].
  destruct (_ && _); [apply kept_by_refl|].
  destruct (String.eqb_spec (Spec.slot c).2 ".zip") as [Hz|_].
  - specialize (Hzip Hz). case_bool_decide.
    + unfold copy. destruct (head f); [by apply kept_by_put|apply kept_by_refl].
    + destruct (head f); [by apply kept_by_put|apply kept_by_refl].
  - unfold copy. destruct (head f); [by apply kept_by_put|apply kept_by_refl].
Qed.

Lemma distribute_all_kept raw context d :
  kept_by (code context) d (distribute_all zip_size raw context d).2.
Proof.
  revert d. induction raw as [|[file_path f] raw IH]; intros d;
    [apply kept_by_refl|].
  cbn [distribute_all].
  pose proof (distribute_file_kept file_path f context d) as Hstep.
  destruct (distribute_file zip_size file_path f context d) as [[[]|e] d'];
    [|exact Hstep].
  eapply kept_by_trans; [exact Hstep|apply IH].
Qed.

Lemma process_zip_kept zip_path f context d :
  kept_by (code context) d (process_zip zip_size zip_path f context d).2.
Proof.
  unfold process_zip. destruct (negb _); [apply kept_by_refl|].
  destruct (zip_members f); [apply distribute_all_kept|apply kept_by_refl].
Qed.

Lemma transform_downloads_kept context downloads d :
  kept_by (code context) d (transform_downloads zip_size context downloads d).2.
Proof.
  revert d. induction downloads as [|[download f] downloads IH]; intros d;
    [apply kept_by_refl|].
  cbn [transform_downloads].
  assert (Hstep : kept_by (code context) d
            (if String.eqb (lower (PyPath.suffix download)) ".zip"
             then process_zip zip_size download f context d
             else distribute_file zip_size download f context d).2).
  { destruct (String.eqb _ _);
      [apply process_zip_kept|apply distribute_file_kept]. }
  destruct (if String.eqb (lower (PyPath.suffix download)) ".zip"
            then process_zip zip_size download f context d
            else distribute_file zip_size download f context d)
    as [[[]|e] d']; [|exact Hstep].
  eapply kept_by_trans; [exact Hstep|apply IH].
Qed.

(** X1. Whatever is downloaded and however the promotion ends, normally or
    by an exception, [transform_downloads] leaves [Images/] alone, changes
    no file other than the six canonical names of the product, and keeps
    the names of the directory distinct. *)
Theorem transform_downloads_frame context downloads d :
  let d' := (transform_downloads zip_size context downloads d).2 in
  images d' = images d
  ∧ (∀ n, n ∉ canonical_names (code context) →
          Dir.lookup n (files d') = Dir.lookup n (files d))
  ∧ (NoDup (files d).*1 → NoDup (files d').*1).
Proof. exact (transform_downloads_kept context downloads d). Qed.

End PromotionFacts.

Lemma transform_downloads_frame_witness :
  Dir.lookup ".complete"
    (files (Crawler.transform_downloads stored_size xyz
              [ ("download.zip",
                 File 9000 (Some Crawler.ZIP_MAGIC)
                   (Some [("XYZ_catalog.pdf", File 2048 (Some "%PDF") None)])) ]
              (Dir.put_file ".complete" (File 2 (Some "ok") None) empty_dir)).2)
  = Some (File 2 (Some "ok") None).
Proof.
  destruct (transform_downloads_frame stored_size xyz
              [ ("download.zip",
                 File 9000 (Some Crawler.ZIP_MAGIC)
                   (Some [("XYZ_catalog.pdf", File 2048 (Some "%PDF") None)])) ]
              (Dir.put_file ".complete" (File 2 (Some "ok") None) empty_dir))
    as (_ & Hframe & _).
  rewrite Hframe; [reflexivity|].
  intros Hin. apply (bool_decide_pack _) in Hin. vm_compute in Hin.
  exact (False_ind _ Hin).
Defined.

(** ** The acquisition loop, continued *)

Section AcquisitionFacts.
Import PyStr Crawler.
Variable zip_size : list (string * file) → Z.

(** *** Other products *)

Lemma attempt_body_other overwrite context a w other :
  other ≠ code context →
  output_root (attempt_body zip_size overwrite context a w).2 !! other
  = output_root w !! other.
Proof.
  intros Hne. unfold attempt_body.
  assert (Himg : ∀ w0, output_root (download_product_image context a w0) !! other
                       = output_root w0 !! other).
  { intros w0. unfold download_product_image.
    destruct (image a) as [[ext f]|]; [|done].
    cbn [on_dest log output_root]. by rewrite lookup_alter_ne. }
  assert (Hman : ∀ w0, output_root (download_product_manual overwrite context
                                      a w0) !! other
                       = output_root w0 !! other).
  { intros w0. unfold download_product_manual.
    destruct (_ && _); [done|]. destruct (manual a); [|done].
    cbn [on_dest log output_root]. by rewrite lookup_alter_ne. }
  destruct (row_found a); cbn [negb snd];
    [|cbn [cleanup_dest_dir log output_root]; by rewrite lookup_delete_ne].
  destruct (row_found_again a); cbn [negb snd].
  2:{ cbn [cleanup_dest_dir log output_root].
      rewrite lookup_delete_ne by done. by rewrite Hman, Himg. }
  destruct (documents a) as [downloads|e]; cbn [snd log output_root];
    [|by rewrite Hman, Himg].
  match goal with
  | |- context [match output_root ?w0 !! code context with _ => _ end] =>
      destruct (output_root w0 !! code context) as [d|] eqn:Hd
  end; [|cbn [snd log output_root]; by rewrite Hman, Himg].
  destruct (transform_downloads zip_size context downloads d) as [r d'].
  assert (Hon : ∀ w0 g, output_root (on_dest (code context) g w0) !! other
                        = output_root w0 !! other).
  { intros w0 g. cbn [on_dest output_root]. by rewrite lookup_alter_ne. }
  destruct r as [[]|e]; [destruct (required_files_present_at _ _)|];
    cbn [snd]; rewrite Hon; cbn [log output_root]; by rewrite Hman, Himg.
Qed.

Lemma attempts_other overwrite context site w other :
  other ≠ code context →
  output_root (attempts zip_size overwrite context site w).2 !! other
  = output_root w !! other.
Proof.
  intros Hne. revert w. induction site as [|a site IH]; intros w; [done|].
  cbn [attempts].
  pose proof (attempt_body_other overwrite context a w other Hne) as Hstep.
  destruct (attempt_body zip_size overwrite context a w) as [[| |b|e] w'];
    cbn [snd] in *; try done.
  by rewrite IH.
Qed.

Lemma process_product_other overwrite context site w other :
  other ≠ code context →
  output_root (process_product zip_size overwrite context site w).2 !! other
  = output_root w !! other.
Proof.
  intros Hne. unfold process_product.
  destruct (_ && _); [done|].
  pose proof (attempts_other overwrite context [site.1; site.2]
                (ensure_dirs (code context) w) other Hne) as Hrun.
  assert (Hens : output_root (ensure_dirs (code context) w) !! other
                 = output_root w !! other).
  { cbn [ensure_dirs output_root]. by rewrite lookup_insert_ne. }
  rewrite Hens in Hrun.
  destruct (attempts zip_size overwrite context [site.1; site.2]
              (ensure_dirs (code context) w)) as [[| |b|e] w'];
    cbn [snd] in *; try done.
  all: destruct (required_files_present_at (code context) w'); [|done].
  all: cbn [on_dest output_root]; by rewrite lookup_alter_ne.
Qed.

(** X2. For a product code that names a directory directly under the
    output root (not empty, not [.] or [..] and without separator),
    [process_product] works on the directory of its own product only: the
    directory of every other product code is afterwards what it was
    before, whatever the site answers and however the call ends. *)
Theorem process_product_other_products overwrite context site w other :
  child_name (code context) →
  other ≠ code context →
  output_root (process_product zip_size overwrite context site w).2 !! other
  = output_root w !! other.
Proof. intros _. apply process_product_other. Qed.

End AcquisitionFacts.

Section AcquisitionOutcomes.
Import PyStr Crawler.
Variable zip_size : list (string * file) → Z.

(** *** The marker and the directory through one attempt *)

Lemma marker_at_log product_code es w :
  marker_at product_code (log es w) = marker_at product_code w.
Proof. done. Qed.

Lemma marker_at_on_dest product_code g w :
  (∀ d, output_root w !! product_code = Some d →
        Dir.lookup ".complete" (files (g d))
        = Dir.lookup ".complete" (files d)) →
  marker_at product_code (on_dest product_code g w) = marker_at product_code w.
Proof.
  intros Hg. unfold marker_at. cbn [on_dest output_root].
  rewrite lookup_alter_eq.
  destruct (output_root w !! product_code) as [d|] eqn:Hd; [|done].
  simpl. by apply Hg.
Qed.

Lemma dir_on_dest product_code g w :
  is_Some (output_root (on_dest product_code g w) !! product_code)
  ↔ is_Some (output_root w !! product_code).
Proof.
  cbn [on_dest output_root]. rewrite lookup_alter_eq.
  by rewrite fmap_is_Some.
Qed.

Lemma marker_at_image context a w :
  marker_at (code context) (download_product_image context a w)
  = marker_at (code context) w
  ∧ (is_Some (output_root (download_product_image context a w) !! code context)
     ↔ is_Some (output_root w !! code context)).
Proof.
  unfold download_product_image. destruct (image a) as [[ext f]|]; [|done].
  split; [|by rewrite dir_on_dest].
  by rewrite marker_at_on_dest.
Qed.

Lemma marker_at_manual overwrite context a w :
  marker_at (code context) (download_product_manual overwrite context a w)
  = marker_at (code context) w
  ∧ (is_Some (output_root (download_product_manual overwrite context a w)
              !! code context)
     ↔ is_Some (output_root w !! code context)).
Proof.
  unfold download_product_manual. destruct (_ && _); [done|].
  destruct (manual a) as [f|]; [|done].
  split; [|by rewrite dir_on_dest].
  rewrite marker_at_on_dest; [done|]. intros d _.
  cbn [Dir.put_file files]. rewrite lookup_write.
  destruct (String.eqb_spec (code context +:+ "_Manual.pdf") ".complete")
    as [Heq|]; [|done].
  destruct (marker_not_canonical (code context)). rewrite <- Heq.
  unfold canonical_names. do 3 right. left.
Qed.

(** One attempt either ends the call with [False] and no directory, or
    keeps the directory and its marker. *)
Lemma attempt_body_outcome overwrite context a w :
  let r := attempt_body zip_size overwrite context a w in
  match r.1 with
  | Return b => b = false ∧ output_root r.2 !! code context = None
  | _ =>
      marker_at (code context) r.2 = marker_at (code context) w
      ∧ (is_Some (output_root w !! code context) →
         is_Some (output_root r.2 !! code context))
  end.
Proof.
  cbv zeta. unfold attempt_body.
  destruct (row_found a); cbn [negb];
    [|cbn [fst snd cleanup_dest_dir output_root]; split; [done|];
      apply lookup_delete_eq].
  destruct (row_found_again a); cbn [negb];
    [|cbn [fst snd cleanup_dest_dir output_root]; split; [done|];
      apply lookup_delete_eq].
  set (w1 := log _ w).
  set (w2 := download_product_image context a w1).
  set (w3 := download_product_manual overwrite context a w2).
  set (w4 := log _ (log _ w3)).
  assert (Hm : marker_at (code context) w4 = marker_at (code context) w).
  { subst w4. rewrite !marker_at_log. subst w3.
    rewrite (proj1 (marker_at_manual _ _ _ _)). subst w2.
    by rewrite (proj1 (marker_at_image _ _ _)). }
  assert (Hd : is_Some (output_root w !! code context) →
               is_Some (output_root w4 !! code context)).
  { intros Hw. subst w4. cbn [log output_root]. subst w3.
    apply marker_at_manual. subst w2. by apply marker_at_image. }
  destruct (documents a) as [downloads|e]; [|exact (conj Hm Hd)].
  destruct (output_root w4 !! code context) as [d|] eqn:Hw4;
    [|cbn [fst snd]; rewrite Hw4; exact (conj Hm Hd)].
  pose proof (transform_downloads_kept zip_size context downloads d)
    as (_ & Hframe & _).
  destruct (transform_downloads zip_size context downloads d) as [r d'].
  cbn [snd] in Hframe.
  assert (Hm' : marker_at (code context) (on_dest (code context) (λ _, d') w4)
                = marker_at (code context) w).
  { rewrite marker_at_on_dest; [done|]. intros d0 Hd0.
    assert (d0 = d) as -> by congruence.
    apply Hframe, marker_not_canonical. }
  assert (Hd' : is_Some (output_root (on_dest (code context) (λ _, d') w4)
                         !! code context)).
  { apply dir_on_dest. by rewrite Hw4. }
  destruct r as [[]|e]; [destruct (required_files_present_at _ _)|];
    exact (conj Hm' (λ _, Hd')).
Qed.

Lemma attempts_outcome overwrite context site w :
  let r := attempts zip_size overwrite context site w in
  match r.1 with
  | Return b => b = false ∧ output_root r.2 !! code context = None
  | _ =>
      marker_at (code context) r.2 = marker_at (code context) w
      ∧ (is_Some (output_root w !! code context) →
         is_Some (output_root r.2 !! code context))
  end.
Proof.
  cbv zeta. revert w. induction site as [|a site IH]; intros w; [done|].
  cbn [attempts].
  pose proof (attempt_body_outcome overwrite context a w) as Hstep.
  cbv zeta in Hstep.
  destruct (attempt_body zip_size overwrite context a w) as [[| |b|e] w'];
    cbn [fst snd] in *; try done.
  specialize (IH w').
  destruct (attempts zip_size overwrite context site w') as [[| |b|e] w''];
    cbn [fst snd] in *; try done.
  all: destruct Hstep as [Hm Hd], IH as [Hm' Hd'];
       split; [congruence|auto].
Qed.

Lemma ensure_dirs_outcome product_code w :
  marker_at product_code (ensure_dirs product_code w)
  = marker_at product_code w
  ∧ is_Some (output_root (ensure_dirs product_code w) !! product_code).
Proof.
  unfold marker_at. cbn [ensure_dirs output_root].
  rewrite lookup_insert_eq. split; [|by eexists].
  by destruct (output_root w !! product_code).
Qed.

(** Writing the marker into a directory that has none does not change what
    the completeness check sees. *)
Lemma required_files_present_marker product_code f d :
  Dir.lookup ".complete" (files d) = None →
  _required_files_present product_code (Dir.put_file ".complete" f d)
  = _required_files_present product_code d.
Proof.
  intros Hnone.
  assert (Hs : ∀ suffix, suffix ∈ required →
    suffix_ok product_code suffix (Dir.put_file ".complete" f d)
    = suffix_ok product_code suffix d).
  { intros suffix Hin. unfold suffix_ok, matching_files.
    cbn [Dir.put_file files].
    rewrite (write_absent _ _ _ Hnone), filter_app.
    replace (filter (λ e : string * file, endswith e.1 suffix)
               [(".complete", f)]) with (@nil (string * file));
      [by rewrite app_nil_r|].
    unfold required in Hin.
    repeat (apply elem_of_cons in Hin as [->|Hin]; [done|]).
    by apply elem_of_nil in Hin. }
  unfold _required_files_present, required in *. cbn [forallb].
  rewrite !Hs by (repeat first [apply list_elem_of_here
                               |apply list_elem_of_further]).
  done.
Qed.

(** X3. A call that is not skipped and finds the product row missing in
    its first attempt, before or after the image and manual requests,
    returns [False]; and whenever an unskipped call returns [False] the
    product directory is gone, also one that was there and complete before
    an overwriting run. *)
Theorem process_product_row_missing overwrite context site w :
  bool_decide (is_Some (output_root w !! code context)) && negb overwrite
  = false →
  let r := process_product zip_size overwrite context site w in
  (row_found site.1 = false ∨ row_found_again site.1 = false →
   r.1 = Returned false)
  ∧ (r.1 = Returned false → output_root r.2 !! code context = None).
Proof.
  intros Hskip. cbv zeta. unfold process_product. rewrite Hskip. split.
  - intros Hrow. cbn [attempts]. unfold attempt_body at 1.
    destruct (row_found site.1); cbn [negb]; [|done].
    destruct Hrow as [Hrow|Hrow]; [done|]. by rewrite Hrow.
  - pose proof (attempts_outcome overwrite context [site.1; site.2]
                  (ensure_dirs (code context) w)) as Hrun.
    cbv zeta in Hrun.
    destruct (attempts zip_size overwrite context [site.1; site.2]
                (ensure_dirs (code context) w)) as [[| |b|e] w'];
      cbn [fst snd] in *; try done.
    by destruct Hrun.
Qed.

(** X4. Starting from a product without marker, [.complete] is there after
    [process_product] exactly when the call returned [True] and the
    directory it leaves passes [_required_files_present]. *)
Theorem process_product_marker overwrite context site w :
  marker_at (code context) w = None →
  let r := process_product zip_size overwrite context site w in
  is_Some (marker_at (code context) r.2)
  ↔ r.1 = Returned true
    ∧ required_files_present_at (code context) r.2 = true.
Proof.
  intros Hnone. cbv zeta. unfold process_product.
  destruct (_ && _).
  { cbn [fst snd]. rewrite Hnone. split; [by intros [? ?]|by intros [? _]]. }
  pose proof (attempts_outcome overwrite context [site.1; site.2]
                (ensure_dirs (code context) w)) as Hrun.
  cbv zeta in Hrun.
  destruct (ensure_dirs_outcome (code context) w) as [Hens Hdir].
  rewrite Hens, Hnone in Hrun.
  assert (Hfall : ∀ w',
    marker_at (code context) w' = None →
    let w'' := if required_files_present_at (code context) w'
               then on_dest (code context)
                      (Dir.put_file ".complete" (File 2 (Some "ok") None)) w'
               else w' in
    is_Some (marker_at (code context) w'')
    ↔ Returned true = Returned true
      ∧ required_files_present_at (code context) w'' = true).
  { intros w' Hm. cbv zeta.
    destruct (required_files_present_at (code context) w') eqn:Hcheck.
    - unfold required_files_present_at, marker_at in *.
      cbn [on_dest output_root]. rewrite lookup_alter_eq.
      destruct (output_root w' !! code context) as [d|]; [|done].
      simpl in *. rewrite required_files_present_marker by done.
      cbn [Dir.put_file files]. rewrite lookup_write. simpl.
      split; [done|by eexists].
    - rewrite Hm, Hcheck. split; [by intros [? ?]|by intros [_ ?]]. }
  destruct (attempts zip_size overwrite context [site.1; site.2]
              (ensure_dirs (code context) w)) as [[| |b|e] w'];
    cbn [fst snd] in *.
  - apply Hfall, Hrun.
  - apply Hfall, Hrun.
  - destruct Hrun as [-> Hgone]. unfold marker_at. rewrite Hgone.
    split; [by intros [? ?]|by intros [? _]].
  - destruct Hrun as [-> _]. split; [by intros [? ?]|by intros [? _]].
Qed.

(** X5. A marker that is there before the call is there after it unless
    the call returned [False]: an overwriting run that ends with the check
    failing, or with an exception, leaves the old marker in place. *)
Theorem process_product_keeps_marker overwrite context site w :
  is_Some (marker_at (code context) w) →
  let r := process_product zip_size overwrite context site w in
  r.1 ≠ Returned false →
  is_Some (marker_at (code context) r.2).
Proof.
  intros Hm. cbv zeta. unfold process_product.
  destruct (_ && _); [done|].
  pose proof (attempts_outcome overwrite context [site.1; site.2]
                (ensure_dirs (code context) w)) as Hrun.
  cbv zeta in Hrun.
  destruct (ensure_dirs_outcome (code context) w) as [Hens Hdir].
  rewrite Hens in Hrun.
  assert (Hfall : ∀ w',
    marker_at (code context) w' = marker_at (code context) w →
    is_Some (marker_at (code context)
               (if required_files_present_at (code context) w'
                then on_dest (code context)
                       (Dir.put_file ".complete" (File 2 (Some "ok") None)) w'
                else w'))).
  { intros w' Hw'. destruct (required_files_present_at (code context) w');
      [|by rewrite Hw'].
    rewrite <- Hw' in Hm. unfold marker_at in *.
    cbn [on_dest output_root]. rewrite lookup_alter_eq.
    destruct (output_root w' !! code context) as [d|]; [|by destruct Hm].
    simpl. cbn [Dir.put_file files]. rewrite lookup_write. by eexists. }
  destruct (attempts zip_size overwrite context [site.1; site.2]
              (ensure_dirs (code context) w)) as [[| |b|e] w'];
    cbn [fst snd] in *.
  - intros _. apply Hfall, Hrun.
  - intros _. apply Hfall, Hrun.
  - destruct Hrun as [-> _]. done.
  - intros _. destruct Hrun as [-> _]. done.
Qed.

(** X6. Unless it returned [False], a call leaves a product directory
    behind, complete or not, and every later call without the overwrite
    flag skips the product: it returns [False] and changes nothing. *)
Theorem process_product_not_retried overwrite context site w site' :
  let r := process_product zip_size overwrite context site w in
  r.1 ≠ Returned false →
  is_Some (output_root r.2 !! code context)
  ∧ process_product zip_size false context site' r.2 = (Returned false, r.2).
Proof.
  cbv zeta. intros Hr.
  assert (Hdir : is_Some (output_root
                   (process_product zip_size overwrite context site w).2
                   !! code context)).
  { revert Hr. unfold process_product.
    destruct (_ && _); [done|].
    pose proof (attempts_outcome overwrite context [site.1; site.2]
                  (ensure_dirs (code context) w)) as Hrun.
    cbv zeta in Hrun.
    destruct (ensure_dirs_outcome (code context) w) as [_ Hdir].
    destruct (attempts zip_size overwrite context [site.1; site.2]
                (ensure_dirs (code context) w)) as [[| |b|e] w'];
      cbn [fst snd] in *.
    - intros _. destruct (required_files_present_at _ _);
        [apply dir_on_dest|]; by apply Hrun.
    - intros _. destruct (required_files_present_at _ _);
        [apply dir_on_dest|]; by apply Hrun.
    - by destruct Hrun as [-> _].
    - intros _. by apply Hrun. }
  split; [exact Hdir|].
  unfold process_product at 1. by rewrite bool_decide_eq_true_2.
Qed.

End AcquisitionOutcomes.

(** ** The completeness check, continued *)

Section ValidatorFacts.
Import PyStr Crawler.

Lemma suffix_ok_present product_code suffix d name f later :
  suffix_ok product_code suffix d = true →
  matching_files suffix d = (name, f) :: later →
  1000 ≤ st_size f
  ∧ format_check suffix f = true
  ∧ contains name product_code = true.
Proof.
  unfold suffix_ok, format_check. intros Hok Hm. rewrite Hm in Hok.
  destruct (st_size f <? 1000) eqn:Hsz; [done|]. apply Z.ltb_ge in Hsz.
  destruct (endswith suffix ".pdf"); simpl in *.
  - destruct (is_pdf f); simpl in *; [|done].
    by destruct (contains name product_code).
  - by destruct (contains name product_code).
Qed.

(** X7. STEP and Manual are optional only while they are absent: when the
    check passes and the directory has a file for one of them, the file
    the check examines has at least 1000 bytes, carries the product code in
    its name and, for the manual, starts with [%PDF]. *)
Theorem optional_files_checked product_code d suffix name f later :
  _required_files_present product_code d = true →
  suffix ∈ ["_STEP.zip"; "_Manual.pdf"] →
  matching_files suffix d = (name, f) :: later →
  1000 ≤ st_size f
  ∧ format_check suffix f = true
  ∧ contains name product_code = true.
Proof.
  unfold _required_files_present. intros [Hall _]%andb_true_iff Hsuffix Hm.
  rewrite forallb_forall in Hall.
  apply (suffix_ok_present product_code suffix d name f later); [|done].
  apply Hall. unfold required.
  repeat (apply elem_of_cons in Hsuffix as [->|Hsuffix]; [simpl; tauto|]).
  by apply elem_of_nil in Hsuffix.
Qed.

End ValidatorFacts.

(** ** The archive sanitizer, continued *)

Section SanitizerMore.
Import PyStr Sanitizer.
Context {D : Type}.
Implicit Types (entries : list (string * D)) (a : archive D).

Lemma copy_members_prefix (entries : list (string * Rewrite.member D)) tm :
  ∃ rest,
    PyPath.name <$> tm = (Rewrite.copy_members entries tm).1.*1 ++ rest
    ∧ ((Rewrite.copy_members entries tm).2 = None ↔ rest = []).
Proof.
  induction tm as [|m tm (rest & Hrest & Hnone)].
  - by exists [].
  - cbn [Rewrite.copy_members].
    destruct (zf_read entries m) as [[data|e]|];
      [|by exists (PyPath.name m :: (PyPath.name <$> tm))..].
    destruct (Rewrite.copy_members entries tm) as [out e].
    cbn [fst snd] in *. exists rest. csimpl. by rewrite Hrest.
Qed.

Lemma zf_read_written entries m :
  zf_read (Rewrite.written <$> entries) m
  = Rewrite.Readable <$> zf_read entries m.
Proof.
  induction entries as [|[n d] rest IH]; [done|].
  csimpl. rewrite IH. destruct (zf_read rest m); [done|].
  csimpl. by destruct (String.eqb n m).
Qed.

(** On an archive whose members can all be read, [Rewrite.clean_zip] is
    [Sanitizer.clean_zip], and the temporary archive is either not made
    or renamed. *)
Lemma clean_zip_readable entries mode :
  let r := clean_zip (Some entries) mode in
  Rewrite.clean_zip (Some (Rewrite.written <$> entries)) mode
  = Rewrite.Ending (Rewrite.Returns r.1.1 r.1.2)
      (match r.2 with
       | Some kept => Some (Rewrite.written <$> kept)
       | None => None
       end)
      (if r.1.1 then Rewrite.Renamed else Rewrite.Untouched).
Proof.
  cbv zeta. unfold Rewrite.clean_zip, clean_zip.
  assert (Hnames : (Rewrite.written <$> entries).*1 = entries.*1).
  { rewrite <- list_fmap_compose. by apply list_fmap_ext. }
  rewrite Hnames.
  set (matching := filter (λ m, is_target mode m) entries.*1).
  case_bool_decide as Hm; [done|].
  case_bool_decide as Hs; [|done].
  pose proof (zf_read_written entries) as Hread.
  assert (Hcopy : ∀ tm, tm ⊆ entries.*1 →
            Rewrite.copy_members (Rewrite.written <$> entries) tm
            = (rebuild entries tm, None)).
  { unfold rebuild. induction tm as [|m tm IH]; intros Hsub; [done|].
    cbn [Rewrite.copy_members omap list_omap]. rewrite Hread.
    destruct (zf_read_member entries m) as [d Hd]; [apply Hsub; left|].
    rewrite Hd. csimpl. rewrite IH; [done|].
    intros x Hx. apply Hsub. by right. }
  rewrite Hcopy by (by intros x [_ Hx]%list_elem_of_filter).
  done.
Qed.

(** X8. What [clean_zip] reports against what it leaves, for an archive
    that opens.  After [changed = True] the temporary archive has taken
    the place of the archive, and the archive holds exactly the kept
    names, all of the mode's kind: the base names of the matching members
    found.  After [changed = False] the archive is as it was found; the
    kept names are then the base names of all matching members, unless a
    member could not be read: then they are only the names copied before
    it, which are the members of the temporary archive left behind.
    When an exception leaves the call the archive is as it was found and
    a temporary archive is left. *)
Theorem clean_zip_kept (entries : list (string * Rewrite.member D)) mode :
  let r := Rewrite.clean_zip (Some entries) mode in
  let matching := filter (λ m, is_target mode m) entries.*1 in
  match Rewrite.ended r with
  | Rewrite.Returns true kept =>
      kept = PyPath.name <$> matching
      ∧ Rewrite.tmp_after r = Rewrite.Renamed
      ∧ ∃ out, Rewrite.zip_after r = Some (Rewrite.written <$> out)
               ∧ out.*1 = kept
               ∧ Forall (λ m, is_target mode m = true) out.*1
  | Rewrite.Returns false kept =>
      Rewrite.zip_after r = Some entries
      ∧ match Rewrite.tmp_after r with
        | Rewrite.Untouched => kept = PyPath.name <$> matching
        | Rewrite.LeftBehind out =>
            out.*1 = kept
            ∧ ∃ rest, rest ≠ [] ∧ PyPath.name <$> matching = kept ++ rest
        | Rewrite.Renamed => False
        end
  | Rewrite.Escapes =>
      Rewrite.zip_after r = Some entries
      ∧ ∃ out rest,
          Rewrite.tmp_after r = Rewrite.LeftBehind out ∧ rest ≠ []
          ∧ PyPath.name <$> matching = out.*1 ++ rest
  end.
Proof.
  cbv zeta. unfold Rewrite.clean_zip.
  set (matching := filter (λ m, is_target mode m) entries.*1).
  case_bool_decide as Hm.
  { cbn [Rewrite.ended Rewrite.zip_after Rewrite.tmp_after].
    by rewrite Hm. }
  case_bool_decide as Hs; [|done].
  destruct (copy_members_prefix entries matching) as (rest & Hrest & Hnone).
  destruct (Rewrite.copy_members entries matching) as [out [[]|]];
    cbn [fst snd Rewrite.ended Rewrite.zip_after Rewrite.tmp_after] in *.
  - split; [done|]. split; [done|]. exists rest. split; [|done].
    intros ->. discriminate (proj2 Hnone eq_refl).
  - split; [done|]. exists out, rest. split; [done|]. split; [|done].
    intros ->. discriminate (proj2 Hnone eq_refl).
  - assert (rest = []) as -> by by apply Hnone.
    rewrite app_nil_r in Hrest. split; [done|]. split; [done|].
    exists out. split; [done|]. split; [done|]. rewrite <- Hrest.
    apply Forall_fmap. eapply Forall_impl; [apply filter_targets_all|].
    intros m Ht. simpl. by rewrite is_target_name.
Qed.

End SanitizerMore.

(** X9. The archive [distribute_file] wraps around a bare file is never
    rewritten by [clean_zip]: the sanitizer keeps the file when its
    extension is one of the mode and reports nothing kept otherwise. *)
Theorem wrapped_file_sanitized zip_size file_path f mode :
  Sanitizer.clean_zip
    (zip_members (Crawler.make_archive zip_size (PyPath.name file_path) f))
    mode
  = ((false, if Sanitizer.is_target mode file_path
             then [PyPath.name file_path] else []),
     Some [(PyPath.name file_path, f)]).
Proof.
  cbn [Crawler.make_archive zip_members]. rewrite clean_zip_Some.
  cbn [fmap list_fmap fst]. rewrite filter_cons, filter_nil.
  rewrite is_target_name.
  destruct (Sanitizer.is_target mode file_path) eqn:Ht.
  - rewrite decide_True by done. rewrite bool_decide_eq_false_2 by done.
    rewrite bool_decide_eq_true_2.
    + cbn [fmap list_fmap]. by rewrite name_idemp.
    + constructor; [by rewrite is_target_name|constructor].
  - destruct (decide (Is_true false)) as [[]|_].
    by rewrite bool_decide_eq_true_2.
Qed.

(** ** Buckets *)

Section BucketMore.
Import PyStr Auditor.

Lemma bucket_append_members suffix p buckets :
  bucket_of p = Some suffix →
  Forall (λ b, b.2 ≠ [] ∧ Forall (λ q, bucket_of q = Some b.1) b.2) buckets →
  Forall (λ b, b.2 ≠ [] ∧ Forall (λ q, bucket_of q = Some b.1) b.2)
    (bucket_append suffix p buckets).
Proof.
  intros Hp. induction 1 as [|[s ps] buckets [Hne Hb] Hall IH]; simpl.
  - repeat constructor; done.
  - destruct (String.eqb_spec s suffix) as [->|Hs].
    + constructor; [|done]. simpl in *. split; [by destruct ps|].
      apply Forall_app. split; [done|by repeat constructor].
    + by constructor.
Qed.

Lemma collect_members names buckets :
  Forall (λ b, b.2 ≠ [] ∧ Forall (λ q, bucket_of q = Some b.1) b.2) buckets →
  Forall (λ b, b.2 ≠ [] ∧ Forall (λ q, bucket_of q = Some b.1) b.2)
    (foldl file_away buckets names).
Proof.
  revert buckets. induction names as [|p names IH]; intros buckets Hb; [done|].
  simpl. apply IH. unfold file_away.
  destruct (bucket_of p) as [s|] eqn:Hs; [|done].
  by apply bucket_append_members.
Qed.

(** X10. [collect_by_suffix] files every name under the first suffix of
    the table it ends with and nowhere else: the suffixes of the buckets
    are distinct, no bucket is empty, each bucket holds only names of its
    suffix, and together the buckets hold exactly the names that end with
    a suffix of the table, each as often as it is listed. *)
Theorem collect_by_suffix_partition names :
  let buckets := collect_by_suffix names in
  NoDup buckets.*1
  ∧ concat buckets.*2 ≡ₚ filter (λ p, is_Some (bucket_of p)) names
  ∧ Forall (λ b, b.2 ≠ [] ∧ Forall (λ q, bucket_of q = Some b.1) b.2) buckets.
Proof.
  cbv zeta. unfold collect_by_suffix. split; [|split].
  - apply collect_keys_NoDup. constructor.
  - rewrite collect_concat. simpl. by rewrite app_nil_r.
  - apply collect_members. constructor.
Qed.

End BucketMore.

(** ** The post-hoc audit *)

Section SuffixFacts.
Import PyStr.

Lemma endswith_refl s : endswith s s = true.
Proof. destruct s; cbn [endswith]; by rewrite String.eqb_refl. Qed.

Lemma endswith_cons c s suf :
  endswith s suf = true → endswith (String c s) suf = true.
Proof. intros H. cbn [endswith]. rewrite H. apply orb_true_r. Qed.

(** Two suffixes of one string: one is a suffix of the other. *)
Lemma endswith_two p s1 s2 :
  endswith p s1 = true → endswith p s2 = true →
  endswith s1 s2 = true ∨ endswith s2 s1 = true.
Proof.
  induction p as [|c p IH].
  - cbn [endswith]. rewrite !orb_false_r.
    intros H1%String.eqb_eq H2%String.eqb_eq. subst. by left.
  - cbn [endswith]. intros [H1|H1]%orb_true_iff [H2|H2]%orb_true_iff.
    + apply String.eqb_eq in H1, H2. subst. left. apply endswith_refl.
    + apply String.eqb_eq in H1. subst. left. by apply endswith_cons.
    + apply String.eqb_eq in H2. subst. right. by apply endswith_cons.
    + by apply IH.
Qed.

Lemma endswith_last_char p s :
  s ≠ "" → endswith p s = true → last_char p = last_char s.
Proof.
  intros Hs. induction p as [|c p IH].
  - cbn [endswith]. rewrite orb_false_r. intros H%String.eqb_eq. by subst.
  - cbn [endswith]. intros [H|H]%orb_true_iff.
    + apply String.eqb_eq in H. by subst.
    + rewrite <- (IH H). cbn [last_char]. destruct p; [|done].
      cbn [endswith] in H. rewrite orb_false_r in H.
      apply String.eqb_eq in H. by subst.
Qed.

Lemma endswith_app x s : endswith (x +:+ s) s = true.
Proof.
  induction x as [|c x IH]; [apply endswith_refl|].
  cbn [append]. by apply endswith_cons.
Qed.

Lemma with_suffix_endswith n new :
  endswith (PyPath.with_suffix n new) new = true.
Proof. apply endswith_app. Qed.

(** The name of a temporary archive ends with no suffix of the table. *)
Lemma tmp_unsuffixed n suffix :
  suffix ∈ Audit.SUFFIXES → endswith n ".tmp.zip" = true →
  endswith n suffix = false.
Proof.
  intros Hs Htmp. destruct (endswith n suffix) eqn:Hend; [exfalso|done].
  destruct (endswith_two n _ _ Htmp Hend) as [H|H]; revert H;
    unfold Audit.SUFFIXES in Hs;
    repeat (apply elem_of_cons in Hs as [-> | Hs]; [by vm_compute|]);
    by apply elem_of_nil in Hs.
Qed.

(** A name of the table is not the name of a temporary archive. *)
Lemma suffixed_not_tmp n z suffix :
  suffix ∈ Audit.SUFFIXES → endswith n suffix = true →
  n ≠ PyPath.with_suffix z ".tmp.zip".
Proof.
  intros Hs Hend ->.
  by rewrite (tmp_unsuffixed _ suffix Hs (with_suffix_endswith z _)) in Hend.
Qed.

(** A name of the table is filed under at most one suffix, and that is the
    suffix it ends with. *)
Lemma bucket_of_endswith p suffix :
  suffix ∈ Audit.SUFFIXES → endswith p suffix = true →
  Auditor.bucket_of p = Some suffix.
Proof.
  intros Hin Hend. unfold Auditor.bucket_of.
  destruct (List.find _ _) as [s|] eqn:Hfind.
  - apply List.find_some in Hfind as [Hs Hps].
    destruct (endswith_two p s suffix Hps Hend) as [H|H].
    + f_equal. revert H. clear -Hs Hin. unfold Audit.SUFFIXES in Hin.
      cbn in Hs.
      repeat (apply elem_of_cons in Hin as [->|Hin];
              [intuition (subst; try done; vm_compute in *; congruence)|]).
      by apply elem_of_nil in Hin.
    + f_equal. revert H. clear -Hs Hin. unfold Audit.SUFFIXES in Hin.
      cbn in Hs.
      repeat (apply elem_of_cons in Hin as [->|Hin];
              [intuition (subst; try done; vm_compute in *; congruence)|]).
      by apply elem_of_nil in Hin.
  - exfalso. eapply List.find_none in Hfind.
    + simpl in Hfind. by rewrite Hend in Hfind.
    + cbn. unfold Audit.SUFFIXES in Hin.
      repeat (apply elem_of_cons in Hin as [->|Hin]; [tauto|]).
      by apply elem_of_nil in Hin.
Qed.

Lemma bucket_of_suffix p suffix :
  Auditor.bucket_of p = Some suffix →
  suffix ∈ Audit.SUFFIXES ∧ endswith p suffix = true.
Proof.
  unfold Auditor.bucket_of. intros [Hin Hend]%List.find_some.
  split; [|done]. cbn in Hin. unfold Audit.SUFFIXES.
  apply (bool_decide_unpack _).
  intuition (subst; vm_compute; exact I).
Qed.

End SuffixFacts.

Section AuditSteps.
Import PyStr Audit.
Variable zip_size : list (string * file) → Z.

Lemma evolves_refl s : evolves s s.
Proof.
  split; [done|]. split; [by left|]. split; [|done].
  exists []. by rewrite app_nil_r.
Qed.

Lemma evolves_trans s1 s2 s3 : evolves s1 s2 → evolves s2 s3 → evolves s1 s3.
Proof.
  intros (Hf1 & Ho1 & [x1 Hx1] & Hc1) (Hf2 & Ho2 & [x2 Hx2] & Hc2).
  split; [|split; [|split]].
  - intros n Hn Htmp. by rewrite (Hf2 n Hn Htmp), (Hf1 n Hn Htmp).
  - intros e He. destruct (Ho2 e He) as [He2|?]; [|by right]. by apply Ho1.
  - exists (x1 ++ x2). by rewrite Hx2, Hx1, (assoc_L (++)).
  - auto.
Qed.

Lemma foldl_evolves {A} (step : state → A → state) (Q : A → Prop) l s :
  (∀ s x, Q x → evolves s (step s x)) → Forall Q l →
  evolves s (foldl step s l).
Proof.
  intros Hstep Hl. revert s. induction Hl as [|x l Hx Hl IH]; intros s;
    [apply evolves_refl|].
  simpl. eapply evolves_trans; [by apply Hstep|apply IH].
Qed.

Lemma evolves_warn i s : evolves s (warn i s).
Proof.
  split; [done|]. split; [by left|]. split; [by exists [i]|].
  intros _. right. split; [done|]. cbn [warn issues]. by destruct (issues s).
Qed.

Lemma unlink_elem_of e n l : e ∈ Dir.unlink n l → e ∈ l ∧ e.1 ≠ n.
Proof. unfold Dir.unlink. by intros [? ?]%list_elem_of_filter. Qed.

Lemma write_elem_of e n f l : e ∈ Dir.write n f l → e ∈ l ∨ e = (n, f).
Proof.
  induction l as [|[m g] l IH]; simpl.
  - intros ->%list_elem_of_singleton. by right.
  - destruct (String.eqb m n).
    + intros [->|He]%elem_of_cons; [by right|left; by right].
    + intros [->|He]%elem_of_cons; [left; left|].
      destruct (IH He) as [?|?]; [left; by right|by right].
Qed.

Lemma remove_duplicates_elem_of buckets l e :
  e ∈ (Auditor.remove_duplicates buckets l).2 → e ∈ l.
Proof.
  revert l. induction buckets as [|[s ps] buckets IH]; intros l; [done|].
  destruct ps as [|first [|second more]]; cbn [Auditor.remove_duplicates];
    try apply IH.
  set (to_remove := filter _ _).
  destruct (Auditor.remove_duplicates buckets _) as [removed l2] eqn:Hrd.
  cbn [snd]. intros He.
  assert (He' : e ∈ foldl (λ dir p, Dir.unlink p dir) l to_remove).
  { apply IH. by rewrite Hrd. }
  clearbody to_remove. clear -He'. revert l He'.
  induction to_remove as [|q qs IHq]; intros l; [done|].
  simpl. intros He%IHq. by apply unlink_elem_of in He as [? _].
Qed.

(** A name that ends with none of the six suffixes is in no bucket. *)
Lemma unsuffixed_not_filed n names :
  Forall (λ suffix, endswith n suffix = false) SUFFIXES →
  n ∉ concat (Auditor.collect_by_suffix names).*2.
Proof.
  intros Hn Hin. apply elem_of_concat in Hin as (ps & Hnps & Hps).
  apply list_elem_of_fmap in Hps as ([s ps'] & -> & Hb).
  pose proof (collect_members names [] (Forall_nil_2 _)) as Hall.
  rewrite Forall_forall in Hall. destruct (Hall _ Hb) as [_ Hmem].
  rewrite Forall_forall in Hmem.
  apply Hmem, bucket_of_suffix in Hnps as [Hs Hend].
  rewrite Forall_forall in Hn. by rewrite (Hn _ Hs) in Hend.
Qed.

Lemma dedup_step_evolves s : evolves s (dedup_step s).
Proof.
  unfold dedup_step.
  pose proof (remove_duplicates_frame
                (Auditor.collect_by_suffix (dir s).*1) (dir s)) as Hframe.
  pose proof (remove_duplicates_elem_of
                (Auditor.collect_by_suffix (dir s).*1) (dir s)) as Hsub.
  destruct (Auditor.remove_duplicates _ _) as [dup_removed dir'].
  cbn [snd] in *. split; [|split; [|split]].
  - intros n Hn _. cbn [dir]. by apply Hframe, unsuffixed_not_filed.
  - intros e He. left. by apply Hsub.
  - exists []. by rewrite app_nil_r.
  - done.
Qed.

Lemma required_step_evolves s entry : evolves s (required_step s entry).
Proof.
  unfold required_step. destruct (_ && _);
    [apply evolves_warn|apply evolves_refl].
Qed.

Lemma suffixed_ne n m suffix :
  Forall (λ suffix, endswith n suffix = false) SUFFIXES →
  suffix ∈ SUFFIXES → endswith m suffix = true → m ≠ n.
Proof.
  intros Hn Hs Hm ->. rewrite Forall_forall in Hn.
  by rewrite (Hn _ Hs) in Hm.
Qed.

Lemma pdf_step_evolves s pdf suffix :
  suffix ∈ SUFFIXES → endswith pdf.1 suffix = true →
  evolves s (pdf_step s pdf).
Proof.
  intros Hs Hend. unfold pdf_step. destruct (_ || _); [|apply evolves_refl].
  split; [|split; [|split]].
  - intros n Hn _. cbn [dir]. rewrite lookup_unlink.
    rewrite decide_False; [done|].
    intros ->. by apply (suffixed_ne pdf.1 pdf.1 suffix).
  - intros e [He _]%unlink_elem_of. by left.
  - by eexists.
  - intros _. right. split; [done|]. cbn [issues]. by destruct (issues s).
Qed.

Lemma glob_Forall suffix l :
  Forall (λ e, endswith e.1 suffix = true) (glob suffix l).
Proof.
  apply Forall_forall. intros e [He _]%list_elem_of_filter.
  by apply Is_true_true.
Qed.

Lemma pdf_suffix_step_evolves s suffix :
  suffix ∈ SUFFIXES → evolves s (pdf_suffix_step s suffix).
Proof.
  intros Hs. unfold pdf_suffix_step.
  apply (foldl_evolves _ (λ e, endswith e.1 suffix = true));
    [|apply glob_Forall].
  intros s' pdf Hend. by apply (pdf_step_evolves s' pdf suffix).
Qed.

Lemma zip_step_evolves kind mode s z suffix :
  suffix ∈ SUFFIXES → last_char suffix = Some "p"%char →
  endswith z.1 suffix = true →
  evolves s (zip_step zip_size kind mode s z).
Proof.
  intros Hs Hlast Hend. unfold zip_step.
  destruct (Sanitizer.clean_zip (zip_members z.2) mode) as [[changed kept] a].
  set (f' := File _ _ _).
  set (tmp := PyPath.with_suffix z.1 ".tmp.zip").
  assert (Hwrite : evolves s (State (Dir.unlink tmp (Dir.write z.1 f' (dir s)))
                                (status s) (issues s)
                                (fixed s ++ [CleanedZip kind kept]))).
  { split; [|split; [|split]].
    - intros n Hn Htmp. cbn [dir]. rewrite lookup_unlink.
      rewrite decide_False.
      2:{ intros ->. subst tmp. by rewrite with_suffix_endswith in Htmp. }
      rewrite lookup_write.
      destruct (String.eqb_spec z.1 n) as [Heq|]; [|done].
      by destruct (suffixed_ne n z.1 suffix).
    - intros e [[He | ->]%write_elem_of _]%unlink_elem_of; [by left|right].
      cbn [fst]. rewrite <- Hlast. apply endswith_last_char; [|done].
      by intros ->.
    - exists []. by rewrite app_nil_r.
    - done. }
  assert (Hs' : evolves s
            (if changed
             then State (Dir.unlink tmp (Dir.write z.1 f' (dir s)))
                    (status s) (issues s)
                    (fixed s ++ [CleanedZip kind kept])
             else s)).
  { destruct changed; [exact Hwrite|apply evolves_refl]. }
  destruct a as [entries|].
  - destruct (existsb _ _); [exact Hs'|].
    eapply evolves_trans; [exact Hs'|apply evolves_warn].
  - eapply evolves_trans; [exact Hs'|apply evolves_warn].
Qed.

Lemma zips_step_evolves kind mode suffix s :
  suffix ∈ SUFFIXES → last_char suffix = Some "p"%char →
  evolves s (zips_step zip_size kind mode suffix s).
Proof.
  intros Hs Hlast. unfold zips_step.
  apply (foldl_evolves _ (λ e, endswith e.1 suffix = true));
    [|apply glob_Forall].
  intros s' z Hend. by apply (zip_step_evolves kind mode s' z suffix).
Qed.

Lemma images_step_evolves d s : evolves s (images_step d s).
Proof.
  unfold images_step. destruct (Auditor.images_ok d);
    [apply evolves_refl|apply evolves_warn].
Qed.

Lemma suffix_in_table suffix :
  suffix ∈ PDF_SUFFIXES ∨ suffix ∈ ["_DXF.zip"; "_STEP.zip"]
  ∨ suffix ∈ Auditor.REQUIRED.*1 →
  suffix ∈ SUFFIXES.
Proof.
  intros H. apply (bool_decide_unpack _).
  destruct H as [H|[H|H]]; apply (bool_decide_pack _) in H;
    revert H; cbn [PDF_SUFFIXES Auditor.REQUIRED SUFFIXES fmap list_fmap fst];
    intros H%bool_decide_unpack;
    repeat (apply elem_of_cons in H as [->|H]; [by vm_compute|]);
    by apply elem_of_nil in H.
Qed.

(** The whole pass, from the state it starts in. *)
Lemma validate_product_dir_evolves d :
  evolves (State (files d) "ok" [] []) (validate_product_dir zip_size d).
Proof.
  unfold validate_product_dir.
  eapply evolves_trans; [|apply images_step_evolves].
  eapply evolves_trans;
    [|apply zips_step_evolves; [apply suffix_in_table; right; left;
                                 repeat constructor|done]].
  eapply evolves_trans;
    [|apply zips_step_evolves; [apply suffix_in_table; right; left;
                                 repeat constructor|done]].
  eapply evolves_trans.
  2:{ apply (foldl_evolves _ (λ suffix, suffix ∈ PDF_SUFFIXES)).
      - intros s suffix Hs. apply pdf_suffix_step_evolves.
        apply suffix_in_table. by left.
      - apply Forall_forall. by intros. }
  eapply evolves_trans.
  2:{ apply (foldl_evolves _ (λ _, True)).
      - intros s entry _. apply required_step_evolves.
      - by apply Forall_forall. }
  apply dedup_step_evolves.
Qed.

(** X11. The status of an audit result is ["ok"] exactly when no issue is
    listed, and ["warn"] otherwise. *)
Theorem validate_product_dir_status d :
  let r := validate_product_dir zip_size d in
  (status r = "ok" ↔ issues r = [])
  ∧ (status r = "warn" ↔ issues r ≠ []).
Proof.
  cbv zeta. destruct (validate_product_dir_evolves d) as (_ & _ & _ & Hc).
  destruct Hc as [[Hs Hi]|[Hs Hi]]; [by left| |]; rewrite Hs.
  - rewrite Hi. by repeat split.
  - split; (split; [done|]); done.
Qed.

(** X12. The audit only touches files that end with one of the six
    suffixes of its table and the temporary archives [*.tmp.zip] of its
    rewrites: every other file of the product directory, the completion
    marker among them, holds afterwards what it held before. *)
Theorem validate_product_dir_frame d :
  let r := validate_product_dir zip_size d in
  (∀ n, Forall (λ suffix, endswith n suffix = false) SUFFIXES →
        endswith n ".tmp.zip" = false →
        Dir.lookup n (dir r) = Dir.lookup n (files d))
  ∧ Dir.lookup ".complete" (dir r) = Dir.lookup ".complete" (files d).
Proof.
  cbv zeta. destruct (validate_product_dir_evolves d) as (Hframe & _).
  split; [exact Hframe|]. apply Hframe; [|done].
  repeat constructor.
Qed.

End AuditSteps.

(** A rewrite goes through the temporary archive: a file called
    [XYZ_DXF.tmp.zip] that was in the directory next to [XYZ_DXF.zip] is
    gone once the audit has cleaned that archive. *)
Example validate_product_dir_takes_tmp :
  let d := {| files :=
                [ ("XYZ_DXF.zip",
                   File 1800 (Some Crawler.ZIP_MAGIC)
                     (Some [ ("foo.dxf", File 1500 (Some "  0 ") None);
                             ("readme.txt", File 80 (Some "Read") None) ]));
                  ("XYZ_DXF.tmp.zip", File 8 (Some "keep") None) ];
              images := None |} in
  Dir.lookup "XYZ_DXF.tmp.zip"
    (Audit.dir (Audit.validate_product_dir stored_size d)) = None
  ∧ Audit.fixed (Audit.validate_product_dir stored_size d)
    = [Audit.CleanedZip "DXF" ["foo.dxf"]].
Proof. vm_compute. split; reflexivity. Qed.

Section AuditPdfs.
Import PyStr Audit.
Variable zip_size : list (string * file) → Z.

Lemma pdf_fold_sound suffix rest s :
  (∀ e, e ∈ dir s → endswith e.1 suffix = true → sound_pdf e.2 ∨ e ∈ rest) →
  ∀ e, e ∈ dir (foldl pdf_step s rest) → endswith e.1 suffix = true →
       sound_pdf e.2.
Proof.
  revert s. induction rest as [|pdf rest IH]; intros s Hinv.
  - intros e He Hend. destruct (Hinv e He Hend) as [?|?%elem_of_nil]; done.
  - simpl. apply IH. intros e He Hend. unfold pdf_step in He.
    destruct ((st_size pdf.2 =? 0) || negb (is_pdf pdf.2)) eqn:Hbad.
    + cbn [dir] in He. apply unlink_elem_of in He as [He Hne].
      destruct (Hinv e He Hend) as [?|Hin]; [by left|right].
      apply elem_of_cons in Hin as [->|?]; done.
    + destruct (Hinv e He Hend) as [?|Hin]; [by left|].
      apply elem_of_cons in Hin as [->|?]; [left|by right].
      apply orb_false_iff in Hbad as [Hsz Hpdf].
      split; [by apply negb_false_iff|by apply Z.eqb_neq].
Qed.

Lemma pdf_suffix_step_sound s suffix :
  ∀ e, e ∈ dir (pdf_suffix_step s suffix) → endswith e.1 suffix = true →
       sound_pdf e.2.
Proof.
  unfold pdf_suffix_step. apply pdf_fold_sound.
  intros e He Hend. right. unfold glob. apply list_elem_of_filter.
  split; [by apply Is_true_true|done].
Qed.

Lemma sound_preserved s s' suffix :
  evolves s s' → suffix ∈ PDF_SUFFIXES →
  (∀ e, e ∈ dir s → endswith e.1 suffix = true → sound_pdf e.2) →
  ∀ e, e ∈ dir s' → endswith e.1 suffix = true → sound_pdf e.2.
Proof.
  intros (_ & Hold & _) Hs Hsound e He Hend.
  destruct (Hold e He) as [?|Hp]; [by apply Hsound|].
  assert (Hf : suffix ≠ "" ∧ last_char suffix = Some "f"%char).
  { unfold PDF_SUFFIXES in Hs.
    repeat (apply elem_of_cons in Hs as [->|Hs]; [done|]).
    by apply elem_of_nil in Hs. }
  destruct Hf as [Hne Hf].
  rewrite (endswith_last_char e.1 suffix Hne Hend) in Hp. congruence.
Qed.

Lemma pdf_phase_sound l s suffix :
  suffix ∈ l → l ⊆ PDF_SUFFIXES →
  ∀ e, e ∈ dir (foldl pdf_suffix_step s l) → endswith e.1 suffix = true →
       sound_pdf e.2.
Proof.
  revert s. induction l as [|x l IH]; intros s Hin Hsub;
    [by apply elem_of_nil in Hin|].
  assert (Hl : l ⊆ PDF_SUFFIXES) by (intros y Hy; apply Hsub; by right).
  simpl. destruct (decide (suffix ∈ l)) as [Hl'|Hl']; [by apply IH|].
  apply elem_of_cons in Hin as [->|?]; [|done].
  assert (Hx : x ∈ PDF_SUFFIXES) by (apply Hsub; left).
  eapply sound_preserved; [|exact Hx|apply pdf_suffix_step_sound].
  apply (foldl_evolves _ (λ y, y ∈ PDF_SUFFIXES)).
  - intros s' y Hy. apply pdf_suffix_step_evolves, suffix_in_table. by left.
  - apply Forall_forall. intros y Hy. by apply Hl.
Qed.

(** X13. After the audit every file left in the directory under one of the
    four PDF suffixes is non-empty and starts with [%PDF]: a file that is
    not has been deleted. *)
Theorem validate_product_dir_pdfs d e suffix :
  e ∈ dir (validate_product_dir zip_size d) →
  suffix ∈ PDF_SUFFIXES →
  endswith e.1 suffix = true →
  is_pdf e.2 = true ∧ st_size e.2 ≠ 0.
Proof.
  intros He Hs Hend. unfold validate_product_dir in He.
  revert e He Hend. fold (sound_pdf).
  eapply sound_preserved; [apply images_step_evolves|done|].
  eapply sound_preserved;
    [apply zips_step_evolves; [apply suffix_in_table; right; left;
                                repeat constructor|done]|done|].
  eapply sound_preserved;
    [apply zips_step_evolves; [apply suffix_in_table; right; left;
                                repeat constructor|done]|done|].
  by apply pdf_phase_sound.
Qed.

End AuditPdfs.

Section AuditRequired.
Import PyStr Audit.
Variable zip_size : list (string * file) → Z.

Lemma adds_only_refl P s : adds_only P s s.
Proof. exists []. by rewrite app_nil_r. Qed.

Lemma adds_only_trans P s1 s2 s3 :
  adds_only P s1 s2 → adds_only P s2 s3 → adds_only P s1 s3.
Proof.
  intros (x1 & H1 & F1) (x2 & H2 & F2). exists (x1 ++ x2).
  split; [by rewrite H2, H1, (assoc_L (++))|by apply Forall_app].
Qed.

Lemma foldl_adds_only {A} P (step : state → A → state) l s :
  (∀ s x, adds_only P s (step s x)) → adds_only P s (foldl step s l).
Proof.
  intros Hstep. revert s. induction l as [|x l IH]; intros s;
    [apply adds_only_refl|].
  simpl. eapply adds_only_trans; [apply Hstep|apply IH].
Qed.

Lemma adds_only_warn (P : issue → Prop) i s : P i → adds_only P s (warn i s).
Proof. intros Hi. exists [i]. split; [done|by repeat constructor]. Qed.

Lemma pdf_suffix_step_adds s suffix :
  adds_only not_missing s (pdf_suffix_step s suffix).
Proof.
  unfold pdf_suffix_step. apply foldl_adds_only. intros s' pdf.
  unfold pdf_step. destruct (_ || _); [|apply adds_only_refl].
  exists [InvalidPDF pdf.1]. split; [done|]. by repeat constructor.
Qed.

Lemma zips_step_adds kind mode suffix s :
  adds_only not_missing s (zips_step zip_size kind mode suffix s).
Proof.
  unfold zips_step. apply foldl_adds_only. intros s' z. unfold zip_step.
  destruct (Sanitizer.clean_zip (zip_members z.2) mode) as [[changed kept] a].
  set (s'' := if changed then _ else s').
  assert (Hs'' : adds_only not_missing s' s'').
  { subst s''. destruct changed; [|apply adds_only_refl].
    exists []. split; [by rewrite app_nil_r|constructor]. }
  destruct a as [entries|]; [destruct (existsb _ _); [done|]|];
    (eapply adds_only_trans; [exact Hs''|by apply adds_only_warn]).
Qed.

Lemma images_step_adds d s : adds_only not_missing s (images_step d s).
Proof.
  unfold images_step. destruct (Auditor.images_ok d);
    [apply adds_only_refl|by apply adds_only_warn].
Qed.

Lemma present_glob suffix l :
  existsb (λ e : string * file, endswith e.1 suffix) (glob suffix l) = false
  ↔ glob suffix l = [].
Proof.
  pose proof (glob_Forall suffix l) as Hall.
  destruct (glob suffix l) as [|e g]; [done|].
  inversion Hall as [|? ? He _]; subst. simpl. by rewrite He.
Qed.

Lemma required_fold l s suffix :
  dir (foldl required_step s l) = dir s
  ∧ (MissingRequired suffix ∈ issues (foldl required_step s l)
     ↔ MissingRequired suffix ∈ issues s
       ∨ ((suffix, true) ∈ l ∧ glob suffix (dir s) = [])).
Proof.
  revert s. induction l as [|[x req] l IH]; intros s.
  { split; [done|]. split; [by left|].
    by intros [?|[?%elem_of_nil _]]. }
  simpl. destruct (IH (required_step s (x, req))) as [Hdir Hiff].
  assert (Hstep : dir (required_step s (x, req)) = dir s).
  { unfold required_step. by destruct (_ && _). }
  rewrite Hdir, Hstep, Hiff, Hstep. split; [done|].
  unfold required_step. cbn [fst snd].
  destruct req; cbn [andb].
  - destruct (existsb _ _) eqn:Hpresent; cbn [negb].
    + split.
      * intros [?|[Hin ?]]; [by left|right]. split; [by right|done].
      * intros [?|[[Heq|Hin]%elem_of_cons Hg]]; [by left| |right; by split].
        injection Heq as ->. apply present_glob in Hg. congruence.
    + apply present_glob in Hpresent. cbn [warn issues]. split.
      * intros [[?|Heq%list_elem_of_singleton]%elem_of_app|[Hin ?]];
          [by left| |right; split; [by right|done]].
        injection Heq as ->. right. split; [left|done].
      * intros [?|[[Heq|Hin]%elem_of_cons Hg]].
        -- left. apply elem_of_app. by left.
        -- injection Heq as ->. left. apply elem_of_app. right. left.
        -- right. by split.
  - split.
    + intros [?|[Hin ?]]; [by left|right]. split; [by right|done].
    + intros [?|[[Heq|Hin]%elem_of_cons Hg]]; [by left|done|right; by split].
Qed.

Lemma lookup_Some_elem_of n f l : Dir.lookup n l = Some f → (n, f) ∈ l.
Proof.
  induction l as [|[m g] l IH]; simpl; [done|].
  destruct (String.eqb_spec m n) as [->|]; [intros [= ->]; left|].
  intros H. right. by apply IH.
Qed.

Lemma glob_nil suffix l :
  glob suffix l = [] ↔ ∀ e, e ∈ l → endswith e.1 suffix = false.
Proof.
  unfold glob. split.
  - intros Hg e He. destruct (endswith e.1 suffix) eqn:Hend; [|done].
    assert (e ∈ filter (λ e : string * file, endswith e.1 suffix) l) as Hin
      by (apply list_elem_of_filter; split; [by apply Is_true_true|done]).
    rewrite Hg in Hin. by apply elem_of_nil in Hin.
  - intros Hall. induction l as [|e l IH]; [done|].
    rewrite filter_cons, decide_False.
    + apply IH. intros e' He'. apply Hall. by right.
    + rewrite (Hall e) by left. intros [].
Qed.

Lemma dedup_step_dir s :
  dir (dedup_step s)
  = (Auditor.remove_duplicates (Auditor.collect_by_suffix (dir s).*1)
       (dir s)).2.
Proof.
  unfold dedup_step. by destruct (Auditor.remove_duplicates _ _).
Qed.

(** Deduplication leaves a file under a suffix when there was one. *)
Lemma dedup_step_glob s suffix :
  NoDup (dir s).*1 → suffix ∈ SUFFIXES →
  glob suffix (dir (dedup_step s)) = [] ↔ glob suffix (dir s) = [].
Proof.
  intros Hnd Hs. rewrite !glob_nil, dedup_step_dir.
  set (buckets := Auditor.collect_by_suffix (dir s).*1).
  split.
  - intros Hnone e He.
    destruct (endswith e.1 suffix) eqn:Hend; [exfalso|done].
    destruct (collect_by_suffix_NoDup _ Hnd) as (_ & Hall & Hsub).
    fold buckets in Hall, Hsub.
    assert (Hfiled : e.1 ∈ concat buckets.*2).
    { subst buckets. unfold Auditor.collect_by_suffix.
      rewrite collect_concat. simpl. rewrite app_nil_r.
      apply list_elem_of_filter. split.
      - rewrite (bucket_of_endswith e.1 suffix Hs Hend). by eexists.
      - apply list_elem_of_fmap. by exists e. }
    apply elem_of_concat in Hfiled as (ps & Heps & Hps).
    apply list_elem_of_fmap in Hps as ([s' ps'] & -> & Hb). cbn [snd] in Heps.
    pose proof (collect_members (dir s).*1 [] (Forall_nil_2 _)) as Hmem.
    rewrite Forall_forall in Hmem. destruct (Hmem _ Hb) as [_ Hmem'].
    cbn [fst snd] in Hmem'. rewrite Forall_forall in Hmem'.
    assert (s' = suffix) as ->.
    { pose proof (Hmem' _ Heps) as Hbk.
      rewrite (bucket_of_endswith e.1 suffix Hs Hend) in Hbk. congruence. }
    assert (Hstay : ∀ p, p ∈ ps' →
              Dir.lookup p (Auditor.remove_duplicates buckets (dir s)).2
              = Dir.lookup p (dir s) → False).
    { intros p Hp Hlook.
      destruct (lookup_is_Some p (dir s)) as [f Hf].
      { apply Hsub, elem_of_concat. exists ps'. split; [done|].
        apply list_elem_of_fmap. by exists (suffix, ps'). }
      rewrite Hf in Hlook. apply lookup_Some_elem_of in Hlook.
      apply Hnone in Hlook. cbn [fst] in Hlook.
      apply Hmem', bucket_of_suffix in Hp as [_ Hp]. congruence. }
    pose proof (remove_duplicates_bucket buckets (dir s) suffix ps' Hall Hb)
      as Hbucket.
    destruct ps' as [|first [|second more]].
    + by apply elem_of_nil in Heps.
    + apply (Hstay first); [left|]. apply Hbucket. left.
    + cbv zeta in Hbucket. destruct Hbucket as [Hlook _].
      set (keep := Auditor.max_by _ _ _) in *.
      assert (Hkeep : keep ∈ first :: second :: more)
        by apply max_by_elem_of.
      apply (Hstay keep Hkeep). rewrite (Hlook keep Hkeep).
      by rewrite decide_True.
  - intros Hnone e He. apply Hnone.
    by apply remove_duplicates_elem_of in He.
Qed.

(** X14. In a directory with one file per name the audit lists "Missing
    required" for a suffix exactly when the suffix is one of Catalog,
    Dimension, DXF and STEP and no file of the directory ends with it.
    STEP, which the crawler's completeness check treats as optional, is
    required here. *)
Theorem validate_product_dir_missing d suffix :
  NoDup (files d).*1 →
  MissingRequired suffix ∈ issues (validate_product_dir zip_size d)
  ↔ suffix ∈ audit_required
    ∧ ∀ e, e ∈ files d → endswith e.1 suffix = false.
Proof.
  intros Hnd. unfold validate_product_dir.
  set (s0 := State (files d) "ok" [] []).
  set (s1 := dedup_step s0).
  set (s2 := foldl required_step s1 Auditor.REQUIRED).
  set (s3 := foldl pdf_suffix_step s2 PDF_SUFFIXES).
  set (s4 := zips_step zip_size "DXF" "dxf" "_DXF.zip" s3).
  set (s5 := zips_step zip_size "STEP" "step" "_STEP.zip" s4).
  assert (Hlater : adds_only not_missing s2 (images_step d s5)).
  { eapply adds_only_trans; [|apply images_step_adds].
    eapply adds_only_trans; [|apply zips_step_adds].
    eapply adds_only_trans; [|apply zips_step_adds].
    apply foldl_adds_only. intros s x. apply pdf_suffix_step_adds. }
  destruct Hlater as (extra & -> & Hextra).
  assert (Hs2 : MissingRequired suffix ∈ issues s2 ++ extra
                ↔ MissingRequired suffix ∈ issues s2).
  { rewrite elem_of_app. split; [|by left]. intros [?|Hin]; [done|].
    rewrite Forall_forall in Hextra. by destruct (Hextra _ Hin suffix). }
  rewrite Hs2. subst s2.
  destruct (required_fold Auditor.REQUIRED s1 suffix) as [_ ->].
  assert (Hs1 : issues s1 = []).
  { subst s1 s0. unfold dedup_step.
    by destruct (Auditor.remove_duplicates _ _). }
  rewrite Hs1.
  assert (Hreq : (suffix, true) ∈ Auditor.REQUIRED ↔ suffix ∈ audit_required).
  { unfold Auditor.REQUIRED, audit_required. split; intros Hin.
    - repeat (apply elem_of_cons in Hin as [Heq|Hin];
              [try discriminate Heq; injection Heq as ->;
               repeat first [apply list_elem_of_here
                            |apply list_elem_of_further]|]).
      by apply elem_of_nil in Hin.
    - repeat (apply elem_of_cons in Hin as [->|Hin];
              [repeat first [apply list_elem_of_here
                            |apply list_elem_of_further]|]).
      by apply elem_of_nil in Hin. }
  rewrite Hreq. split.
  - intros [?%elem_of_nil|[Hin Hg]]; [done|]. split; [done|].
    apply glob_nil. subst s1. apply (dedup_step_glob s0 suffix Hnd) in Hg;
      [done|].
    apply suffix_in_table. do 2 right. apply Hreq in Hin.
    apply list_elem_of_fmap. by exists (suffix, true).
  - intros [Hin Hnone]. right. split; [done|].
    subst s1. apply (dedup_step_glob s0 suffix Hnd).
    + apply suffix_in_table. do 2 right. apply Hreq in Hin.
      apply list_elem_of_fmap. by exists (suffix, true).
    + by apply glob_nil.
Qed.

End AuditRequired.

(** ** File names *)

Section NameFacts.
Import Names.

Lemma all_chars_replace_other P old new s :
  P new = true → (∀ c, Ascii.eqb c old = false → P c = true) →
  all_chars P (replace old new s) = true.
Proof.
  intros Hnew Hother. induction s as [|c s IH]; [done|].
  simpl. rewrite IH, andb_true_r.
  destruct (Ascii.eqb c old) eqn:Hc; [done|by apply Hother].
Qed.

Lemma all_chars_replace P old new s :
  P new = true → all_chars P s = true →
  all_chars P (replace old new s) = true.
Proof.
  intros Hnew. induction s as [|c s IH]; [done|].
  simpl. intros [Hc Hs]%andb_true_iff. rewrite (IH Hs), andb_true_r.
  by destruct (Ascii.eqb c old).
Qed.

Lemma all_chars_collapse P in_run s :
  P " "%char = true → all_chars P s = true →
  all_chars P (collapse in_run s) = true.
Proof.
  intros Hsp. revert in_run. induction s as [|c s IH]; intros in_run; [done|].
  simpl. intros [Hc Hs]%andb_true_iff.
  destruct (is_space c); [destruct in_run|]; simpl;
    rewrite ?Hsp, ?Hc, ?IH; done.
Qed.

Lemma all_chars_lstrip P s :
  all_chars P s = true → all_chars P (lstrip s) = true.
Proof.
  induction s as [|c s IH]; [done|]. simpl.
  intros [Hc Hs]%andb_true_iff. destruct (is_space c); [by apply IH|].
  simpl. by rewrite Hc, Hs.
Qed.

Lemma all_chars_rstrip P s :
  all_chars P s = true → all_chars P (rstrip s) = true.
Proof.
  induction s as [|c s IH]; [done|]. simpl.
  intros [Hc Hs]%andb_true_iff. specialize (IH Hs).
  destruct (rstrip s) as [|c' r].
  - destruct (is_space c); [done|]. simpl. by rewrite Hc.
  - cbn [all_chars] in *. by rewrite Hc, IH.
Qed.

Lemma replace_id old new s :
  all_chars (λ c, negb (Ascii.eqb c old)) s = true → replace old new s = s.
Proof.
  induction s as [|c s IH]; [done|]. simpl.
  intros [Hc Hs]%andb_true_iff. rewrite (IH Hs).
  apply negb_true_iff in Hc. by rewrite Hc.
Qed.

(** *** Whitespace *)

Lemma single_spaced_weaken s : single_spaced true s = true →
                               single_spaced false s = true.
Proof.
  destruct s as [|c s]; [done|]. simpl. destruct (is_space c); [|done].
  by rewrite andb_false_r.
Qed.

Lemma collapse_spaced in_run s : single_spaced in_run (collapse in_run s) = true.
Proof.
  revert in_run. induction s as [|c s IH]; intros in_run; [done|].
  simpl. destruct (is_space c) eqn:Hc.
  - destruct in_run; [apply IH|]. simpl. by rewrite IH.
  - simpl. rewrite Hc. apply IH.
Qed.

Lemma collapse_id in_run s :
  single_spaced in_run s = true → collapse in_run s = s.
Proof.
  revert in_run. induction s as [|c s IH]; intros in_run; [done|].
  simpl. destruct (is_space c).
  - intros [[Hc Hrun]%andb_true_iff Hs]%andb_true_iff.
    apply negb_true_iff in Hrun as ->. apply Ascii.eqb_eq in Hc as ->.
    by rewrite (IH true Hs).
  - intros Hs. by rewrite (IH false Hs).
Qed.

Lemma lstrip_spaced s :
  single_spaced false s = true → single_spaced false (lstrip s) = true.
Proof.
  induction s as [|c s IH]; [done|]. simpl. destruct (is_space c) eqn:Hc.
  - intros [_ Hs]%andb_true_iff. by apply IH, single_spaced_weaken.
  - intros Hs. simpl. by rewrite Hc.
Qed.

Lemma rstrip_spaced after s :
  single_spaced after s = true → single_spaced after (rstrip s) = true.
Proof.
  revert after. induction s as [|c s IH]; intros after; [done|]. simpl.
  destruct (is_space c) eqn:Hc.
  - intros [Hhead Hs]%andb_true_iff. specialize (IH true Hs).
    destruct (rstrip s) as [|c' r]; [done|].
    cbn [single_spaced] in *. by rewrite Hc, Hhead, IH.
  - intros Hs. specialize (IH false Hs).
    destruct (rstrip s) as [|c' r]; simpl; by rewrite Hc.
Qed.

(** A stripped string starts and ends with a character that is no
    whitespace. *)
Lemma lstrip_head s :
  match lstrip s with
  | EmptyString => True
  | String c _ => is_space c = false
  end.
Proof.
  induction s as [|c s IH]; [done|]. simpl.
  destruct (is_space c) eqn:Hc; [done|by simpl].
Qed.

Lemma rstrip_rstrip s : rstrip (rstrip s) = rstrip s.
Proof.
  induction s as [|c s IH]; [done|]. simpl.
  destruct (rstrip s) as [|c' r] eqn:Hr.
  - destruct (is_space c) eqn:Hc; [done|]. simpl. by rewrite Hc.
  - cbn [rstrip]. cbn [rstrip] in IH. rewrite IH. done.
Qed.

Lemma rstrip_head c s :
  is_space c = false →
  ∃ r, rstrip (String c s) = String c r.
Proof.
  intros Hc. simpl. destruct (rstrip s); rewrite ?Hc; eauto.
Qed.

Lemma strip_strip s : strip (strip s) = strip s.
Proof.
  unfold strip. pose proof (lstrip_head s) as Hhead.
  destruct (lstrip s) as [|c l] eqn:Hl; [done|].
  destruct (rstrip_head c l Hhead) as [r Hr]. rewrite Hr.
  cbn [lstrip]. rewrite Hhead, <- Hr. apply rstrip_rstrip.
Qed.

Lemma sanitize_filename_shape name :
  let r := sanitize_filename name in
  all_chars (λ c, negb (is_separator c)) r = true
  ∧ single_spaced false r = true
  ∧ strip r = r.
Proof.
  cbv zeta. unfold sanitize_filename.
  set (replaced := replace ":" "-" (replace "\" "-" (replace "/" "-" name))).
  split; [|split].
  - unfold strip. apply all_chars_rstrip, all_chars_lstrip.
    apply all_chars_collapse; [done|]. subst replaced.
    assert (Hsplit : ∀ s,
      all_chars (λ c, negb (Ascii.eqb c "/")) s = true →
      all_chars (λ c, negb (Ascii.eqb c "\")) s = true →
      all_chars (λ c, negb (Ascii.eqb c ":")) s = true →
      all_chars (λ c, negb (is_separator c)) s = true).
    { induction s as [|c s IH]; [done|]. simpl.
      intros [H1 S1]%andb_true_iff [H2 S2]%andb_true_iff
             [H3 S3]%andb_true_iff.
      rewrite IH by done. unfold is_separator.
      apply negb_true_iff in H1, H2, H3. by rewrite H1, H2, H3. }
    apply Hsplit.
    + do 2 (apply all_chars_replace; [done|]).
      apply all_chars_replace_other; [done|]. intros c ->. done.
    + apply all_chars_replace; [done|].
      apply all_chars_replace_other; [done|]. intros c ->. done.
    + apply all_chars_replace_other; [done|]. intros c ->. done.
  - unfold strip. apply rstrip_spaced, lstrip_spaced, collapse_spaced.
  - apply strip_strip.
Qed.

(** X15. A sanitized name holds none of [/], [\] and [:], has no
    whitespace at either end and no whitespace inside other than single
    spaces. *)
Theorem sanitize_filename_clean name :
  let r := sanitize_filename name in
  all_chars (λ c, negb (is_separator c)) r = true
  ∧ single_spaced false r = true
  ∧ lstrip r = r ∧ rstrip r = r.
Proof.
  cbv zeta. destruct (sanitize_filename_shape name) as (Hsep & Hsp & Hstrip).
  split; [done|]. split; [done|].
  assert (Hr : rstrip (sanitize_filename name) = sanitize_filename name).
  { unfold sanitize_filename, strip. apply rstrip_rstrip. }
  split; [|done].
  unfold sanitize_filename at 1 2, strip.
  pose proof (lstrip_head (collapse false
    (replace ":" "-" (replace "\" "-" (replace "/" "-" name))))) as Hhead.
  destruct (lstrip _) as [|c l]; [done|].
  destruct (rstrip_head c l Hhead) as [r ->]. simpl. by rewrite Hhead.
Qed.

Lemma sanitize_filename_idem name :
  sanitize_filename (sanitize_filename name) = sanitize_filename name.
Proof.
  destruct (sanitize_filename_shape name) as (Hsep & Hsp & Hstrip).
  set (r := sanitize_filename name) in *.
  unfold sanitize_filename at 1.
  assert (Hone : ∀ old, is_separator old = true →
                 all_chars (λ c, negb (Ascii.eqb c old)) r = true).
  { intros old Hold. clear -Hsep Hold.
    induction r as [|c r IH]; [done|]. simpl in *.
    apply andb_true_iff in Hsep as [Hc Hr]. rewrite (IH Hr), andb_true_r.
    destruct (Ascii.eqb_spec c old) as [->|]; [|done].
    by rewrite Hold in Hc. }
  rewrite (replace_id "/") by (by apply Hone).
  rewrite (replace_id "\") by (by apply Hone).
  rewrite (replace_id ":") by (by apply Hone).
  by rewrite (collapse_id _ _ Hsp).
Qed.

(** X16. [sanitize_filename] is idempotent: a sanitized name is a fixed
    point. *)
Theorem sanitize_filename_idempotent name :
  sanitize_filename (sanitize_filename name) = sanitize_filename name.
Proof. apply sanitize_filename_idem. Qed.

End NameFacts.

(** ** Rows and downloads *)

Section SortedFacts.
Context {A : Type} (key : A → Z).
Let le (a b : A) : bool := key a <=? key b.

Lemma insert_sorted_elem_of x y l :
  y ∈ insert_sorted le x l ↔ y = x ∨ y ∈ l.
Proof.
  induction l as [|z l IH]; simpl.
  - rewrite list_elem_of_singleton, elem_of_nil. tauto.
  - destruct (le x z); rewrite !elem_of_cons; [tauto|].
    rewrite IH. tauto.
Qed.

Lemma sorted_elem_of y l : y ∈ sorted le l ↔ y ∈ l.
Proof.
  induction l as [|x l IH]; [done|]. unfold sorted in *. simpl.
  rewrite insert_sorted_elem_of, elem_of_cons, IH. tauto.
Qed.

(** The last element of a non-empty sorted list has the largest key. *)
Lemma insert_sorted_last x l d :
  (∀ y, y ∈ l → key y ≤ key (List.last l d)) →
  ∀ y, y ∈ insert_sorted le x l →
       key y ≤ key (List.last (insert_sorted le x l) d).
Proof.
  induction l as [|z l IH]; intros Hmax y.
  - simpl. by intros ->%list_elem_of_singleton.
  - cbn [insert_sorted]. destruct (le x z) eqn:Hle.
    + change (List.last (x :: z :: l) d) with (List.last (z :: l) d).
      intros [->|Hy]%elem_of_cons; [|by apply Hmax].
      apply Z.leb_le in Hle. etrans; [exact Hle|]. apply Hmax. left.
    + apply Z.leb_gt in Hle. destruct l as [|z' l].
      * simpl. intros [-> | ->%list_elem_of_singleton]%elem_of_cons; lia.
      * assert (Hne : insert_sorted le x (z' :: l) ≠ []).
        { simpl. by destruct (le x z'). }
        assert (Hlast : List.last (z :: insert_sorted le x (z' :: l)) d
                        = List.last (insert_sorted le x (z' :: l)) d).
        { destruct (insert_sorted le x (z' :: l)); done. }
        rewrite Hlast.
        assert (IH' : ∀ y, y ∈ insert_sorted le x (z' :: l) →
                  key y ≤ key (List.last (insert_sorted le x (z' :: l)) d)).
        { apply IH. intros y' Hy'. apply (Hmax y'). by right. }
        intros [->|Hy]%elem_of_cons; [|by apply IH'].
        etrans; [|apply IH'; apply insert_sorted_elem_of; by left]. lia.
Qed.

Lemma sorted_last l d :
  ∀ y, y ∈ sorted le l → key y ≤ key (List.last (sorted le l) d).
Proof.
  induction l as [|x l IH]; [by intros y ?%elem_of_nil|].
  unfold sorted in *. simpl. by apply insert_sorted_last.
Qed.

End SortedFacts.

Section DriverFacts.
Import PyStr Driver.

(** X17. [find_product_row] returns the first row whose stripped label
    contains the product code as a substring, whether or not the label is
    that code, and [None] exactly when no row has such a label; rows
    without a label element are passed over. *)
Theorem find_product_row_first rows product_code :
  match find_product_row rows product_code with
  | Some i =>
      (∃ text, rows !! i = Some (Some text)
               ∧ contains (Names.strip text) product_code = true)
      ∧ ∀ j text, (j < i)%nat → rows !! j = Some (Some text) →
                  contains (Names.strip text) product_code = false
  | None =>
      ∀ j text, rows !! j = Some (Some text) →
                contains (Names.strip text) product_code = false
  end.
Proof.
  induction rows as [|row rows IH]; [by intros j text ?|].
  cbn [find_product_row].
  assert (Hskip : (∀ text, row = Some text →
                     contains (Names.strip text) product_code = false) →
    match S <$> find_product_row rows product_code with
    | Some i =>
        (∃ text, (row :: rows) !! i = Some (Some text)
                 ∧ contains (Names.strip text) product_code = true)
        ∧ ∀ j text, (j < i)%nat → (row :: rows) !! j = Some (Some text) →
                    contains (Names.strip text) product_code = false
    | None =>
        ∀ j text, (row :: rows) !! j = Some (Some text) →
                  contains (Names.strip text) product_code = false
    end).
  { intros Hrow. destruct (find_product_row rows product_code) as [i|]; simpl.
    - destruct IH as [Hfound Hbefore]. split; [done|].
      intros [|j] text Hj; simpl; [intros [= ->]; by apply Hrow|].
      apply Hbefore. lia.
    - intros [|j] text; simpl; [intros [= ->]; by apply Hrow|apply IH]. }
  destruct row as [text|]; [|by apply Hskip].
  destruct (contains (Names.strip text) product_code) eqn:Hc.
  - split; [by exists text|]. intros j text' Hj. lia.
  - apply Hskip. by intros ? [= <-].
Qed.

(** X18. [wait_for_download] returns a path only from a round that is
    within the time limit and lists no [*.crdownload] entry; the path
    names a regular file that is not in the ignore set and no new file of
    that round is more recently modified.  It times out only at a round
    past the limit.  Every round before the deciding one was within the
    limit and either showed a download in progress or no new file. *)
Theorem wait_for_download_outcome existing polls :
  match wait_for_download existing polls with
  | Downloaded path =>
      ∃ earlier p later e,
        polls = earlier ++ p :: later
        ∧ Forall (idle existing) earlier
        ∧ in_time p = true ∧ cr_downloads p = []
        ∧ e ∈ at_second_glob p ∧ entry_name e = path
        ∧ is_file e = true ∧ (path ∉ existing)
        ∧ (∀ e', e' ∈ new_files existing p → st_mtime e' ≤ st_mtime e)
  | DownloadTimeout =>
      ∃ earlier p later,
        polls = earlier ++ p :: later
        ∧ Forall (idle existing) earlier ∧ in_time p = false
  | Polling => Forall (idle existing) polls
  end.
Proof.
  induction polls as [|p polls IH]; [constructor|].
  cbn [wait_for_download].
  destruct (in_time p) eqn:Htime; cbn [negb];
    [|by exists [], p, polls].
  assert (Hidle : idle existing p →
    match wait_for_download existing polls with
    | Downloaded path =>
        ∃ earlier p0 later e,
          p :: polls = earlier ++ p0 :: later
          ∧ Forall (idle existing) earlier
          ∧ in_time p0 = true ∧ cr_downloads p0 = []
          ∧ e ∈ at_second_glob p0 ∧ entry_name e = path
          ∧ is_file e = true ∧ (path ∉ existing)
          ∧ (∀ e', e' ∈ new_files existing p0 → st_mtime e' ≤ st_mtime e)
    | DownloadTimeout =>
        ∃ earlier p0 later,
          p :: polls = earlier ++ p0 :: later
          ∧ Forall (idle existing) earlier ∧ in_time p0 = false
    | Polling => Forall (idle existing) (p :: polls)
    end).
  { intros Hp. destruct (wait_for_download existing polls) as [path| |].
    - destruct IH as (earlier & p0 & later & e & -> & Hearlier & Hrest).
      exists (p :: earlier), p0, later, e. split; [done|].
      split; [by constructor|done].
    - destruct IH as (earlier & p0 & later & -> & Hearlier & Hrest).
      exists (p :: earlier), p0, later. split; [done|].
      split; [by constructor|done].
    - by constructor. }
  case_bool_decide as Hcr; cbn [negb]; [|apply Hidle; split; [done|by left]].
  destruct (sorted _ (new_files existing p)) as [|f files] eqn:Hsorted.
  { apply Hidle. split; [done|right].
    destruct (new_files existing p) as [|e es]; [done|].
    assert (e ∈ sorted (λ a b, st_mtime a <=? st_mtime b) (e :: es)) as Hin
      by (apply (sorted_elem_of st_mtime); left).
    rewrite Hsorted in Hin. by apply elem_of_nil in Hin. }
  set (e := List.last files f).
  assert (Hlast : e = List.last (f :: files) f).
  { subst e. by destruct files. }
  assert (He : e ∈ new_files existing p).
  { apply (sorted_elem_of st_mtime). rewrite Hsorted, Hlast.
    by apply last_elem_of. }
  apply list_elem_of_filter in He as [[Hfile Hnew]%andb_prop_elim He].
  exists [], p, polls, e. split; [done|]. split; [constructor|].
  split; [done|]. split; [done|]. split; [done|]. split; [done|].
  split; [by apply Is_true_true|]. split; [by apply bool_decide_unpack in Hnew|].
  intros e' He'. rewrite Hlast, <- Hsorted.
  apply (sorted_last st_mtime). by apply (sorted_elem_of st_mtime).
Qed.

End DriverFacts.

(** ** The crawl *)

Section CrawlFacts.
Import Run.
Variable zip_size : list (string * file) → Z.
Variable overwrite : bool.
Variable max_products : Z.
Variable filters : list string.
Variable site_series : string → outcome series_page.
Variable site_product : nat → ProductContext → Crawler.attempt * Crawler.attempt.

Local Abbreviation products_loop :=
  (Run.products_loop zip_size overwrite max_products site_product).
Local Abbreviation series_loop :=
  (Run.series_loop zip_size overwrite max_products filters site_series
     site_product).
Local Abbreviation crawl :=
  (Run.crawl zip_size overwrite max_products filters site_series
     site_product).
Local Abbreviation series_products :=
  (Run.series_products filters site_series).
Local Abbreviation call p product :=
  (Crawler.process_product zip_size overwrite product
     (site_product (calls p) product) (world p)).

Lemma select_elem_of product products :
  product ∈ select filters products → product ∈ products.
Proof.
  unfold select. destruct filters; [done|].
  intros Hin. apply list_elem_of_In, List.filter_In in Hin as [Hin _].
  by apply list_elem_of_In.
Qed.

(** An invariant of the body of the product loop, for products that
    satisfy [Q], is one of the whole crawl when every collected product
    satisfies [Q]. *)
Lemma products_loop_invariant (Q : ProductContext → Prop)
    (I : progress → Prop) products p :
  (∀ p product,
     Q product → I p →
     negb (max_products =? 0) && (max_products <=? processed_count p) = false →
     I (record_result product p (call p product))) →
  Forall Q products →
  I p → I (products_loop products p).2.
Proof.
  intros Hstep Hall. revert p. induction Hall as [|product rest HQ Hall IH];
    intros p Hp; [done|].
  cbn [Run.products_loop].
  destruct (negb (max_products =? 0) && (max_products <=? processed_count p))
    eqn:Hguard; [done|].
  apply IH. by apply Hstep.
Qed.

Lemma series_loop_invariant (Q : ProductContext → Prop)
    (I : progress → Prop) series_urls p :
  (∀ url page product,
     site_series url = Returned page →
     product ∈ collect_products_from_series url page → Q product) →
  (∀ p product,
     Q product → I p →
     negb (max_products =? 0) && (max_products <=? processed_count p) = false →
     I (record_result product p (call p product))) →
  (∀ p url, I p → I (opened url p)) →
  I p → I (series_loop series_urls p).2.
Proof.
  intros HQ Hstep Hlog. revert p. induction series_urls as [|url rest IH];
    intros p Hp; [done|].
  cbn [Run.series_loop]. specialize (Hlog p url Hp).
  set (p1 := opened url p) in *.
  destruct (site_series url) as [page|e] eqn:Hsite; [|done].
  set (products := select filters _).
  assert (Hall : Forall Q products).
  { apply Forall_forall. intros product Hin. apply (HQ url page); [done|].
    by apply select_elem_of. }
  pose proof (products_loop_invariant Q I products p1 Hstep Hall Hlog)
    as Hloop.
  destruct (products_loop products p1) as [[] p2]; [done|].
  by apply IH.
Qed.

Lemma crawl_invariant (Q : ProductContext → Prop) (I : progress → Prop)
    series_url series_file index w :
  (∀ url page product,
     site_series url = Returned page →
     product ∈ collect_products_from_series url page → Q product) →
  (∀ p product,
     Q product → I p →
     negb (max_products =? 0) && (max_products <=? processed_count p) = false →
     I (record_result product p (call p product))) →
  (∀ p url, I p → I (opened url p)) →
  I (Progress w [] 0 0 []) →
  I (crawl series_url series_file index w).2.
Proof.
  intros HQ Hstep Hlog Hstart. unfold Run.crawl.
  destruct (listing series_url series_file index); [|done].
  by apply (series_loop_invariant Q).
Qed.

Lemma record_result_history product p r :
  history (record_result product p r) = history p ++ [(product, r.1)]
  ∧ calls (record_result product p r) = S (calls p).
Proof. unfold record_result. by destruct r.1. Qed.

Lemma record_result_counts product p r :
  processed_count (record_result product p r)
  = processed_count p + (if succeeded r.1 then 1 else 0)
  ∧ processed_products (record_result product p r)
    = processed_products p ++ (if returned r.1 then [product] else []).
Proof.
  unfold record_result. destruct r as [[[]|e] w'];
    cbn [fst snd processed_count processed_products succeeded returned];
    rewrite ?app_nil_r, ?Z.add_0_r; done.
Qed.

Lemma filter_snoc {A} (f : A → bool) l x :
  filter (λ c, f c) (l ++ [x])
  = filter (λ c, f c) l ++ (if f x then [x] else []).
Proof.
  rewrite filter_app, filter_cons, filter_nil.
  destruct (f x); [by rewrite decide_True|].
  rewrite decide_False; [done|]. by intros [].
Qed.

(** X19. [crawl] counts the calls of [process_product] that returned
    [True] and records the products whose call returned at all: with the
    calls made listed in order, each with the way it ended, the count is
    the number of calls that returned [True], the recorded products are
    the products of the calls that returned, in order, and the n-th call
    listed is the call of [process_product] for its product with the
    n-th answer of the site.  So the count never exceeds the number
    recorded, and the number recorded never exceeds the number of calls
    made; with a positive [--max-products] the count stops at that
    number. *)
Theorem crawl_max_products series_url series_file index w :
  let p := (crawl series_url series_file index w).2 in
  processed_count p
  = Z.of_nat (length (filter (λ c, succeeded c.2) (history p)))
  ∧ processed_products p = (filter (λ c, returned c.2) (history p)).*1
  ∧ calls p = length (history p)
  ∧ (∀ n c, history p !! n = Some c →
        ∃ w', c.2 = (Crawler.process_product zip_size overwrite c.1
                       (site_product n c.1) w').1)
  ∧ 0 ≤ processed_count p ≤ Z.of_nat (length (processed_products p))
  ∧ (length (processed_products p) ≤ calls p)%nat
  ∧ (0 < max_products → processed_count p ≤ max_products).
Proof.
  cbv zeta.
  apply (crawl_invariant (λ _, True)
           (λ p, processed_count p
                 = Z.of_nat (length (filter (λ c, succeeded c.2) (history p)))
                 ∧ processed_products p
                   = (filter (λ c, returned c.2) (history p)).*1
                 ∧ calls p = length (history p)
                 ∧ (∀ n c, history p !! n = Some c →
                      ∃ w', c.2 = (Crawler.process_product zip_size overwrite
                                     c.1 (site_product n c.1) w').1)
                 ∧ 0 ≤ processed_count p
                     ≤ Z.of_nat (length (processed_products p))
                 ∧ (length (processed_products p) ≤ calls p)%nat
                 ∧ (0 < max_products → processed_count p ≤ max_products))).
  - done.
  - intros p product _ (Hcount & Hrec & Hcalls & Hnth & Hle & Hlen & Hmax)
      Hguard.
    assert (Hroom : 0 < max_products → processed_count p < max_products).
    { intros Hpos. apply andb_false_iff in Hguard as [Hz|Hgt].
      - apply negb_false_iff, Z.eqb_eq in Hz. lia.
      - apply Z.leb_gt in Hgt. lia. }
    assert (Hnth' : ∀ n c,
              (history p ++ [(product, (call p product).1)]) !! n = Some c →
              ∃ w', c.2 = (Crawler.process_product zip_size overwrite c.1
                             (site_product n c.1) w').1).
    { intros n c [Hold | [Hn Hnew]]%lookup_app_Some; [by apply Hnth|].
      apply list_lookup_singleton_Some in Hnew as [Hzero <-].
      assert (n = calls p) as -> by lia. by exists (world p). }
    destruct (record_result_history product p (call p product))
      as [Hhist' Hcalls'].
    destruct (record_result_counts product p (call p product))
      as [Hcount' Hrec'].
    rewrite Hhist', Hcalls', Hcount', Hrec'.
    rewrite (filter_snoc (λ c, succeeded c.2)).
    rewrite (filter_snoc (λ c, returned c.2)).
    cbn [snd]. rewrite !length_app.
    split; [|split; [|split; [|split; [|split; [|split]]]]].
    + destruct (succeeded _); cbn [length]; lia.
    + rewrite fmap_app, Hrec. by destruct (returned _).
    + cbn [length]. lia.
    + exact Hnth'.
    + destruct (call p product).1 as [[]|];
        cbn [succeeded returned length]; lia.
    + destruct (returned _); cbn [length]; lia.
    + intros Hpos. specialize (Hmax Hpos). specialize (Hroom Hpos).
      destruct (succeeded _); lia.
  - done.
  - cbn. repeat split; try done; try lia.
Qed.


(** The calls one series adds: for a prefix of its products, in order,
    and for all of them when the loop runs to its end, as it does when
    there is no limit. *)
Lemma products_loop_history products p :
  ∃ h, history (products_loop products p).2 = history p ++ h
       ∧ h.*1 `prefix_of` products
       ∧ ((products_loop products p).1 = false → h.*1 = products)
       ∧ (max_products = 0 → (products_loop products p).1 = false).
Proof.
  revert p. induction products as [|product rest IH]; intros p.
  { exists []. by rewrite app_nil_r. }
  cbn [Run.products_loop].
  destruct (negb (max_products =? 0) && (max_products <=? processed_count p))
    eqn:Hguard.
  - exists []. rewrite app_nil_r. split; [done|].
    split; [apply prefix_nil|]. split; [done|].
    intros ->. done.
  - destruct (IH (record_result product p (call p product)))
      as (h & Hh & Hpre & Hall & Hzero).
    destruct (record_result_history product p (call p product)) as [Hrec _].
    exists ((product, (call p product).1) :: h).
    rewrite Hh, Hrec, <- (assoc_L (++)). split; [done|]. csimpl.
    split; [by apply prefix_cons|]. split; [|done].
    intros Hend. by rewrite Hall.
Qed.

Lemma series_loop_history urls p :
  ∃ h, history (series_loop urls p).2 = history p ++ h
       ∧ h.*1 `prefix_of` concat (series_products <$> urls)
       ∧ (max_products = 0 →
          Forall (λ url, ∃ page, site_series url = Returned page) urls →
          (series_loop urls p).1 = Returned ()
          ∧ h.*1 = concat (series_products <$> urls)).
Proof.
  revert p. induction urls as [|url urls IH]; intros p.
  { exists []. by rewrite app_nil_r. }
  cbn [Run.series_loop]. csimpl. unfold Run.series_products at 1 3.
  destruct (site_series url) as [page|e] eqn:Hsite.
  - set (products := select filters _).
    destruct (products_loop_history products (opened url p))
      as (h1 & Hh1 & Hpre1 & Hall1 & Hzero1).
    destruct (products_loop products (opened url p)) as [[] p1];
      cbn [fst snd] in *.
    + exists h1. split; [done|]. split; [by apply prefix_app_r|].
      intros Hz _. by specialize (Hzero1 Hz).
    + destruct (IH p1) as (h2 & Hh2 & Hpre2 & Hall2).
      exists (h1 ++ h2). rewrite Hh2, Hh1, <- (assoc_L (++)).
      split; [done|]. rewrite fmap_app, (Hall1 eq_refl).
      split; [by apply prefix_app|].
      intros Hz [_ Hrest]%Forall_cons.
      destruct (Hall2 Hz Hrest) as [-> ->]. done.
  - exists []. rewrite app_nil_r. split; [done|].
    split; [apply prefix_nil|].
    intros _ [[page Hpage] _]%Forall_cons. congruence.
Qed.

(** X21. An exception leaves [crawl] only when reading the series file,
    loading the series index or loading the page of one of the series it
    goes through raised it: whatever [process_product] raises is caught,
    and the later products are still tried.  The calls of
    [process_product] are made for the selected products of the series in
    order, each product once; with no limit on the products and series
    pages that load, [crawl] returns and has called [process_product] for
    every selected product of every series, whatever the calls returned
    or raised. *)
Theorem crawl_raises_only_listing series_url series_file index w :
  let r := crawl series_url series_file index w in
  (∀ e, r.1 = Raised e →
     series_file = Some (Raised e)
     ∨ index = Raised e
     ∨ ∃ urls url, listing series_url series_file index = Returned urls
                   ∧ url ∈ urls ∧ site_series url = Raised e)
  ∧ (∀ urls, listing series_url series_file index = Returned urls →
       (history r.2).*1 `prefix_of` concat (series_products <$> urls)
       ∧ (max_products = 0 →
          Forall (λ url, ∃ page, site_series url = Returned page) urls →
          r.1 = Returned ()
          ∧ (history r.2).*1 = concat (series_products <$> urls))).
Proof.
  cbv zeta. unfold Run.crawl. split.
  - intros e.
    destruct (listing series_url series_file index) as [urls|e'] eqn:Hlist.
    + intros Hraised. do 2 right. exists urls.
      assert (Hloop : ∀ urls p, (series_loop urls p).1 = Raised e →
                                ∃ url, url ∈ urls ∧ site_series url = Raised e).
      { clear. induction urls as [|url urls IH]; intros p; [done|].
        cbn [Run.series_loop].
        destruct (site_series url) as [page|e'] eqn:Hsite.
        - destruct (Run.products_loop _ _ _ _ _ _) as [[] p']; [done|].
          intros (u & Hu & Hsite')%IH. exists u. split; [by right|done].
        - intros [= ->]. exists url. split; [left|done]. }
      destruct (Hloop _ _ Hraised) as (url & Hin & Hsite). by exists url.
    + intros [= ->]. unfold listing, series_overrides in Hlist.
      destruct series_file as [[urls|e']|].
      * right. left. unfold collect_series_urls in Hlist.
        destruct (series_url ++ urls); [|done]. destruct index; congruence.
      * left. congruence.
      * right. left. unfold collect_series_urls in Hlist.
        destruct series_url; [|done]. destruct index; congruence.
  - intros urls ->.
    destruct (series_loop_history urls (Progress w [] 0 0 []))
      as (h & Hh & Hpre & Hall).
    cbn [history app] in Hh. rewrite Hh. by split.
Qed.

(** X22. [crawl] changes the directories of the products it collects and
    no other: when the codes the series pages yield are names of
    directories directly under the output root, none of the empty name,
    [.] and [..], a product code that no series page yields keeps the
    directory it had. *)
Theorem crawl_other_products series_url series_file index w other :
  (∀ url page product,
     site_series url = Returned page →
     product ∈ collect_products_from_series url page →
     code product ≠ other ∧ code product ∉ [""; "."; ".."]) →
  Crawler.output_root (world (crawl series_url series_file index w).2)
    !! other
  = Crawler.output_root w !! other.
Proof.
  intros Hother.
  apply (crawl_invariant (λ product, code product ≠ other)
           (λ p, Crawler.output_root (world p) !! other
                 = Crawler.output_root w !! other)).
  - intros url page product Hsite Hin. by apply (Hother url page).
  - intros p product Hne Hp _. rewrite <- Hp.
    pose proof (process_product_other zip_size overwrite product
                  (site_product (calls p) product) (world p) other
                  (not_eq_sym Hne)) as Hstep.
    unfold record_result.
    by destruct (Crawler.process_product _ _ _ _ _) as [[b|e] w'].
  - done.
  - done.
Qed.

(** X23. Every product [crawl] records carries a code that
    [sanitize_filename] leaves as it is: the name of its directory holds
    none of [/], [\] and [:] and no stray whitespace. *)
Theorem crawl_codes_sanitized series_url series_file index w product :
  product ∈ processed_products (crawl series_url series_file index w).2 →
  Names.sanitize_filename (code product) = code product
  ∧ Names.all_chars (λ c, negb (Names.is_separator c)) (code product) = true.
Proof.
  set (Q := λ product : ProductContext,
         Names.sanitize_filename (code product) = code product
         ∧ Names.all_chars (λ c, negb (Names.is_separator c)) (code product)
           = true).
  intros Hin.
  assert (Hall : Forall Q
            (processed_products (crawl series_url series_file index w).2)).
  { apply (crawl_invariant Q (λ p, Forall Q (processed_products p))).
    - intros url page prod _ Hprod. unfold collect_products_from_series in Hprod.
      apply list_elem_of_omap in Hprod as ([[text href]|] & _ & Hrow);
        [|done].
      injection Hrow as <-. subst Q. cbn [code]. split.
      + apply sanitize_filename_idem.
      + apply sanitize_filename_shape.
    - intros p prod HQ Hp _. unfold record_result.
      destruct (Crawler.process_product _ _ _ _ _) as [[b|e] w'];
        cbn [fst processed_products]; [|done].
      apply Forall_app. split; [done|]. constructor; [exact HQ|constructor].
    - done.
    - constructor. }
  rewrite Forall_forall in Hall. by apply Hall.
Qed.

End CrawlFacts.

(** ** The audit of the output roots *)

Section SortedAny.
Context {A : Type} (le : A → A → bool).

Lemma insert_sorted_elem_of_le x y l :
  y ∈ insert_sorted le x l ↔ y = x ∨ y ∈ l.
Proof.
  induction l as [|z l IH]; simpl.
  - rewrite list_elem_of_singleton, elem_of_nil. tauto.
  - destruct (le x z); rewrite !elem_of_cons; [tauto|].
    rewrite IH. tauto.
Qed.

Lemma sorted_elem_of_le y l : y ∈ sorted le l ↔ y ∈ l.
Proof.
  induction l as [|x l IH]; [done|]. unfold sorted in *. simpl.
  rewrite insert_sorted_elem_of_le, elem_of_cons, IH. tauto.
Qed.

End SortedAny.

Section RootsFacts.
Import Roots.
Variable zip_size : list (string * file) → Z.

Lemma audited_marked d : marked (audited zip_size d) = marked d.
Proof.
  unfold marked, audited. cbn [files].
  destruct (validate_product_dir_evolves zip_size d) as (Hframe & _).
  cbn [Audit.dir] in Hframe.
  rewrite (Hframe ".complete"); [done| |done]. repeat constructor.
Qed.

Lemma validate_root_unmarked subdirs e :
  e ∈ subdirs → marked e.2 = false → e ∈ (validate_root zip_size subdirs).2.
Proof.
  intros He Hm. unfold validate_root. cbn [snd].
  apply list_elem_of_fmap. exists e. by rewrite Hm.
Qed.

Lemma validate_root_marked subdirs n d :
  (n, d) ∈ subdirs → marked d = true →
  (n, audited zip_size d) ∈ (validate_root zip_size subdirs).2.
Proof.
  intros He Hm. unfold validate_root. cbn [snd].
  apply list_elem_of_fmap. exists (n, d). cbn [fst snd]. by rewrite Hm.
Qed.

Lemma validate_root_results subdirs n r :
  (n, r) ∈ (validate_root zip_size subdirs).1 →
  ∃ d, (n, d) ∈ subdirs ∧ marked d = true
       ∧ r = Audit.validate_product_dir zip_size d.
Proof.
  unfold validate_root. cbn [fst snd].
  intros ([n' d] & Hin & Hsome)%list_elem_of_omap.
  apply sorted_elem_of_le in Hin.
  cbn [fst snd] in Hsome. destruct (marked d) eqn:Hm; [|done].
  injection Hsome as <- <-. by exists d.
Qed.

Lemma validate_roots_keeps_unmarked roots t root subdirs e :
  t !! root = Some subdirs → e ∈ subdirs → marked e.2 = false →
  ∃ subdirs', (validate_roots zip_size roots t).2 !! root = Some subdirs'
              ∧ e ∈ subdirs'.
Proof.
  revert t subdirs. induction roots as [|r roots IH]; intros t subdirs Ht He Hm.
  { by exists subdirs. }
  cbn [validate_roots].
  destruct (t !! r) as [sub|] eqn:Hr; [|by eapply IH].
  pose proof (validate_root_unmarked sub) as Hun.
  destruct (validate_root zip_size sub) as [results sub'].
  cbn [snd] in Hun.
  destruct (decide (r = root)) as [->|Hne].
  - assert (sub = subdirs) as -> by congruence.
    specialize (IH (<[root := sub']> t) sub' (lookup_insert_eq _ _ _)
                   (Hun e He Hm) Hm).
    by destruct (validate_roots zip_size roots (<[root := sub']> t)).
  - assert ((<[r := sub']> t) !! root = Some subdirs) as Ht'
      by by rewrite lookup_insert_ne.
    specialize (IH _ _ Ht' He Hm).
    by destruct (validate_roots zip_size roots (<[r := sub']> t)).
Qed.

Lemma validate_roots_keeps_marked roots t root subdirs n d :
  t !! root = Some subdirs → (n, d) ∈ subdirs → marked d = true →
  ∃ subdirs' d', (validate_roots zip_size roots t).2 !! root = Some subdirs'
                 ∧ (n, d') ∈ subdirs' ∧ marked d' = true.
Proof.
  revert t subdirs d.
  induction roots as [|r roots IH]; intros t subdirs d Ht He Hm.
  { by exists subdirs, d. }
  cbn [validate_roots].
  destruct (t !! r) as [sub|] eqn:Hr; [|by eapply IH].
  pose proof (validate_root_marked sub) as Hmk.
  destruct (validate_root zip_size sub) as [results sub'].
  cbn [snd] in Hmk.
  destruct (decide (r = root)) as [->|Hne].
  - assert (sub = subdirs) as -> by congruence.
    assert (marked (audited zip_size d) = true) as Hm'
      by by rewrite audited_marked.
    specialize (IH (<[root := sub']> t) sub' _ (lookup_insert_eq _ _ _)
                   (Hmk n d He Hm) Hm').
    by destruct (validate_roots zip_size roots (<[root := sub']> t)).
  - assert ((<[r := sub']> t) !! root = Some subdirs) as Ht'
      by by rewrite lookup_insert_ne.
    specialize (IH _ _ _ Ht' He Hm).
    by destruct (validate_roots zip_size roots (<[r := sub']> t)).
Qed.

Lemma validate_roots_results roots t n s :
  (n, s) ∈ (validate_roots zip_size roots t).1 →
  ∃ root subdirs d,
    (validate_roots zip_size roots t).2 !! root = Some subdirs
    ∧ (n, d) ∈ subdirs ∧ marked d = true.
Proof.
  revert t. induction roots as [|r roots IH]; intros t.
  { by intros ?%elem_of_nil. }
  cbn [validate_roots].
  destruct (t !! r) as [sub|] eqn:Hr; [|apply IH].
  pose proof (validate_root_results sub) as Hres.
  pose proof (validate_root_marked sub) as Hmk.
  destruct (validate_root zip_size sub) as [results sub'].
  cbn [fst snd] in Hres, Hmk.
  specialize (IH (<[r := sub']> t)).
  pose proof (validate_roots_keeps_marked roots (<[r := sub']> t) r sub')
    as Hkeep.
  destruct (validate_roots zip_size roots (<[r := sub']> t)) as [later t'].
  cbn [fst snd] in *.
  intros [Hin|Hin]%elem_of_app; [|by apply IH].
  destruct (Hres n s Hin) as (d & Hd & Hm & _).
  destruct (Hkeep n (audited zip_size d)) as (sub'' & d' & ? & ? & ?).
  - apply lookup_insert_eq.
  - by apply Hmk.
  - by rewrite audited_marked.
  - by exists r, sub'', d'.
Qed.

(** X24. [validate_roots] reports on marked directories only and leaves
    the others alone: every result belongs to a directory that carries
    [.complete] when the pass is over, and a sub-directory of a root
    that has no marker is still there, with the same files and images,
    afterwards. *)
Theorem validate_roots_marked_only roots t :
  let r := validate_roots zip_size roots t in
  (∀ n s, (n, s) ∈ r.1 →
     ∃ root subdirs d, r.2 !! root = Some subdirs ∧ (n, d) ∈ subdirs
                       ∧ marked d = true)
  ∧ (∀ root subdirs e,
       t !! root = Some subdirs → e ∈ subdirs → marked e.2 = false →
       ∃ subdirs', r.2 !! root = Some subdirs' ∧ e ∈ subdirs').
Proof.
  cbv zeta. split.
  - apply validate_roots_results.
  - intros root subdirs e. apply validate_roots_keeps_unmarked.
Qed.

End RootsFacts.

(** ** A second pass of the audit *)

Section AuditSettles.
Import PyStr Audit.
Variable zip_size : list (string * file) → Z.

Lemma unlink_names n l : (Dir.unlink n l).*1 = filter (λ m, m ≠ n) l.*1.
Proof.
  unfold Dir.unlink. induction l as [|[m f] l IH]; [done|].
  csimpl. rewrite !filter_cons. cbn [fst].
  destruct (decide (m ≠ n)); csimpl; by rewrite IH.
Qed.

Lemma unlink_sublist n l : (Dir.unlink n l).*1 `sublist_of` l.*1.
Proof. rewrite unlink_names. apply sublist_filter. Qed.

Lemma unlink_all_sublist qs l :
  (foldl (λ dir q, Dir.unlink q dir) l qs).*1 `sublist_of` l.*1.
Proof.
  revert l. induction qs as [|q qs IH]; intros l; [done|].
  simpl. etrans; [apply IH|apply unlink_sublist].
Qed.

Lemma remove_duplicates_sublist buckets l :
  (Auditor.remove_duplicates buckets l).2.*1 `sublist_of` l.*1.
Proof.
  revert l. induction buckets as [|[s ps] buckets IH]; intros l; [done|].
  destruct ps as [|first [|second more]]; cbn [Auditor.remove_duplicates];
    try apply IH.
  set (to_remove := filter _ _).
  specialize (IH (foldl (λ dir p, Dir.unlink p dir) l to_remove)).
  destruct (Auditor.remove_duplicates buckets _) as [removed l2].
  cbn [snd] in *. etrans; [exact IH|apply unlink_all_sublist].
Qed.

Lemma one_per_suffix_sublist names names' :
  names' `sublist_of` names → one_per_suffix names → one_per_suffix names'.
Proof.
  intros Hsub Hone n1 n2 suffix H1 H2.
  apply Hone; by eapply elem_of_sublist.
Qed.

Lemma NoDup_fst_agree {A B} (l : list (A * B)) k a b :
  NoDup l.*1 → (k, a) ∈ l → (k, b) ∈ l → a = b.
Proof.
  induction l as [|[k' c] l IH]; [by intros _ ?%elem_of_nil|].
  csimpl. intros [Hk Hnd]%NoDup_cons Ha Hb.
  apply elem_of_cons in Ha as [[= <- <-] | Ha];
    apply elem_of_cons in Hb as [[= <-] | Hb]; try done.
  - destruct Hk. apply list_elem_of_fmap. by exists (k, b).
  - subst. destruct Hk. apply list_elem_of_fmap. by exists (k, a).
  - by apply IH.
Qed.

Lemma NoDup_concat_elem (ps : list string) (ls : list (list string)) :
  NoDup (concat ls) → ps ∈ ls → NoDup ps.
Proof.
  induction ls as [|l ls IH]; [by intros _ ?%elem_of_nil|].
  simpl. intros (Hl & _ & Hls)%NoDup_app [-> | Hin]%elem_of_cons; auto.
Qed.

(** The bucket a name of the directory is filed in. *)
Lemma filed_in_bucket names n suffix :
  n ∈ names → suffix ∈ SUFFIXES → endswith n suffix = true →
  ∃ ps, (suffix, ps) ∈ Auditor.collect_by_suffix names ∧ n ∈ ps.
Proof.
  intros Hn Hs Hend.
  assert (Hfiled : n ∈ concat (Auditor.collect_by_suffix names).*2).
  { unfold Auditor.collect_by_suffix.
    rewrite collect_concat. simpl. rewrite app_nil_r.
    apply list_elem_of_filter. split; [|done].
    rewrite (bucket_of_endswith n suffix Hs Hend). by eexists. }
  apply elem_of_concat in Hfiled as (ps & Hnps & Hps).
  apply list_elem_of_fmap in Hps as ([s' ps'] & -> & Hb). cbn [snd] in Hnps.
  pose proof (collect_members names [] (Forall_nil_2 _)) as Hmem.
  rewrite Forall_forall in Hmem. destruct (Hmem _ Hb) as [_ Hmem'].
  cbn [fst snd] in Hmem'. rewrite Forall_forall in Hmem'.
  pose proof (Hmem' _ Hnps) as Hbk.
  rewrite (bucket_of_endswith n suffix Hs Hend) in Hbk.
  injection Hbk as <-. by exists ps'.
Qed.

Lemma dedup_one_per_suffix s :
  NoDup (dir s).*1 → one_per_suffix (dir (dedup_step s)).*1.
Proof.
  intros Hnd n1 n2 suffix H1 H2 Hs Hend1 Hend2.
  rewrite dedup_step_dir in H1, H2.
  set (buckets := Auditor.collect_by_suffix (dir s).*1) in *.
  pose proof (remove_duplicates_sublist buckets (dir s)) as Hsub.
  destruct (collect_by_suffix_NoDup _ Hnd) as (Hkeys & Hall & _).
  fold buckets in Hkeys, Hall.
  destruct (filed_in_bucket (dir s).*1 n1 suffix) as (ps & Hb & Hn1);
    [by eapply elem_of_sublist|done|done|].
  destruct (filed_in_bucket (dir s).*1 n2 suffix) as (ps2 & Hb2 & Hn2);
    [by eapply elem_of_sublist|done|done|].
  fold buckets in Hb, Hb2.
  assert (ps2 = ps) as -> by (by eapply (NoDup_fst_agree buckets)).
  pose proof (remove_duplicates_bucket buckets (dir s) suffix ps Hall Hb)
    as Hbucket.
  destruct ps as [|first [|second more]].
  - by apply elem_of_nil in Hn1.
  - apply list_elem_of_singleton in Hn1, Hn2. congruence.
  - cbv zeta in Hbucket. destruct Hbucket as [Hlook _].
    set (keep := Auditor.max_by _ _ _) in *.
    assert (Hkeep : ∀ n, n ∈ (Auditor.remove_duplicates buckets (dir s)).2.*1 →
                         n ∈ first :: second :: more → n = keep).
    { intros n Hn Hps. apply lookup_is_Some in Hn as [f Hf].
      rewrite (Hlook n Hps) in Hf. by destruct (decide (n = keep)). }
    by rewrite (Hkeep n1), (Hkeep n2).
Qed.

Lemma buckets_small l :
  NoDup l → one_per_suffix l →
  Forall (λ b, (length b.2 ≤ 1)%nat) (Auditor.collect_by_suffix l).
Proof.
  intros Hnd Hone. apply Forall_forall. intros [s ps] Hb. cbn [snd].
  destruct (collect_by_suffix_NoDup _ Hnd) as (_ & Hall & Hsub).
  assert (Hps : NoDup ps).
  { apply (NoDup_concat_elem ps _ Hall).
    apply list_elem_of_fmap. by exists (s, ps). }
  pose proof (collect_members l [] (Forall_nil_2 _)) as Hmem.
  rewrite Forall_forall in Hmem. destruct (Hmem _ Hb) as [_ Hmem'].
  cbn [fst snd] in Hmem'. rewrite Forall_forall in Hmem'.
  destruct ps as [|a [|b more]]; simpl; [lia|lia|exfalso].
  assert (Hin : ∀ q, q ∈ a :: b :: more → q ∈ l).
  { intros q Hq. apply Hsub, elem_of_concat. exists (a :: b :: more).
    split; [done|]. apply list_elem_of_fmap. by exists (s, a :: b :: more). }
  assert (Ha : a ∈ a :: b :: more) by left.
  assert (Hb' : b ∈ a :: b :: more) by (right; left).
  destruct (bucket_of_suffix a s (Hmem' a Ha)) as [Hs Hea].
  destruct (bucket_of_suffix b s (Hmem' b Hb')) as [_ Heb].
  assert (a = b) as -> by (apply (Hone a b s); auto).
  apply NoDup_cons in Hps as [Hnot _]. apply Hnot. left.
Qed.

Lemma remove_duplicates_small buckets l :
  Forall (λ b, (length b.2 ≤ 1)%nat) buckets →
  Auditor.remove_duplicates buckets l = ([], l).
Proof.
  induction 1 as [|[s ps] buckets Hlen _ IH]; [done|].
  destruct ps as [|a [|b more]]; cbn [Auditor.remove_duplicates]; try done.
  simpl in Hlen. lia.
Qed.

Lemma dedup_step_tidy s :
  NoDup (dir s).*1 → one_per_suffix (dir s).*1 → dedup_step s = s.
Proof.
  intros Hnd Hone. unfold dedup_step.
  rewrite remove_duplicates_small by by apply buckets_small.
  by destruct s.
Qed.

Lemma required_fold_same l s :
  dir (foldl required_step s l) = dir s
  ∧ fixed (foldl required_step s l) = fixed s.
Proof.
  revert s. induction l as [|entry l IH]; intros s; [done|].
  simpl. destruct (IH (required_step s entry)) as [-> ->].
  unfold required_step. by destruct (_ && _).
Qed.

Lemma pdf_step_sound s pdf : sound_pdf pdf.2 → pdf_step s pdf = s.
Proof.
  intros [Hpdf Hsize]. unfold pdf_step. rewrite Hpdf.
  by rewrite (proj2 (Z.eqb_neq _ _) Hsize).
Qed.

Lemma pdf_suffix_step_tidy s suffix :
  (∀ e, e ∈ dir s → endswith e.1 suffix = true → sound_pdf e.2) →
  pdf_suffix_step s suffix = s.
Proof.
  intros Hsound. unfold pdf_suffix_step.
  assert (Hall : Forall (λ e : string * file, sound_pdf e.2)
                   (glob suffix (dir s))).
  { apply Forall_forall. intros e [Hend He]%list_elem_of_filter.
    apply Hsound; [done|]. by apply Is_true_true. }
  induction Hall as [|pdf rest Hpdf _ IH]; [done|].
  simpl. by rewrite pdf_step_sound.
Qed.

Lemma pdf_phase_tidy l s :
  (∀ e suffix, e ∈ dir s → suffix ∈ l → endswith e.1 suffix = true →
               sound_pdf e.2) →
  foldl pdf_suffix_step s l = s.
Proof.
  induction l as [|suffix l IH]; intros Hsound; [done|].
  simpl. rewrite pdf_suffix_step_tidy.
  - apply IH. intros e x He Hx. apply Hsound; [done|by right].
  - intros e He. apply Hsound; [done|left].
Qed.

Lemma zip_step_settled kind mode s z :
  settled mode z.2 →
  dir (zip_step zip_size kind mode s z) = dir s
  ∧ fixed (zip_step zip_size kind mode s z) = fixed s.
Proof.
  unfold settled, zip_step.
  destruct (Sanitizer.clean_zip (zip_members z.2) mode) as [[changed kept] a].
  cbn [fst snd]. intros ->.
  destruct a as [entries|]; [by destruct (existsb _ _)|done].
Qed.

Lemma zips_step_tidy kind mode suffix s :
  (∀ e, e ∈ dir s → endswith e.1 suffix = true → settled mode e.2) →
  dir (zips_step zip_size kind mode suffix s) = dir s
  ∧ fixed (zips_step zip_size kind mode suffix s) = fixed s.
Proof.
  intros Hset. unfold zips_step.
  assert (Hall : Forall (λ e : string * file, settled mode e.2)
                   (glob suffix (dir s))).
  { apply Forall_forall. intros e [Hend He]%list_elem_of_filter.
    apply Hset; [done|]. by apply Is_true_true. }
  revert Hall. generalize (glob suffix (dir s)). intros zs Hall. revert s Hset.
  induction Hall as [|z rest Hz _ IH]; intros s Hset; [done|].
  simpl. destruct (zip_step_settled kind mode s z Hz) as [Hd Hf].
  destruct (IH (zip_step zip_size kind mode s z)) as [-> ->]; [|done].
  by rewrite Hd.
Qed.

(** A tidy directory goes through the audit unchanged and with nothing
    repaired. *)
Lemma validate_product_dir_tidy l imgs :
  tidy l →
  let r := validate_product_dir zip_size (ProductDir l imgs) in
  fixed r = [] ∧ dir r = l.
Proof.
  intros (Hnd & Hone & Hpdf & Hdxf & Hstep). cbv zeta.
  unfold validate_product_dir. cbn [files].
  rewrite dedup_step_tidy by done.
  set (s2 := foldl required_step _ _).
  destruct (required_fold_same Auditor.REQUIRED (State l "ok" [] []))
    as [Hd2 Hf2].
  fold s2 in Hd2, Hf2. cbn [dir fixed] in Hd2, Hf2.
  rewrite pdf_phase_tidy
    by (rewrite Hd2; intros e suffix He Hs; by apply Hpdf).
  set (s4 := zips_step _ "DXF" _ _ _).
  destruct (zips_step_tidy "DXF" "dxf" "_DXF.zip" s2) as [Hd4 Hf4];
    [by rewrite Hd2|].
  fold s4 in Hd4, Hf4.
  set (s5 := zips_step _ "STEP" _ _ _).
  destruct (zips_step_tidy "STEP" "step" "_STEP.zip" s4) as [Hd5 Hf5];
    [by rewrite Hd4, Hd2|].
  fold s5 in Hd5, Hf5.
  unfold images_step.
  destruct (Auditor.images_ok _); cbn [warn dir fixed]; split; congruence.
Qed.

(** *** What the first pass leaves *)

Lemma write_elem_of_NoDup e n f l :
  NoDup l.*1 → e ∈ Dir.write n f l → (e ∈ l ∧ e.1 ≠ n) ∨ e = (n, f).
Proof.
  induction l as [|[m g] l IH]; simpl.
  - intros _ ->%list_elem_of_singleton. by right.
  - csimpl. intros [Hm Hnd]%NoDup_cons.
    destruct (String.eqb_spec m n) as [-> | Hne].
    + intros [-> | He]%elem_of_cons; [by right|left].
      split; [by right|]. intros <-. apply Hm.
      apply list_elem_of_fmap. by exists e.
    + intros [-> | He]%elem_of_cons; [left; split; [left|done]|].
      destruct (IH Hnd He) as [[? ?] | ?]; [left; split; [by right|done]|].
      by right.
Qed.

Lemma clean_zip_again {D} (a : Sanitizer.archive D) mode :
  (Sanitizer.clean_zip (Sanitizer.clean_zip a mode).2 mode).1.1 = false.
Proof.
  destruct a as [entries|]; [|done].
  rewrite (clean_zip_Some entries).
  set (matching := filter (λ m, Sanitizer.is_target mode m) entries.*1).
  case_bool_decide as Hm.
  { cbn [snd]. rewrite clean_zip_Some. fold matching.
    by rewrite bool_decide_eq_true_2. }
  case_bool_decide as Hall.
  { cbn [snd]. rewrite clean_zip_Some. fold matching.
    by rewrite bool_decide_eq_false_2, bool_decide_eq_true_2. }
  cbn [fst snd]. rewrite clean_zip_Some.
  assert (Hnames : (Sanitizer.rebuild entries matching).*1
                   = PyPath.name <$> matching).
  { apply rebuild_names. by intros x [_ Hx]%list_elem_of_filter. }
  rewrite Hnames.
  assert (Hall' : Forall (λ m, Sanitizer.is_target mode m = true)
                    (PyPath.name <$> matching)).
  { apply Forall_fmap. eapply Forall_impl; [apply filter_targets_all|].
    intros m Ht. simpl. by rewrite is_target_name. }
  rewrite (filter_all_targets _ _ Hall').
  rewrite bool_decide_eq_false_2 by (by destruct matching).
  by rewrite bool_decide_eq_true_2.
Qed.

Lemma zip_step_names kind mode s z :
  z.1 ∈ (dir s).*1 →
  (dir (zip_step zip_size kind mode s z)).*1 `sublist_of` (dir s).*1
  ∧ ∀ n, n ∈ (dir s).*1 → n ≠ PyPath.with_suffix z.1 ".tmp.zip" →
         n ∈ (dir (zip_step zip_size kind mode s z)).*1.
Proof.
  intros Hz. unfold zip_step.
  destruct (Sanitizer.clean_zip (zip_members z.2) mode) as [[changed kept] a].
  set (tmp := PyPath.with_suffix z.1 ".tmp.zip").
  set (s' := if changed then _ else s).
  assert (Hnames : (dir s').*1 `sublist_of` (dir s).*1
                   ∧ ∀ n, n ∈ (dir s).*1 → n ≠ tmp → n ∈ (dir s').*1).
  { subst s'. destruct changed; [|done]. cbn [dir].
    rewrite unlink_names, write_names, decide_True by done.
    split; [apply sublist_filter|].
    intros n Hn Hne. by apply list_elem_of_filter. }
  destruct a as [entries|]; [by destruct (existsb _ _)|done].
Qed.

Lemma zip_step_cases kind mode s z e :
  NoDup (dir s).*1 →
  e ∈ dir (zip_step zip_size kind mode s z) →
  (e ∈ dir s ∧ (e = z → settled mode z.2))
  ∨ (e.1 = z.1 ∧ settled mode e.2).
Proof.
  intros Hnd. unfold zip_step, settled.
  pose proof (clean_zip_again (zip_members z.2) mode) as Hagain.
  destruct (Sanitizer.clean_zip (zip_members z.2) mode) as [[changed kept] a].
  cbn [fst snd] in *.
  set (f' := File _ _ _).
  set (s' := if changed then _ else s).
  assert (Hin : e ∈ dir s' →
                (e ∈ dir s ∧ (e = z → changed = false))
                ∨ (e.1 = z.1
                   ∧ (Sanitizer.clean_zip (zip_members e.2) mode).1.1 = false)).
  { subst s'. destruct changed; [|by left]. cbn [dir].
    intros [[[He Hne] | ->]%write_elem_of_NoDup _]%unlink_elem_of;
      [|by right|done].
    left. split; [done|]. by intros ->. }
  destruct a as [entries|]; [by destruct (existsb _ _)|done].
Qed.

Lemma zip_fold_settled kind mode suffix rest s :
  suffix ∈ SUFFIXES →
  NoDup (dir s).*1 →
  (∀ z, z ∈ rest → z.1 ∈ (dir s).*1 ∧ endswith z.1 suffix = true) →
  (∀ e, e ∈ dir s → endswith e.1 suffix = true →
        settled mode e.2 ∨ e ∈ rest) →
  ∀ e, e ∈ dir (foldl (zip_step zip_size kind mode) s rest) →
       endswith e.1 suffix = true → settled mode e.2.
Proof.
  intros Hs. revert s.
  induction rest as [|z rest IH]; intros s Hnd Hrest Hinv.
  - intros e He Hend. destruct (Hinv e He Hend) as [?|?%elem_of_nil]; done.
  - simpl.
    destruct (zip_step_names kind mode s z) as [Hsub Hstay];
      [apply Hrest; left|].
    apply IH.
    + by eapply sublist_NoDup.
    + intros z' Hz'. destruct (Hrest z') as [Hin Hend]; [by right|].
      split; [|done]. apply Hstay; [done|]. by eapply suffixed_not_tmp.
    + intros e He Hend.
      destruct (zip_step_cases kind mode s z e Hnd He)
        as [[Hold Hz] | [_ Hnew]]; [|by left].
      destruct (Hinv e Hold Hend) as [? | [-> | ?]%elem_of_cons];
        [by left| |by right].
      left. by apply Hz.
Qed.

Lemma glob_elem_of suffix l z :
  z ∈ glob suffix l → z ∈ l ∧ endswith z.1 suffix = true.
Proof.
  intros [Hend Hz]%list_elem_of_filter. split; [done|]. by apply Is_true_true.
Qed.

(** The rewrites keep the names of the directory, the temporary archives'
    apart. *)
Lemma zip_fold_names kind mode suffix rest s :
  suffix ∈ SUFFIXES →
  (∀ z, z ∈ rest → z.1 ∈ (dir s).*1 ∧ endswith z.1 suffix = true) →
  (dir (foldl (zip_step zip_size kind mode) s rest)).*1
    `sublist_of` (dir s).*1
  ∧ ∀ n x, n ∈ (dir s).*1 → x ∈ SUFFIXES → endswith n x = true →
           n ∈ (dir (foldl (zip_step zip_size kind mode) s rest)).*1.
Proof.
  intros Hs. revert s. induction rest as [|z rest IH]; intros s Hrest; [done|].
  simpl.
  destruct (zip_step_names kind mode s z) as [Hsub Hstay];
    [apply Hrest; left|].
  destruct (IH (zip_step zip_size kind mode s z)) as [Hsub' Hstay'].
  { intros z' Hz'. destruct (Hrest z') as [Hin Hend]; [by right|].
    split; [|done]. apply Hstay; [done|]. by eapply suffixed_not_tmp. }
  split; [by etrans|].
  intros n x Hn Hx Hend. apply (Hstay' n x); [|done|done].
  apply Hstay; [done|]. by eapply suffixed_not_tmp.
Qed.

Lemma zips_step_names kind mode suffix s :
  suffix ∈ SUFFIXES →
  (dir (zips_step zip_size kind mode suffix s)).*1 `sublist_of` (dir s).*1
  ∧ ∀ n x, n ∈ (dir s).*1 → x ∈ SUFFIXES → endswith n x = true →
           n ∈ (dir (zips_step zip_size kind mode suffix s)).*1.
Proof.
  intros Hs. unfold zips_step. apply (zip_fold_names kind mode suffix); [done|].
  intros z [Hz Hend]%glob_elem_of. split; [|done].
  apply list_elem_of_fmap. by exists z.
Qed.

Lemma zips_step_settled kind mode suffix s :
  suffix ∈ SUFFIXES →
  NoDup (dir s).*1 →
  ∀ e, e ∈ dir (zips_step zip_size kind mode suffix s) →
       endswith e.1 suffix = true → settled mode e.2.
Proof.
  intros Hs Hnd. unfold zips_step. apply zip_fold_settled; [done|done| |].
  - intros z [Hz Hend]%glob_elem_of. split; [|done].
    apply list_elem_of_fmap. by exists z.
  - intros e He Hend. right. apply list_elem_of_filter.
    split; [by apply Is_true_true|done].
Qed.

Lemma zip_fold_other kind mode rest s e :
  e ∈ dir (foldl (zip_step zip_size kind mode) s rest) →
  e ∈ dir s ∨ ∃ z, z ∈ rest ∧ e.1 = z.1.
Proof.
  revert s. induction rest as [|z rest IH]; intros s; [by left|].
  simpl. intros [He | (z' & Hz' & Heq)]%IH.
  - assert (Hstep : e ∈ dir s ∨ e.1 = z.1).
    { revert He. unfold zip_step.
      destruct (Sanitizer.clean_zip (zip_members z.2) mode)
        as [[changed kept] a].
      set (f' := File _ _ _).
      set (s' := if changed then _ else s).
      assert (Hin : e ∈ dir s' → e ∈ dir s ∨ e.1 = z.1).
      { subst s'. destruct changed; [|by left]. cbn [dir].
        intros [[? | ->]%write_elem_of _]%unlink_elem_of;
          [by left|by right]. }
      destruct a as [entries|]; [by destruct (existsb _ _)|done]. }
    destruct Hstep as [? | ?]; [by left|right]. exists z. split; [left|done].
  - right. exists z'. split; [by right|done].
Qed.

Lemma suffix_disjoint n s1 s2 :
  s1 ∈ SUFFIXES → s2 ∈ SUFFIXES →
  endswith n s1 = true → endswith n s2 = true → s1 = s2.
Proof.
  intros H1 H2 He1 He2.
  pose proof (bucket_of_endswith n s1 H1 He1) as Hb1.
  pose proof (bucket_of_endswith n s2 H2 He2) as Hb2. congruence.
Qed.

Lemma pdf_step_sublist s pdf :
  (dir (pdf_step s pdf)).*1 `sublist_of` (dir s).*1.
Proof.
  unfold pdf_step. destruct (_ || _); [|done]. apply unlink_sublist.
Qed.

Lemma pdf_phase_sublist l s :
  (dir (foldl pdf_suffix_step s l)).*1 `sublist_of` (dir s).*1.
Proof.
  revert s. induction l as [|suffix l IH]; intros s; [done|].
  simpl. etrans; [apply IH|]. unfold pdf_suffix_step.
  generalize (glob suffix (dir s)). intros pdfs. revert s.
  induction pdfs as [|pdf pdfs IHp]; intros s; [done|].
  simpl. etrans; [apply IHp|apply pdf_step_sublist].
Qed.

Lemma validate_product_dir_leaves_tidy d :
  NoDup (files d).*1 → tidy (dir (validate_product_dir zip_size d)).
Proof.
  intros Hnd. unfold validate_product_dir.
  set (s0 := State (files d) "ok" [] []).
  set (s1 := dedup_step s0).
  set (s2 := foldl required_step s1 Auditor.REQUIRED).
  set (s3 := foldl pdf_suffix_step s2 PDF_SUFFIXES).
  set (s4 := zips_step zip_size "DXF" "dxf" "_DXF.zip" s3).
  set (s5 := zips_step zip_size "STEP" "step" "_STEP.zip" s4).
  assert (Hd1 : (dir s1).*1 `sublist_of` (files d).*1).
  { subst s1. rewrite dedup_step_dir. apply remove_duplicates_sublist. }
  assert (Hnd1 : NoDup (dir s1).*1) by by eapply sublist_NoDup.
  assert (Hone1 : one_per_suffix (dir s1).*1)
    by by apply (dedup_one_per_suffix s0).
  assert (Hd2 : dir s2 = dir s1) by apply required_fold_same.
  assert (Hd3 : (dir s3).*1 `sublist_of` (dir s1).*1).
  { rewrite <- Hd2. apply pdf_phase_sublist. }
  assert (Hnd3 : NoDup (dir s3).*1) by by eapply sublist_NoDup.
  assert (Hdxf : "_DXF.zip" ∈ SUFFIXES)
    by (apply suffix_in_table; right; left; repeat constructor).
  assert (Hstep : "_STEP.zip" ∈ SUFFIXES)
    by (apply suffix_in_table; right; left; repeat constructor).
  assert (Hd4 : (dir s4).*1 `sublist_of` (dir s3).*1)
    by by apply zips_step_names.
  assert (Hnd4 : NoDup (dir s4).*1) by by eapply sublist_NoDup.
  assert (Hd5 : (dir s5).*1 `sublist_of` (dir s4).*1)
    by by apply zips_step_names.
  assert (Hr : dir (images_step d s5) = dir s5).
  { unfold images_step. by destruct (Auditor.images_ok d). }
  rewrite Hr. split; [by eapply sublist_NoDup|]. split; [|split; [|split]].
  - eapply one_per_suffix_sublist; [|exact Hone1].
    etrans; [exact Hd5|]. etrans; [exact Hd4|exact Hd3].
  - intros e suffix He Hs.
    apply (sound_preserved s3 s5 suffix); [|done| |done].
    + eapply evolves_trans;
        apply zips_step_evolves; try done;
        apply suffix_in_table; right; left; repeat constructor.
    + by apply pdf_phase_sound.
  - intros e He Hend.
    apply (zip_fold_other "STEP" "step") in He as [He | (z & Hz & Heq)].
    + by apply (zips_step_settled "DXF" "dxf" "_DXF.zip" s3).
    + apply glob_elem_of in Hz as [_ Hz]. rewrite <- Heq in Hz.
      assert ("_DXF.zip" = "_STEP.zip") as Habs; [|done].
      apply (suffix_disjoint e.1); try done;
        apply suffix_in_table; right; left; repeat constructor.
  - by apply (zips_step_settled "STEP" "step" "_STEP.zip" s4).
Qed.

(** X25. In a directory with one file per name a second pass of the audit
    repairs nothing: run on what the first pass left, it lists no fix and
    leaves every file as it is. *)
Theorem validate_product_dir_settles d :
  NoDup (files d).*1 →
  let r := validate_product_dir zip_size d in
  let r' := validate_product_dir zip_size (ProductDir (dir r) (images d)) in
  fixed r' = [] ∧ dir r' = dir r.
Proof.
  intros Hnd. cbv zeta.
  by apply validate_product_dir_tidy, validate_product_dir_leaves_tidy.
Qed.

End AuditSettles.

(** ** The verdict ["ok"] *)

Section AuditVerdict.
Import PyStr Audit.
Variable zip_size : list (string * file) → Z.

Lemma adds_only_nil P s s' : adds_only P s s' → issues s' = [] → issues s = [].
Proof. intros (extra & -> & _) Hnil. by apply app_eq_nil in Hnil as [? _]. Qed.

Lemma pdf_fold_quiet l s :
  issues (foldl pdf_step s l) = [] → foldl pdf_step s l = s.
Proof.
  revert s. induction l as [|pdf l IH]; intros s; [done|].
  simpl. intros Hnil. rewrite (IH _ Hnil). rewrite (IH _ Hnil) in Hnil.
  revert Hnil. unfold pdf_step. destruct (_ || _); [|done].
  cbn [issues]. by intros [_ ?]%app_eq_nil.
Qed.

Lemma pdf_phase_quiet l s :
  issues (foldl pdf_suffix_step s l) = [] → foldl pdf_suffix_step s l = s.
Proof.
  revert s. induction l as [|suffix l IH]; intros s; [done|].
  simpl. intros Hnil. rewrite (IH _ Hnil). rewrite (IH _ Hnil) in Hnil.
  by apply pdf_fold_quiet.
Qed.

Lemma clean_zip_unchanged {D} (a : Sanitizer.archive D) mode :
  (Sanitizer.clean_zip a mode).1.1 = false → (Sanitizer.clean_zip a mode).2 = a.
Proof.
  destruct a as [entries|]; [|done]. rewrite clean_zip_Some.
  repeat case_bool_decide; done.
Qed.

Lemma zip_step_adds kind mode s z :
  adds_only (λ _, True) s (zip_step zip_size kind mode s z).
Proof.
  unfold zip_step.
  destruct (Sanitizer.clean_zip (zip_members z.2) mode) as [[changed kept] a].
  set (s'' := if changed then _ else s).
  assert (Hs'' : adds_only (λ _, True) s s'').
  { subst s''. destruct changed; [|apply adds_only_refl].
    exists []. split; [by rewrite app_nil_r|constructor]. }
  destruct a as [entries|]; [destruct (existsb _ _); [done|]|];
    (eapply adds_only_trans; [exact Hs''|by apply adds_only_warn]).
Qed.

Lemma zip_step_quiet kind mode s z e :
  NoDup (dir s).*1 →
  issues (zip_step zip_size kind mode s z) = [] →
  e ∈ dir (zip_step zip_size kind mode s z) →
  (e ∈ dir s ∧ (e = z → cad_archive mode z.2))
  ∨ (e.1 = z.1 ∧ cad_archive mode e.2).
Proof.
  intros Hnd. unfold zip_step, cad_archive.
  pose proof (clean_zip_unchanged (zip_members z.2) mode) as Hsame.
  destruct (Sanitizer.clean_zip (zip_members z.2) mode) as [[changed kept] a].
  cbn [fst snd] in Hsame.
  set (f' := File _ _ _).
  destruct a as [entries|];
    [|cbn [warn issues]; by intros [_ ?]%app_eq_nil].
  destruct (existsb _ _) eqn:Hcad;
    [|cbn [warn issues]; by intros [_ ?]%app_eq_nil].
  intros _. destruct changed.
  - cbn [dir].
    intros [[[He Hne] | ->]%write_elem_of_NoDup _]%unlink_elem_of;
      [|right|done].
    + left. split; [done|]. by intros ->.
    + split; [done|]. by exists entries.
  - intros He. left. split; [done|]. intros _.
    exists entries. by rewrite Hsame.
Qed.

Lemma zip_fold_quiet kind mode suffix rest s :
  suffix ∈ SUFFIXES →
  NoDup (dir s).*1 →
  (∀ z, z ∈ rest → z.1 ∈ (dir s).*1 ∧ endswith z.1 suffix = true) →
  (∀ e, e ∈ dir s → endswith e.1 suffix = true →
        cad_archive mode e.2 ∨ e ∈ rest) →
  issues (foldl (zip_step zip_size kind mode) s rest) = [] →
  ∀ e, e ∈ dir (foldl (zip_step zip_size kind mode) s rest) →
       endswith e.1 suffix = true → cad_archive mode e.2.
Proof.
  intros Hs. revert s.
  induction rest as [|z rest IH]; intros s Hnd Hrest Hinv Hnil.
  - intros e He Hend. destruct (Hinv e He Hend) as [?|?%elem_of_nil]; done.
  - simpl in Hnil |- *.
    destruct (zip_step_names zip_size kind mode s z) as [Hsub Hstay];
      [apply Hrest; left|].
    assert (Hnil' : issues (zip_step zip_size kind mode s z) = []).
    { eapply adds_only_nil; [|exact Hnil].
      apply foldl_adds_only. intros s' x. apply zip_step_adds. }
    apply IH; [by eapply sublist_NoDup| |  |done].
    + intros z' Hz'. destruct (Hrest z') as [Hin Hend]; [by right|].
      split; [|done]. apply Hstay; [done|]. by eapply suffixed_not_tmp.
    + intros e He Hend.
      destruct (zip_step_quiet kind mode s z e Hnd Hnil' He)
        as [[Hold Hz] | [_ Hnew]]; [|by left].
      destruct (Hinv e Hold Hend) as [? | [-> | ?]%elem_of_cons];
        [by left| |by right].
      left. by apply Hz.
Qed.

Lemma zips_step_quiet kind mode suffix s :
  suffix ∈ SUFFIXES →
  NoDup (dir s).*1 →
  issues (zips_step zip_size kind mode suffix s) = [] →
  ∀ e, e ∈ dir (zips_step zip_size kind mode suffix s) →
       endswith e.1 suffix = true → cad_archive mode e.2.
Proof.
  intros Hs Hnd. unfold zips_step. apply zip_fold_quiet; [done|done| |].
  - intros z [Hz Hend]%glob_elem_of. split; [|done].
    apply list_elem_of_fmap. by exists z.
  - intros e He Hend. right. apply list_elem_of_filter.
    split; [by apply Is_true_true|done].
Qed.

Lemma validate_product_dir_quiet d :
  NoDup (files d).*1 →
  let r := validate_product_dir zip_size d in
  issues r = [] →
  (∀ suffix, suffix ∈ audit_required →
     ∃ e, e ∈ dir r ∧ endswith e.1 suffix = true)
  ∧ (∀ e, e ∈ dir r → endswith e.1 "_DXF.zip" = true →
          cad_archive "dxf" e.2)
  ∧ (∀ e, e ∈ dir r → endswith e.1 "_STEP.zip" = true →
          cad_archive "step" e.2)
  ∧ Auditor.images_ok d = true.
Proof.
  intros Hnd. cbv zeta. unfold validate_product_dir.
  set (s0 := State (files d) "ok" [] []).
  set (s1 := dedup_step s0).
  set (s2 := foldl required_step s1 Auditor.REQUIRED).
  set (s3 := foldl pdf_suffix_step s2 PDF_SUFFIXES).
  set (s4 := zips_step zip_size "DXF" "dxf" "_DXF.zip" s3).
  set (s5 := zips_step zip_size "STEP" "step" "_STEP.zip" s4).
  intros Hnil.
  assert (Himg : Auditor.images_ok d = true ∧ issues s5 = []).
  { revert Hnil. unfold images_step. destruct (Auditor.images_ok d); [done|].
    cbn [warn issues]. by intros [_ ?]%app_eq_nil. }
  destruct Himg as [Himg Hnil5].
  assert (Hr : dir (images_step d s5) = dir s5).
  { unfold images_step. by destruct (Auditor.images_ok d). }
  rewrite Hr.
  assert (Hnil4 : issues s4 = [])
    by (eapply adds_only_nil; [apply zips_step_adds|exact Hnil5]).
  assert (Hnil3 : issues s3 = [])
    by (eapply adds_only_nil; [apply zips_step_adds|exact Hnil4]).
  assert (Hs3 : s3 = s2) by by apply pdf_phase_quiet.
  assert (Hnil2 : issues s2 = []) by by rewrite <- Hs3.
  assert (Hd2 : dir s2 = dir s1) by apply required_fold_same.
  assert (Hd1 : (dir s1).*1 `sublist_of` (files d).*1).
  { subst s1. rewrite dedup_step_dir. apply remove_duplicates_sublist. }
  assert (Hnd3 : NoDup (dir s3).*1).
  { rewrite Hs3, Hd2. by eapply sublist_NoDup. }
  assert (Hdxf : "_DXF.zip" ∈ SUFFIXES)
    by (apply suffix_in_table; right; left; repeat constructor).
  assert (Hstep : "_STEP.zip" ∈ SUFFIXES)
    by (apply suffix_in_table; right; left; repeat constructor).
  destruct (zips_step_names zip_size "DXF" "dxf" "_DXF.zip" s3 Hdxf)
    as [Hd4 Hstay4].
  fold s4 in Hd4, Hstay4.
  assert (Hnd4 : NoDup (dir s4).*1) by by eapply sublist_NoDup.
  destruct (zips_step_names zip_size "STEP" "step" "_STEP.zip" s4 Hstep)
    as [Hd5 Hstay5].
  fold s5 in Hd5, Hstay5.
  split; [|split; [|split]]; [| | |done].
  - intros suffix Hs.
    destruct (required_fold Auditor.REQUIRED s1 suffix) as [_ Hiff].
    fold s2 in Hiff. rewrite Hnil2 in Hiff.
    assert (Hreq : (suffix, true) ∈ Auditor.REQUIRED).
    { unfold audit_required in Hs. unfold Auditor.REQUIRED.
      repeat (apply elem_of_cons in Hs as [-> | Hs];
              [repeat first [apply list_elem_of_here
                            |apply list_elem_of_further]|]).
      by apply elem_of_nil in Hs. }
    destruct (glob suffix (dir s1)) as [|e rest] eqn:Hglob.
    { exfalso. eapply elem_of_nil, Hiff. right. by split. }
    assert (He : e ∈ glob suffix (dir s1)) by (rewrite Hglob; left).
    apply glob_elem_of in He as [He Hend].
    assert (Htable : suffix ∈ SUFFIXES).
    { apply suffix_in_table. do 2 right.
      apply list_elem_of_fmap. by exists (suffix, true). }
    assert (Hname : e.1 ∈ (dir s5).*1).
    { apply (Hstay5 _ suffix); [|done|done].
      apply (Hstay4 _ suffix); [|done|done].
      rewrite Hs3, Hd2. apply list_elem_of_fmap. by exists e. }
    apply list_elem_of_fmap in Hname as (e' & Heq & He').
    exists e'. split; [done|]. by rewrite <- Heq.
  - intros e He Hend.
    apply (zip_fold_other zip_size "STEP" "step") in He
      as [He | (z & Hz & Heq)].
    + by apply (zips_step_quiet "DXF" "dxf" "_DXF.zip" s3).
    + apply glob_elem_of in Hz as [_ Hz]. rewrite <- Heq in Hz.
      assert ("_DXF.zip" = "_STEP.zip") as Habs; [|done].
      apply (suffix_disjoint e.1); try done;
        apply suffix_in_table; right; left; repeat constructor.
  - by apply (zips_step_quiet "STEP" "step" "_STEP.zip" s4).
Qed.

(** X26. The verdict ["ok"] on a directory with one file per name means
    that the directory the audit leaves has a file for each of Catalog,
    Dimension, DXF and STEP, that every archive it has under [_DXF.zip]
    or [_STEP.zip] opens and holds a member of its kind, and that
    [Images/] holds a non-empty picture. *)
Theorem validate_product_dir_ok d :
  NoDup (files d).*1 →
  let r := validate_product_dir zip_size d in
  status r = "ok" →
  (∀ suffix, suffix ∈ audit_required →
     ∃ e, e ∈ dir r ∧ endswith e.1 suffix = true)
  ∧ (∀ e, e ∈ dir r → endswith e.1 "_DXF.zip" = true →
          cad_archive "dxf" e.2)
  ∧ (∀ e, e ∈ dir r → endswith e.1 "_STEP.zip" = true →
          cad_archive "step" e.2)
  ∧ Auditor.images_ok d = true.
Proof.
  intros Hnd. cbv zeta. intros Hok.
  apply (validate_product_dir_quiet d Hnd).
  destruct (validate_product_dir_evolves zip_size d) as (_ & _ & _ & Hc).
  destruct Hc as [[_ Hi] | [Hs _]]; [by left|done|].
  rewrite Hs in Hok. discriminate Hok.
Qed.

End AuditVerdict.

(** ** The properties above on concrete inputs *)

Lemma process_product_other_products_witness :
  Crawler.output_root
    (Crawler.process_product stored_size false xyz
       (catalog_only, catalog_only) legacy_world).2 !! "OLD-1"
  = Some scenario_c.
Proof.
  rewrite (process_product_other_products stored_size false xyz
             (catalog_only, catalog_only) legacy_world "OLD-1").
  - vm_compute. reflexivity.
  - split; [|reflexivity]. apply (bool_decide_unpack _). vm_compute. exact I.
  - vm_compute. discriminate.
Defined.

Lemma process_product_row_missing_witness :
  let r := Crawler.process_product stored_size true xyz
             (row_missing, full_delivery) marked_world in
  r.1 = Returned false ∧ Crawler.output_root r.2 !! "XYZ" = None.
Proof.
  destruct (process_product_row_missing stored_size true xyz
              (row_missing, full_delivery) marked_world) as [Hret Hgone].
  - vm_compute. reflexivity.
  - split.
    + apply Hret. left. reflexivity.
    + apply Hgone, Hret. left. reflexivity.
Defined.

Lemma process_product_marker_witness :
  is_Some (marker_at "XYZ"
             (Crawler.process_product stored_size false xyz
                (catalog_only, full_delivery) fresh_world).2).
Proof.
  apply (process_product_marker stored_size false xyz
           (catalog_only, full_delivery) fresh_world).
  - vm_compute. reflexivity.
  - split; vm_compute; reflexivity.
Defined.

Lemma process_product_keeps_marker_witness :
  let r := Crawler.process_product stored_size true xyz
             (catalog_only, catalog_only) marked_world in
  Crawler.required_files_present_at "XYZ" r.2 = false
  ∧ is_Some (marker_at "XYZ" r.2).
Proof.
  split; [vm_compute; reflexivity|].
  apply (process_product_keeps_marker stored_size true xyz
           (catalog_only, catalog_only) marked_world).
  - exists (File 2 (Some "ok") None). vm_compute. reflexivity.
  - vm_compute. discriminate.
Defined.

Lemma process_product_not_retried_witness :
  let r := Crawler.process_product stored_size false xyz
             (catalog_only, catalog_only) fresh_world in
  Crawler.required_files_present_at "XYZ" r.2 = false
  ∧ Crawler.process_product stored_size false xyz
      (full_delivery, full_delivery) r.2 = (Returned false, r.2).
Proof.
  split; [vm_compute; reflexivity|].
  apply (process_product_not_retried stored_size false xyz
           (catalog_only, catalog_only) fresh_world
           (full_delivery, full_delivery)).
  vm_compute. discriminate.
Defined.

Lemma optional_files_checked_witness :
  let f := File 4194 (Some Crawler.ZIP_MAGIC) (Some [("XYZ.step", step_file)]) in
  1000 ≤ st_size f
  ∧ format_check "_STEP.zip" f = true
  ∧ PyStr.contains "XYZ_STEP.zip" "XYZ" = true.
Proof.
  apply (optional_files_checked "XYZ" step_dir "_STEP.zip" "XYZ_STEP.zip" _ []).
  - vm_compute. reflexivity.
  - left.
  - vm_compute. reflexivity.
Defined.

Lemma clean_zip_kept_witness :
  ∃ rest, rest ≠ []
          ∧ PyPath.name <$> ["good.dxf"; "bad.dxf"] = ["good.dxf"] ++ rest.
Proof.
  pose proof (clean_zip_kept
                [("good.dxf", Rewrite.Readable "dxf-1");
                 ("bad.dxf", Rewrite.Unreadable Rewrite.BadZipFile);
                 ("readme.txt", Rewrite.Readable "text")] "dxf") as H.
  vm_compute in H. exact (proj2 (proj2 H)).
Defined.

Lemma validate_product_dir_status_witness :
  Audit.status (Audit.validate_product_dir stored_size audit_sample) = "warn".
Proof.
  apply (validate_product_dir_status stored_size audit_sample).
  vm_compute. discriminate.
Defined.

Lemma validate_product_dir_frame_witness :
  Dir.lookup "notes.txt"
    (Audit.dir (Audit.validate_product_dir stored_size audit_sample))
  = Some (File 10 (Some "todo") None).
Proof.
  destruct (validate_product_dir_frame stored_size audit_sample)
    as [Hframe _].
  rewrite Hframe; [reflexivity| |reflexivity]. repeat constructor.
Defined.

Lemma validate_product_dir_pdfs_witness :
  let e := ("XYZ_Catalog.pdf", File 2048 (Some "%PDF") None) in
  e ∈ Audit.dir (Audit.validate_product_dir stored_size audit_sample)
  ∧ is_pdf e.2 = true ∧ st_size e.2 ≠ 0.
Proof.
  assert (("XYZ_Catalog.pdf", File 2048 (Some "%PDF") None)
          ∈ Audit.dir (Audit.validate_product_dir stored_size audit_sample))
    as Hin.
  { vm_compute. right. left. }
  split; [exact Hin|].
  apply (validate_product_dir_pdfs stored_size audit_sample _ "_Catalog.pdf").
  - exact Hin.
  - left.
  - vm_compute. reflexivity.
Defined.

Lemma validate_product_dir_missing_witness :
  Audit.MissingRequired "_STEP.zip"
  ∈ Audit.issues (Audit.validate_product_dir stored_size audit_sample).
Proof.
  apply (validate_product_dir_missing stored_size audit_sample "_STEP.zip").
  - apply (bool_decide_unpack _). vm_compute. exact I.
  - split.
    + apply (bool_decide_unpack _). vm_compute. exact I.
    + apply Forall_forall. repeat constructor.
Defined.

Lemma find_product_row_first_witness :
  (∃ text, sample_rows !! 2%nat = Some (Some text)
           ∧ PyStr.contains (Names.strip text) "XYZ" = true)
  ∧ ∀ j text, (j < 2)%nat → sample_rows !! j = Some (Some text) →
              PyStr.contains (Names.strip text) "XYZ" = false.
Proof.
  pose proof (find_product_row_first sample_rows "XYZ") as H.
  change (Driver.find_product_row sample_rows "XYZ") with (Some 2%nat) in H.
  exact H.
Defined.

Lemma wait_for_download_outcome_witness :
  Driver.wait_for_download ["old.zip"] sample_polls = Driver.Downloaded "b.zip"
  ∧ ∃ earlier p later e,
      sample_polls = earlier ++ p :: later
      ∧ Forall (Driver.idle ["old.zip"]) earlier
      ∧ Driver.in_time p = true ∧ Driver.cr_downloads p = []
      ∧ e ∈ Driver.at_second_glob p ∧ Driver.entry_name e = "b.zip"
      ∧ Driver.is_file e = true ∧ ("b.zip" ∉ ["old.zip"])
      ∧ (∀ e', e' ∈ Driver.new_files ["old.zip"] p →
               Driver.st_mtime e' ≤ Driver.st_mtime e).
Proof.
  assert (Driver.wait_for_download ["old.zip"] sample_polls
          = Driver.Downloaded "b.zip") as Hrun by (vm_compute; reflexivity).
  split; [exact Hrun|].
  pose proof (wait_for_download_outcome ["old.zip"] sample_polls) as H.
  rewrite Hrun in H. exact H.
Defined.

Lemma crawl_max_products_witness :
  Run.processed_count
    (Run.crawl stored_size false 1 [] sample_series sample_product
       ["https://www.ccs-grp.com/products/series/1"] None (Returned [])
       fresh_world).2 ≤ 1.
Proof.
  destruct (crawl_max_products stored_size false 1 [] sample_series
              sample_product ["https://www.ccs-grp.com/products/series/1"]
              None (Returned []) fresh_world) as (_ & _ & _ & _ & _ & _ & Hmax).
  apply Hmax. lia.
Defined.


Lemma crawl_raises_only_listing_witness :
  ((None : option (outcome (list string))) = Some (Raised DriverError)
   ∨ (Returned [] : outcome (list (option string))) = Raised DriverError
   ∨ ∃ urls url,
       Run.listing ["https://www.ccs-grp.com/products/series/1"] None
         (Returned []) = Returned urls
       ∧ url ∈ urls ∧ broken_series url = Raised DriverError)
  ∧ (let r := Run.crawl stored_size false 0 [] sample_series first_call_fails
                ["https://www.ccs-grp.com/products/series/1"] None
                (Returned []) fresh_world in
     r.1 = Returned ()
     ∧ (Run.history r.2).*2 = [Raised DriverError; Returned true]
     ∧ (Run.history r.2).*1
       = Run.series_products [] sample_series
           "https://www.ccs-grp.com/products/series/1").
Proof.
  split.
  - destruct (crawl_raises_only_listing stored_size false 0 [] broken_series
                sample_product ["https://www.ccs-grp.com/products/series/1"]
                None (Returned []) fresh_world) as [Hraised _].
    apply Hraised. vm_compute. reflexivity.
  - cbv zeta.
    destruct (crawl_raises_only_listing stored_size false 0 [] sample_series
                first_call_fails ["https://www.ccs-grp.com/products/series/1"]
                None (Returned []) fresh_world) as [_ Hcalls].
    destruct (Hcalls ["https://www.ccs-grp.com/products/series/1"])
      as [_ Hall]; [reflexivity|].
    destruct Hall as [Hret Hhist]; [reflexivity| |].
    + repeat constructor. by exists sample_page.
    + split; [exact Hret|]. split; [vm_compute; reflexivity|].
      rewrite Hhist. cbn [fmap list_fmap concat]. by rewrite app_nil_r.
Defined.

Lemma crawl_other_products_witness :
  Crawler.output_root
    (Run.world
       (Run.crawl stored_size true 0 [] sample_series sample_product
          ["https://www.ccs-grp.com/products/series/1"] None (Returned [])
          legacy_world).2) !! "OLD-1"
  = Some scenario_c.
Proof.
  rewrite (crawl_other_products stored_size true 0 [] sample_series
             sample_product).
  - vm_compute. reflexivity.
  - intros url page product [= <-] Hin.
    apply list_elem_of_omap in Hin as (row & Hrow & Hprod).
    unfold sample_page in Hrow. cbn [Run.rows] in Hrow.
    apply elem_of_cons in Hrow as [-> | Hrow].
    { injection Hprod as <-. split; [vm_compute; discriminate|].
      apply (bool_decide_unpack _). vm_compute. exact I. }
    apply elem_of_cons in Hrow as [-> | Hrow]; [discriminate Hprod|].
    apply elem_of_cons in Hrow as [-> | Hrow].
    { injection Hprod as <-. split; [vm_compute; discriminate|].
      apply (bool_decide_unpack _). vm_compute. exact I. }
    by apply elem_of_nil in Hrow.
Defined.

Lemma crawl_codes_sanitized_witness :
  Names.sanitize_filename "XYZ" = "XYZ"
  ∧ Names.all_chars (λ c, negb (Names.is_separator c)) "XYZ" = true.
Proof.
  apply (crawl_codes_sanitized stored_size false 1 [] sample_series
           sample_product ["https://www.ccs-grp.com/products/series/1"] None
           (Returned []) fresh_world
           {| code := "XYZ"; series_name := "Bar lights";
              series_url := "https://www.ccs-grp.com/products/series/1";
              product_url := "https://www.ccs-grp.com/products/series/1" |}).
  vm_compute. left.
Defined.

Lemma validate_roots_marked_only_witness :
  ∃ subdirs',
    (Roots.validate_roots stored_size ["/gone"; "/out"] sample_tree).2 !! "/out"
    = Some subdirs'
    ∧ ("OLD-1", scenario_c) ∈ subdirs'.
Proof.
  destruct (validate_roots_marked_only stored_size ["/gone"; "/out"]
              sample_tree) as [_ Hkept].
  apply (Hkept "/out" [("XYZ", audit_sample); ("OLD-1", scenario_c)]
           ("OLD-1", scenario_c)).
  - vm_compute. reflexivity.
  - right. left.
  - vm_compute. reflexivity.
Defined.

Lemma validate_product_dir_settles_witness :
  let r := Audit.validate_product_dir stored_size audit_sample in
  let r' := Audit.validate_product_dir stored_size
              (ProductDir (Audit.dir r) (images audit_sample)) in
  Audit.fixed r = [Audit.DeletedInvalidPDF "XYZ_Manual.pdf"]
  ∧ Audit.fixed r' = [] ∧ Audit.dir r' = Audit.dir r.
Proof.
  split; [vm_compute; reflexivity|].
  apply (validate_product_dir_settles stored_size audit_sample).
  apply (bool_decide_unpack _). vm_compute. exact I.
Defined.

Lemma validate_product_dir_ok_witness :
  Auditor.images_ok step_dir = true
  ∧ ∃ e, e ∈ Audit.dir (Audit.validate_product_dir stored_size step_dir)
         ∧ PyStr.endswith e.1 "_STEP.zip" = true.
Proof.
  destruct (validate_product_dir_ok stored_size step_dir)
    as (Hrequired & _ & _ & Himages).
  - apply (bool_decide_unpack _). vm_compute. exact I.
  - vm_compute. reflexivity.
  - split; [exact Himages|]. apply Hrequired.
    apply (bool_decide_unpack _). vm_compute. exact I.
Defined.
